(** * Streaming core of the meeting summarizer

    A shallow embedding of the transcript buffer
    ([src/streaming/transcript_buffer.py]), the real-time pipeline
    ([src/streaming/realtime_pipeline.py]), the segmenter
    ([src/preprocess/segmenter.py]) and the settings class
    ([src/config.py]), with the properties of the streaming
    specification stated against them. *)

From Stdlib Require Import ZArith Lia Ascii String Permutation.
From stdpp Require Import gmap strings list fin_maps.
Import ListNotations.
Local Open Scope Z_scope.

(* ===================================================================== *)
(** ** Python values shared by all modules *)
(* ===================================================================== *)

(** A Python [str] is a sequence of Unicode code points. *)
Abbreviation str := (list N).

(** Literals: the code points of an ASCII literal. *)
Definition py (s : string) : str :=
  List.map N_of_ascii (list_ascii_of_string s).

(** Exceptions are identified by the name of their class. *)
Inductive exn := PyExc (cls : string).

(** The outcome of a call that may raise. *)
Inductive result (A : Type) :=
| Ok (a : A)
| Raise (e : exn).
Arguments Ok {A} a.
Arguments Raise {A} e.

#[global] Instance exn_eq_dec : EqDecision exn.
Proof. solve_decision. Defined.

Module pystr.

(** [str.isspace] on one code point (CPython's [_PyUnicode_IsWhitespace]);
    [str.split()], [str.strip()] and the regular expression class [\s]
    all use it. *)
Definition isspace (c : N) : bool :=
  ((9 <=? c) && (c <=? 13) || (28 <=? c) && (c <=? 32)
   || (c =? 133) || (c =? 160) || (c =? 5760)
   || (8192 <=? c) && (c <=? 8202)
   || (c =? 8232) || (c =? 8233) || (c =? 8239) || (c =? 8287)
   || (c =? 12288))%N.

(** [text.split()]: maximal runs of non-whitespace, in order; [cur] is
    the word being read, last character first. *)
Fixpoint split_from (cur : str) (s : str) : list str :=
  match s with
  | [] => match cur with [] => [] | _ => [rev cur] end
  | c :: s' =>
      if isspace c
      then match cur with
           | [] => split_from [] s'
           | _ => rev cur :: split_from [] s'
           end
      else split_from (c :: cur) s'
  end.

Definition split (s : str) : list str := split_from [] s.

(** [sep.join(parts)]. *)
Fixpoint join (sep : str) (parts : list str) : str :=
  match parts with
  | [] => []
  | [p] => p
  | p :: rest => p ++ sep ++ join sep rest
  end.

Fixpoint lstrip (s : str) : str :=
  match s with
  | c :: s' => if isspace c then lstrip s' else s
  | [] => []
  end.

(** [s.strip()]. *)
Definition strip (s : str) : str := rev (lstrip (rev (lstrip s))).

(** Truth value of a [str]: the empty string is false. *)
Definition truthy (s : str) : bool :=
  match s with [] => false | _ => true end.

(** Truth value of an [Optional[str]]: [None] and [""] are false. *)
Definition truthy_opt (o : option str) : bool :=
  match o with Some s => truthy s | None => false end.

(** [l[:n]] for a Python [int] [n]: a negative bound counts from the
    end. *)
Definition slice_to {A} (n : Z) (l : list A) : list A :=
  if 0 <=? n then take (Z.to_nat n) l
  else take (length l - Z.to_nat (- n)) l.

End pystr.

(* ===================================================================== *)
(** ** [src/config.py] *)
(* ===================================================================== *)

Module config.

(** Values a settings field can hold. A float keeps the text of its
    literal. *)
Inductive pyval :=
| VInt (z : Z)
| VFloat (lit : string)
| VBool (b : bool)
| VStr (s : string)
| VPath (p : string)
| VList (l : list string).

(** A settings object: its attributes, by name. *)
Abbreviation settings_obj := (list (string * pyval)).

(** The fields of class [Settings] with their declared defaults, in the
    order of the class body ([project_root] is computed from the file's
    location). *)
Definition Settings (project_root : string) : settings_obj :=
  [ ("project_root", VPath project_root);
    ("data_dir", VPath "data");
    ("models_dir", VPath "models");
    ("outputs_dir", VPath "outputs");
    ("summarization_model", VStr "facebook/bart-large-cnn");
    ("finetuned_model_path", VPath "models/summarizer");
    ("ner_backend", VStr "spacy");
    ("spacy_model", VStr "en_core_web_sm");
    ("hf_ner_model", VStr "dslim/bert-base-NER");
    ("learning_rate", VFloat "5e-5");
    ("batch_size", VInt 2);
    ("gradient_accumulation_steps", VInt 4);
    ("num_epochs", VInt 3);
    ("max_input_length", VInt 1024);
    ("max_target_length", VInt 256);
    ("warmup_steps", VInt 100);
    ("weight_decay", VFloat "0.01");
    ("eval_steps", VInt 100);
    ("save_steps", VInt 500);
    ("save_total_limit", VInt 3);
    ("num_beams", VInt 4);
    ("temperature", VFloat "1.0");
    ("top_p", VFloat "0.95");
    ("do_sample", VBool false);
    ("min_summary_length", VInt 30);
    ("max_summary_length", VInt 200);
    ("api_host", VStr "0.0.0.0");
    ("api_port", VInt 8000);
    ("api_workers", VInt 1);
    ("cors_origins", VList ["http://localhost:3000"; "http://localhost:8501"]);
    ("log_level", VStr "INFO");
    ("log_format", VStr "text");
    ("log_file", VPath "logs/app.log");
    ("hf_home", VPath ".cache/huggingface");
    ("transformers_cache", VPath ".cache/transformers") ]%string.

(** The names class [Settings] declares. Environment variables and the
    [.env] file can change the value of a declared field; with
    [extra="ignore"] they cannot add one. *)
Definition Settings_fields : list string :=
  List.map fst (Settings "").

(** An instance of [Settings]: a value for each declared field. *)
Definition is_Settings (st : settings_obj) : Prop :=
  List.map fst st = Settings_fields.

Fixpoint assoc (name : string) (st : settings_obj) : option pyval :=
  match st with
  | [] => None
  | (k, v) :: rest => if String.eqb k name then Some v else assoc name rest
  end.

(** [settings.<name>]: the value, or [AttributeError]. *)
Definition getattr (st : settings_obj) (name : string) : result pyval :=
  match assoc name st with
  | Some v => Ok v
  | None => Raise (PyExc "AttributeError")
  end.

End config.

(* ===================================================================== *)
(** ** [src/streaming/transcript_buffer.py] *)
(* ===================================================================== *)

Module transcript_buffer.

(** The attributes of a [TranscriptBuffer]; [buffer] is the deque, front
    first. *)
Record TranscriptBuffer := {
  buffer_size : Z;
  overlap : Z;
  buffer : list str;
  total_words : Z;
  chunks_generated : Z
}.

(** An integer read from a settings attribute. [bool] is a subclass of
    [int]. The record above keeps both parameters integers: a value of
    another type stops the model here with the [TypeError] Python raises
    at its first use in [add_text] or [_extract_chunk]. *)
Definition as_int (v : config.pyval) : result Z :=
  match v with
  | config.VInt z => Ok z
  | config.VBool b => Ok (if b then 1 else 0)
  | _ => Raise (PyExc "TypeError")
  end.

Definition setting_int (settings : config.settings_obj) (name : string)
  : result Z :=
  match config.getattr settings name with
  | Ok v => as_int v
  | Raise e => Raise e
  end.

(** [arg or settings.<name>]: the argument when it is true ([None] and
    [0] are false), else the attribute, which is only then read. *)
Definition or_setting (arg : option Z) (settings : config.settings_obj)
    (name : string) : result Z :=
  match arg with
  | Some z => if z =? 0 then setting_int settings name else Ok z
  | None => setting_int settings name
  end.

(** [TranscriptBuffer(buffer_size, overlap)], with the module-level
    [settings] object made explicit. *)
Definition __init__ (settings : config.settings_obj)
    (buffer_size overlap : option Z) : result TranscriptBuffer :=
  match or_setting buffer_size settings "streaming_buffer_size" with
  | Raise e => Raise e
  | Ok size =>
      match or_setting overlap settings "streaming_overlap" with
      | Raise e => Raise e
      | Ok ov =>
          Ok {| buffer_size := size; overlap := ov; buffer := [];
                total_words := 0; chunks_generated := 0 |}
      end
  end.

(** [for _ in range(n): if self.buffer: self.buffer.popleft()]. *)
Fixpoint popleft_loop (n : nat) (buf : list str) : list str :=
  match n with
  | O => buf
  | S n' =>
      match buf with
      | [] => popleft_loop n' []
      | _ :: rest => popleft_loop n' rest
      end
  end.

Definition _extract_chunk (self : TranscriptBuffer)
  : TranscriptBuffer * str :=
  let chunk_words := pystr.slice_to (buffer_size self) (buffer self) in
  let chunk_text := pystr.join (py " ") chunk_words in
  let buffer' :=
    popleft_loop (Z.to_nat (buffer_size self - overlap self)) (buffer self) in
  ({| buffer_size := buffer_size self; overlap := overlap self;
      buffer := buffer';
      total_words := total_words self;
      chunks_generated := chunks_generated self + 1 |},
   chunk_text).

Definition add_text (self : TranscriptBuffer) (text : str)
  : TranscriptBuffer * option str :=
  let words := pystr.split text in
  let self1 :=
    {| buffer_size := buffer_size self; overlap := overlap self;
       buffer := buffer self ++ words;
       total_words := total_words self + Z.of_nat (length words);
       chunks_generated := chunks_generated self |} in
  if buffer_size self1 <=? Z.of_nat (length (buffer self1))
  then let '(self2, chunk) := _extract_chunk self1 in (self2, Some chunk)
  else (self1, None).

Definition get_remaining (self : TranscriptBuffer)
  : TranscriptBuffer * option str :=
  match buffer self with
  | [] => (self, None)
  | _ =>
      ({| buffer_size := buffer_size self; overlap := overlap self;
          buffer := [];
          total_words := total_words self;
          chunks_generated := chunks_generated self |},
       Some (pystr.join (py " ") (buffer self)))
  end.

Definition clear (self : TranscriptBuffer) : TranscriptBuffer :=
  {| buffer_size := buffer_size self; overlap := overlap self;
     buffer := []; total_words := 0; chunks_generated := 0 |}.

(** [get_stats()], keys in the order of the dict literal. *)
Definition get_stats (self : TranscriptBuffer) : list (string * Z) :=
  [ ("total_words_processed", total_words self);
    ("chunks_generated", chunks_generated self);
    ("current_buffer_size", Z.of_nat (length (buffer self)));
    ("buffer_capacity", buffer_size self) ]%string.

(** The calls [add_text(t)] for [t] in [texts], in order, with what each
    returned. *)
Fixpoint add_texts (self : TranscriptBuffer) (texts : list str)
  : TranscriptBuffer * list (option str) :=
  match texts with
  | [] => (self, [])
  | t :: rest =>
      let '(self1, r) := add_text self t in
      let '(self2, rs) := add_texts self1 rest in
      (self2, r :: rs)
  end.

End transcript_buffer.

(* ===================================================================== *)
(** ** [src/streaming/realtime_pipeline.py] *)
(* ===================================================================== *)

Module realtime_pipeline.

Import transcript_buffer.

(** One element of an entity list: [{"entity": ..., "count": ...}]
    (the ["examples"] key is never read by the pipeline). *)
Record entity_info := { entity : str; count : Z }.

(** The dictionary returned by [extract_and_format]. Only the key
    ["entities_by_type"] is read, through [.get(..., {})]: [None] is a
    dictionary without that key; the items are in iteration order. *)
Record formatted_entities := {
  entities_by_type : option (list (str * list entity_info))
}.

(** [chunk_data], the element type of [chunk_summaries]. *)
Record chunk_data := {
  chunk_number : Z;
  summary : str;
  entities : formatted_entities;
  word_count : Z
}.

(** The mutable attributes of a [RealtimeSummarizationPipeline]. *)
Record Pipeline := {
  buffer : TranscriptBuffer;
  chunk_summaries : list chunk_data;
  all_entities : gmap str (gmap str Z);
  complete_transcript : list str
}.

(** The collaborators fixed at construction. [generate_summary text
    max_length] stands for [generate_summary(text, self.model,
    self.tokenizer, max_length=...)] and [extract_and_format] for
    [self.ner_extractor.extract_and_format]; both wrap external models
    and may raise. The two callbacks are optional. *)
Record collaborators := {
  generate_summary : str -> option Z -> result str;
  extract_and_format : str -> result formatted_entities;
  on_chunk_summarized : option (str -> chunk_data -> result unit);
  on_entity_extracted : option (formatted_entities -> result unit)
}.

(** What the pipeline does to the outside, in order. *)
Inductive event :=
| CallSummarize (text : str) (max_length : option Z)
| CallExtract (text : str)
| CallChunkSummarized (chunk_text : str) (data : chunk_data)
| CallEntityExtracted (ents : formatted_entities).

(** A method body: it transforms the object and the trace of outside
    calls, and returns or raises. Mutations made before an exception
    stay. The calls on one pipeline object are taken one after the other
    (one writer per session), so [await asyncio.to_thread(f, ...)] is a
    call of [f]. *)
Definition M (A : Type) : Type :=
  Pipeline * list event -> (Pipeline * list event) * result A.

Definition ret {A} (a : A) : M A := fun w => (w, Ok a).

Definition bind {A B} (m : M A) (k : A -> M B) : M B :=
  fun w =>
    match m w with
    | (w1, Ok a) => k a w1
    | (w1, Raise e) => (w1, Raise e)
    end.

Notation "x <- m ;; k" := (bind m (fun x => k))
  (at level 100, m at next level, right associativity).
Notation "m ;;; k" := (bind m (fun _ => k))
  (at level 100, right associativity).

Definition get : M Pipeline := fun w => (w, Ok (fst w)).

Definition modify (f : Pipeline -> Pipeline) : M unit :=
  fun w => ((f (fst w), snd w), Ok tt).

(** A call to a collaborator: recorded, then its outcome. *)
Definition call {A} (ev : event) (r : result A) : M A :=
  fun w => ((fst w, snd w ++ [ev]), r).

Definition set_buffer (b : TranscriptBuffer) (p : Pipeline) : Pipeline :=
  {| buffer := b; chunk_summaries := chunk_summaries p;
     all_entities := all_entities p;
     complete_transcript := complete_transcript p |}.

Definition set_chunk_summaries (l : list chunk_data) (p : Pipeline)
  : Pipeline :=
  {| buffer := buffer p; chunk_summaries := l;
     all_entities := all_entities p;
     complete_transcript := complete_transcript p |}.

Definition set_all_entities (m : gmap str (gmap str Z)) (p : Pipeline)
  : Pipeline :=
  {| buffer := buffer p; chunk_summaries := chunk_summaries p;
     all_entities := m;
     complete_transcript := complete_transcript p |}.

Definition set_complete_transcript (l : list str) (p : Pipeline)
  : Pipeline :=
  {| buffer := buffer p; chunk_summaries := chunk_summaries p;
     all_entities := all_entities p;
     complete_transcript := l |}.

(** [RealtimeSummarizationPipeline(...)]: the buffer is built as
    [TranscriptBuffer()], both arguments [None]. (The NER extractor is
    built just before; it is taken to have been built.) *)
Definition __init__ (settings : config.settings_obj) : result Pipeline :=
  match transcript_buffer.__init__ settings None None with
  | Raise e => Raise e
  | Ok b =>
      Ok {| buffer := b; chunk_summaries := []; all_entities := ∅;
            complete_transcript := [] |}
  end.

(** The body of the inner loop of [_merge_entities]. The type's entry
    exists when it runs (the outer loop creates it), so the [KeyError]
    of a missing type cannot occur; [alter] leaves the table as it is
    there. *)
Definition merge_entity (entity_type : str) (all : gmap str (gmap str Z))
    (entity_info : entity_info) : gmap str (gmap str Z) :=
  let entity_text := entity entity_info in
  alter (fun inner =>
           match inner !! entity_text with
           | None => <[entity_text := count entity_info]> inner
           | Some n => <[entity_text := n + count entity_info]> inner
           end) entity_type all.

(** The body of the outer loop. *)
Definition merge_type (all : gmap str (gmap str Z))
    (item : str * list entity_info) : gmap str (gmap str Z) :=
  let all1 :=
    match all !! item.1 with
    | None => <[item.1 := ∅]> all
    | Some _ => all
    end in
  foldl (merge_entity item.1) all1 item.2.

Definition _merge_entities (all : gmap str (gmap str Z))
    (new_entities : formatted_entities) : gmap str (gmap str Z) :=
  foldl merge_type all (default [] (entities_by_type new_entities)).

Section methods.

Context (self : collaborators).

Definition _process_chunk (chunk_text : str) : M unit :=
  summary <- call (CallSummarize chunk_text None)
                  (generate_summary self chunk_text None) ;;
  entities <- call (CallExtract chunk_text)
                   (extract_and_format self chunk_text) ;;
  p <- get ;;
  let chunk_data :=
    {| chunk_number := Z.of_nat (length (chunk_summaries p)) + 1;
       summary := summary;
       entities := entities;
       word_count := Z.of_nat (length (pystr.split chunk_text)) |} in
  modify (fun p => set_chunk_summaries (chunk_summaries p ++ [chunk_data]) p) ;;;
  modify (fun p => set_all_entities (_merge_entities (all_entities p) entities) p) ;;;
  match on_chunk_summarized self with
  | Some f => call (CallChunkSummarized chunk_text chunk_data)
                   (f chunk_text chunk_data)
  | None => ret tt
  end ;;;
  match on_entity_extracted self with
  | Some f => call (CallEntityExtracted entities) (f entities)
  | None => ret tt
  end.

Definition _generate_final_summary : M str :=
  p <- get ;;
  let all_summaries :=
    pystr.join (py " ") (List.map summary (chunk_summaries p)) in
  if (1 <? length (chunk_summaries p))%nat
  then call (CallSummarize all_summaries (Some 300))
            (generate_summary self all_summaries (Some 300))
  else ret all_summaries.

(** [self.buffer.add_text(text)] and [self.buffer.get_remaining()] on
    the pipeline's own buffer. *)
Definition buffer_add_text (text : str) : M (option str) :=
  fun w =>
    let '(b, r) := add_text (buffer (fst w)) text in
    ((set_buffer b (fst w), snd w), Ok r).

Definition buffer_get_remaining : M (option str) :=
  fun w =>
    let '(b, r) := get_remaining (buffer (fst w)) in
    ((set_buffer b (fst w), snd w), Ok r).

Definition process_text_async (text : str) (is_final : bool) : M unit :=
  modify (fun p => set_complete_transcript (complete_transcript p ++ [text]) p) ;;;
  chunk <- buffer_add_text text ;;
  match chunk with
  | Some c => if pystr.truthy c then _process_chunk c else ret tt
  | None => ret tt
  end ;;;
  if is_final
  then
    remaining <- buffer_get_remaining ;;
    match remaining with
    | Some r => if pystr.truthy r then _process_chunk r else ret tt
    | None => ret tt
    end ;;;
    _ <- _generate_final_summary ;;
    ret tt
  else ret tt.

End methods.

(** The values of the dictionary [get_results] returns. *)
Inductive results_value :=
| RChunkSummaries (l : list chunk_data)
| REntities (m : gmap str (gmap str Z))
| RTranscriptParts (l : list str)
| RBufferStats (stats : list (string * Z)).

(** [get_results()], keys in the order of the dict literal. *)
Definition get_results (p : Pipeline) : list (string * results_value) :=
  [ ("chunk_summaries", RChunkSummaries (chunk_summaries p));
    ("entities", REntities (all_entities p));
    ("transcript_parts", RTranscriptParts (complete_transcript p));
    ("buffer_stats", RBufferStats (get_stats (buffer p))) ]%string.

Definition reset (p : Pipeline) : Pipeline :=
  {| buffer := clear (buffer p); chunk_summaries := [];
     all_entities := ∅; complete_transcript := [] |}.

End realtime_pipeline.

(* ===================================================================== *)
(** ** Regular expressions, as far as the segmenter uses them *)
(* ===================================================================== *)

Module re.

(** The constructs of the speaker pattern. Quantifiers only ever apply
    to a character class there, so [Star] takes a class. *)
Inductive regex :=
| Empty
| Chr (p : N -> bool)                (* one character of a class *)
| Seq (r1 r2 : regex)
| Alt (r1 r2 : regex)                (* r1|r2 *)
| Opt (r : regex)                    (* (?:r)? *)
| Star (lazy : bool) (p : N -> bool) (* p* and p*? *)
| Group (i : nat) (r : regex)        (* (r), numbered *)
| Lookahead (r : regex)              (* (?=r) *)
| EndZ.                              (* \Z *)

(** [p+] is [pp*], [p+?] is [pp*?]. *)
Definition Plus (lazy : bool) (p : N -> bool) : regex :=
  Seq (Chr p) (Star lazy p).

Definition cat (rs : list regex) : regex := foldr Seq Empty rs.

(** Groups that took part in the match, latest first. *)
Abbreviation captures := (list (nat * str)).

Fixpoint group (c : captures) (i : nat) : option str :=
  match c with
  | [] => None
  | (j, s) :: rest => if Nat.eqb i j then Some s else group rest i
  end.

Section star.
Context {R : Type} (p : N -> bool) (k : str -> option R).

(** Fewest repetitions first. *)
Fixpoint lazy_star (s : str) : option R :=
  match k s with
  | Some x => Some x
  | None =>
      match s with
      | a :: s' => if p a then lazy_star s' else None
      | [] => None
      end
  end.

(** Most repetitions first. *)
Fixpoint greedy_star (s : str) : option R :=
  match s with
  | a :: s' =>
      if p a
      then match greedy_star s' with
           | Some x => Some x
           | None => k s
           end
      else k s
  | [] => k s
  end.
End star.

(** Backtracking match of [r] at the front of [s]; [k] is what must
    match after it. Alternatives are tried in the order of Python's
    [re]: left alternative first, an optional part first with, then
    without. *)
Fixpoint run (r : regex) (k : str -> captures -> option (str * captures))
    (s : str) (c : captures) {struct r} : option (str * captures) :=
  match r with
  | Empty => k s c
  | Chr p =>
      match s with
      | a :: s' => if p a then k s' c else None
      | [] => None
      end
  | Seq r1 r2 => run r1 (fun s1 c1 => run r2 k s1 c1) s c
  | Alt r1 r2 =>
      match run r1 k s c with
      | Some x => Some x
      | None => run r2 k s c
      end
  | Opt r1 =>
      match run r1 k s c with
      | Some x => Some x
      | None => k s c
      end
  | Star lazy p =>
      if lazy then lazy_star p (fun s1 => k s1 c) s
      else greedy_star p (fun s1 => k s1 c) s
  | Group i r1 =>
      run r1 (fun s1 c1 =>
                k s1 ((i, take (length s - length s1) s) :: c1)) s c
  | Lookahead r1 =>
      match run r1 (fun s1 c1 => Some (s1, c1)) s c with
      | Some (_, c1) => k s c1
      | None => None
      end
  | EndZ => match s with [] => k s c | _ => None end
  end.

(** [re.match] at the front of [s]: the rest of the input and the
    groups. *)
Definition match_at (r : regex) (s : str) : option (str * captures) :=
  run r (fun s1 c1 => Some (s1, c1)) s [].

(** [re.finditer]: leftmost matches, each search resuming where the
    previous match ended. Every step drops at least one character, so
    [S (length s)] steps reach the end of the input. (The speaker
    pattern never matches the empty string; after an empty match the
    search moves on by one character.) *)
Fixpoint finditer_from (fuel : nat) (r : regex) (s : str)
  : list captures :=
  match fuel with
  | O => []
  | S fuel' =>
      let skip :=
        match s with [] => [] | _ :: s' => finditer_from fuel' r s' end in
      match match_at r s with
      | Some (rest, c) =>
          c :: (if (length rest <? length s)%nat
                then finditer_from fuel' r rest else skip)
      | None => skip
      end
  end.

Definition finditer (r : regex) (s : str) : list captures :=
  finditer_from (S (length s)) r s.

End re.

(* ===================================================================== *)
(** ** [src/preprocess/segmenter.py] *)
(* ===================================================================== *)

(** What the segmenter uses of Python's [datetime]: parsing depends on
    the locale and the time-only formats on the clock. *)
Class DatetimeLib := {
  datetime : Type;
  (** [datetime.strptime(s, fmt)]; [ValueError] (a subclass counts as
      [ValueError]) when [s] does not match. *)
  strptime : str -> string -> result datetime;
  (** [datetime.combine(datetime.now().date(), d.time())]. *)
  combine_today : datetime -> datetime;
  (** [(a - b).total_seconds()]; a whole number for the formats below,
      none of which has fractions of a second. *)
  total_seconds : datetime -> datetime -> Z;
  (** [d.isoformat()]. *)
  isoformat : datetime -> str
}.

Module segmenter.

Record TranscriptSegment := {
  speaker : str;
  text : str;
  timestamp : option str;
  start_line : option Z
}.

(** [to_dict] returns a dictionary with the same four keys. *)
Record segment_dict := {
  d_speaker : str;
  d_text : str;
  d_timestamp : option str;
  d_start_line : option Z
}.

Definition to_dict (s : TranscriptSegment) : segment_dict :=
  {| d_speaker := speaker s; d_text := text s;
     d_timestamp := timestamp s; d_start_line := start_line s |}.

Definition is_char (a : N) (c : N) : bool := (c =? a)%N.
Definition any_char (c : N) : bool := true.
(** [[A-Z]]. *)
Definition upper (c : N) : bool := ((65 <=? c) && (c <=? 90))%N.
(** [[a-zA-Z\s\.]]. *)
Definition name_char (c : N) : bool :=
  ((97 <=? c) && (c <=? 122) || (65 <=? c) && (c <=? 90))%N
  || pystr.isspace c || is_char 46 c.

(** [(?:\[(.*?)\]\s+)?([A-Z][a-zA-Z\s\.]+?):\s*(.+?)
     (?=(?:\n\[|\n[A-Z][a-zA-Z\s\.]+?:|\Z))] under [re.DOTALL]. *)
Definition pattern : re.regex :=
  re.cat
    [ re.Opt (re.cat [ re.Chr (is_char 91);
                       re.Group 1 (re.Star true any_char);
                       re.Chr (is_char 93);
                       re.Plus false pystr.isspace ]);
      re.Group 2 (re.cat [ re.Chr upper; re.Plus true name_char ]);
      re.Chr (is_char 58);
      re.Star false pystr.isspace;
      re.Group 3 (re.Plus true any_char);
      re.Lookahead
        (re.Alt (re.cat [ re.Chr (is_char 10); re.Chr (is_char 91) ])
           (re.Alt (re.cat [ re.Chr (is_char 10); re.Chr upper;
                             re.Plus true name_char; re.Chr (is_char 58) ])
                   re.EndZ)) ].

(** The loop over the matches; [line_num] counts them. Groups 2 and 3
    take part in every match. *)
Fixpoint segments_of (line_num : Z) (matches : list re.captures)
  : list TranscriptSegment :=
  match matches with
  | [] => []
  | m :: rest =>
      {| speaker := pystr.strip (default [] (re.group m 2));
         text := pystr.strip (default [] (re.group m 3));
         timestamp := re.group m 1;
         start_line := Some line_num |}
      :: segments_of (line_num + 1) rest
  end.

Definition segment_by_speaker (text : str) : list TranscriptSegment :=
  segments_of 0 (re.finditer pattern text).

(** One element of the list [segment_by_time] returns:
    [{"window": "full", "content": text}] or
    [{"window_start": ..., "segments": [...]}]. *)
Inductive time_window :=
| Full (content : str)
| Window (window_start : str) (segments : list segment_dict).

Section with_datetime.

Context `{DatetimeLib}.

Definition formats : list string :=
  [ "%I:%M %p"; "%H:%M"; "%I:%M:%S %p"; "%H:%M:%S"; "%Y-%m-%dT%H:%M:%S" ]%string.

(** [c in fmt]. *)
Definition contains (c : ascii) (fmt : string) : bool :=
  existsb (Ascii.eqb c) (list_ascii_of_string fmt).

(** The loop over [formats]: the first format that parses wins, a
    [ValueError] moves on to the next one, any other exception
    leaves the function. *)
Fixpoint try_formats (fmts : list string) (timestamp_str : str)
  : result datetime :=
  match fmts with
  | [] => Raise (PyExc "ValueError")
  | fmt :: rest =>
      match strptime timestamp_str fmt with
      | Ok d =>
          if negb (contains "%" fmt) || negb (contains "Y" fmt)
          then Ok (combine_today d)
          else Ok d
      | Raise e =>
          if decide (e = PyExc "ValueError")
          then try_formats rest timestamp_str
          else Raise e
      end
  end.

Definition _parse_timestamp (timestamp_str : str) : result datetime :=
  try_formats formats timestamp_str.

(** The local variables of the loop of [segment_by_time]. *)
Record loop_state := {
  time_windows : list time_window;
  current_window : list segment_dict;
  window_start : option datetime
}.

Definition append_current (st : loop_state) (segment : TranscriptSegment)
  : loop_state :=
  {| time_windows := time_windows st;
     current_window := current_window st ++ [to_dict segment];
     window_start := window_start st |}.

(** One iteration. [minutes_diff >= window_minutes] is compared in
    whole seconds. *)
Definition loop_body (window_minutes : Z) (st : loop_state)
    (segment : TranscriptSegment) : result loop_state :=
  match timestamp segment with
  | Some ts =>
      if pystr.truthy ts
      then
        match _parse_timestamp ts with
        | Ok t =>
            let start := default t (window_start st) in
            if 60 * window_minutes <=? total_seconds t start
            then
              Ok {| time_windows :=
                      match current_window st with
                      | [] => time_windows st
                      | _ => time_windows st ++
                               [Window (isoformat start) (current_window st)]
                      end;
                    current_window := [to_dict segment];
                    window_start := Some t |}
            else
              Ok {| time_windows := time_windows st;
                    current_window := current_window st ++ [to_dict segment];
                    window_start := Some start |}
        | Raise e =>
            if decide (e = PyExc "ValueError")
            then Ok (append_current st segment)
            else Raise e
        end
      else Ok (append_current st segment)
  | None => Ok (append_current st segment)
  end.

Fixpoint loop (window_minutes : Z) (st : loop_state)
    (segments : list TranscriptSegment) : result loop_state :=
  match segments with
  | [] => Ok st
  | segment :: rest =>
      match loop_body window_minutes st segment with
      | Ok st' => loop window_minutes st' rest
      | Raise e => Raise e
      end
  end.

(** [s.timestamp] is true: present and not empty. *)
Definition has_timestamp (s : TranscriptSegment) : bool :=
  pystr.truthy_opt (timestamp s).

Definition segment_by_time (text : str) (window_minutes : Z)
  : result (list time_window) :=
  let segments := segment_by_speaker text in
  if match segments with [] => true | _ => false end
     || negb (existsb has_timestamp segments)
  then Ok [Full text]
  else
    match loop window_minutes
            {| time_windows := []; current_window := [];
               window_start := None |} segments with
    | Raise e => Raise e
    | Ok st =>
        Ok match current_window st with
           | [] => time_windows st
           | _ =>
               time_windows st ++
               [Window match window_start st with
                       | Some d => isoformat d
                       | None => py "unknown"
                       end
                       (current_window st)]
           end
    end.

End with_datetime.

End segmenter.

(* ===================================================================== *)
(** ** [src/ner/spacy_ner.py] and [src/ner/unified_ner.py] *)
(* ===================================================================== *)

(** Dictionaries built by a loop keep their keys in insertion order. *)
Module pydict.

(** [d[k].append(v)] on a [defaultdict(list)]. *)
Fixpoint append_to {V} (k : str) (v : V) (d : list (str * list V))
  : list (str * list V) :=
  match d with
  | [] => [(k, [v])]
  | (k', vs) :: d' =>
      if decide (k' = k) then (k', vs ++ [v]) :: d'
      else (k', vs) :: append_to k v d'
  end.

(** [d[k] += 1] on a [defaultdict(int)]. *)
Fixpoint bump (k : str) (d : list (str * Z)) : list (str * Z) :=
  match d with
  | [] => [(k, 0 + 1)]
  | (k', n) :: d' =>
      if decide (k' = k) then (k', n + 1) :: d'
      else (k', n) :: bump k d'
  end.

(** Reading [d[k]] on a [defaultdict(list)]: a missing key is entered
    with an empty list. *)
Fixpoint touch {V} (k : str) (d : list (str * list V))
  : list (str * list V) :=
  match d with
  | [] => [(k, [])]
  | (k', vs) :: d' =>
      if decide (k' = k) then d else (k', vs) :: touch k d'
  end.

(** [d[k]] for a key that is there (the empty list otherwise). *)
Fixpoint item {V} (k : str) (d : list (str * list V)) : list V :=
  match d with
  | [] => []
  | (k', vs) :: d' => if decide (k' = k) then vs else item k d'
  end.

End pydict.

Module spacy_ner.

(** One entity of [doc.ents], as the external model reports it. *)
Record ent := {
  text : str;
  label_ : str;
  start_char : Z;
  end_char : Z
}.

(** [{"start": ..., "end": ...}]. *)
Record example := { ex_start : Z; ex_end : Z }.

(** One element of a result list:
    [{"entity": ..., "count": ..., "examples": [...]}]. *)
Record entity_entry := {
  entity : str;
  count : Z;
  examples : list example
}.

(** The body of the loop over the entities of one label: the pair of
    [entity_counts] and [entity_examples]. *)
Definition count_step
    (st : list (str * Z) * list (str * list example)) (e : ent)
  : list (str * Z) * list (str * list example) :=
  let entity_counts := pydict.bump (text e) st.1 in
  let examples1 := pydict.touch (text e) st.2 in
  let entity_examples :=
    if (length (pydict.item (text e) examples1) <? 3)%nat
    then pydict.append_to (text e)
           {| ex_start := start_char e; ex_end := end_char e |} examples1
    else examples1 in
  (entity_counts, entity_examples).

(** [sorted(items, key=lambda x: x[1], reverse=True)]: by count, largest
    first; the sort is stable, items with equal counts keep their
    order. *)
Fixpoint insert_desc (x : str * Z) (l : list (str * Z)) : list (str * Z) :=
  match l with
  | [] => [x]
  | y :: l' => if y.2 <=? x.2 then x :: l else y :: insert_desc x l'
  end.

Definition sorted_desc (items : list (str * Z)) : list (str * Z) :=
  foldr insert_desc [] items.

(** The list built for one label. *)
Definition entries_of (entities : list ent) : list entity_entry :=
  let st := foldl count_step ([], []) entities in
  List.map (fun tc => {| entity := tc.1; count := tc.2;
                         examples := pydict.item tc.1 st.2 |})
           (sorted_desc st.1).

(** [extract_entities], from the entities the model found in the text. *)
Definition extract_entities (doc_ents : list ent)
  : list (str * list entity_entry) :=
  let entities_by_type :=
    foldl (fun g e => pydict.append_to (label_ e) e g) [] doc_ents in
  List.map (fun item => (item.1, entries_of item.2)) entities_by_type.

(** [get_entity_summary]: the number of distinct entities per label. *)
Definition get_entity_summary (doc_ents : list ent) : list (str * Z) :=
  List.map (fun item => (item.1, Z.of_nat (length item.2)))
           (extract_entities doc_ents).

End spacy_ner.

Module unified_ner.

(** The dictionary [format_entities] returns. *)
Record formatted := {
  backend : string;
  total_unique_entities : Z;
  entity_types : list str;
  entities_by_type : list (str * list spacy_ner.entity_entry)
}.

Definition format_entities (backend : string)
    (entities : list (str * list spacy_ner.entity_entry)) : formatted :=
  {| backend := backend;
     total_unique_entities :=
       foldr Z.add 0
             (List.map (fun item => Z.of_nat (length item.2)) entities);
     entity_types := List.map fst entities;
     entities_by_type := entities |}.

(** [extract_and_format] with the spaCy backend, from the entities the
    model found. *)
Definition extract_and_format (doc_ents : list spacy_ner.ent) : formatted :=
  format_entities "spacy" (spacy_ner.extract_entities doc_ents).

End unified_ner.


(* ===================================================================== *)
(** ** [src/preprocess/segmenter.py]: the Teams export *)
(* ===================================================================== *)

(** What [parse_teams_format] uses of [datetime]: ISO parsing and the
    locale's formatting. *)
Class IsoLib := {
  iso_datetime : Type;
  (** [datetime.fromisoformat(s)]. *)
  fromisoformat : str -> result iso_datetime;
  (** [dt.strftime(fmt)]. *)
  strftime : iso_datetime -> string -> str
}.

Module teams.

(** One element of ["messages"]; [None] is a missing key. *)
Record message := {
  speaker : option str;
  text : option str;
  timestamp : option str
}.

(** The export dictionary; [None] is a missing ["messages"] key. *)
Record teams_data := { messages : option (list message) }.

(** [s.replace("Z", "+00:00")]. *)
Fixpoint replace_Z (s : str) : str :=
  match s with
  | [] => []
  | c :: s' => if (c =? 90)%N then py "+00:00" ++ replace_Z s'
               else c :: replace_Z s'
  end.

Section with_iso.

Context `{IsoLib}.

(** The body of the loop: the line for one message. Only [ValueError]
    is caught around the parsing of the timestamp. *)
Definition line_of (m : message) : result str :=
  let speaker := default (py "Unknown") (speaker m) in
  let text := default [] (text m) in
  let timestamp := default [] (timestamp m) in
  if pystr.truthy timestamp
  then
    match fromisoformat (replace_Z timestamp) with
    | Ok dt =>
        Ok (py "[" ++ strftime dt "%I:%M %p" ++ py "] "
            ++ speaker ++ py ": " ++ text)
    | Raise e =>
        if decide (e = PyExc "ValueError")
        then Ok (py "[" ++ timestamp ++ py "] " ++ speaker ++ py ": " ++ text)
        else Raise e
    end
  else Ok (speaker ++ py ": " ++ text).

Fixpoint lines_of (ms : list message) : result (list str) :=
  match ms with
  | [] => Ok []
  | m :: rest =>
      match line_of m with
      | Raise e => Raise e
      | Ok l =>
          match lines_of rest with
          | Raise e => Raise e
          | Ok ls => Ok (l :: ls)
          end
      end
  end.

Definition parse_teams_format (d : teams_data) : result str :=
  match messages d with
  | None => Raise (PyExc "ValueError")
  | Some ms =>
      match lines_of ms with
      | Raise e => Raise e
      | Ok transcript_parts =>
          Ok (pystr.join [10%N; 10%N] transcript_parts)
      end
  end.

End with_iso.

End teams.


(* ===================================================================== *)
(** * Notions used in the statements *)
(* ===================================================================== *)

Module buffer_defs.

Import transcript_buffer.

(** An argument is false when it is [None] or [0]. *)
Definition falsy (arg : option Z) : Prop := arg = None \/ arg = Some 0.

End buffer_defs.

Module merge_defs.

Import realtime_pipeline.

Abbreviation table := (gmap str (gmap str Z)).

(** [all_entities[ty][tx]], when both keys are there. *)
Definition lookup2 (m : table) (ty tx : str) : option Z :=
  match m !! ty with
  | Some inner => inner !! tx
  | None => None
  end.

(** What the inner loop does to one cell: a first count is stored, a
    later one added. *)
Definition add_count (o : option Z) (c : Z) : option Z :=
  Some (default 0 o + c).

Definition sum_counts (cs : list Z) : Z := foldr Z.add 0 cs.

(** The counts an entity list holds for the text [tx], in order. *)
Definition counts_in (tx : str) (es : list entity_info) : list Z :=
  List.map count (filter (fun e => entity e = tx) es).

(** The same over the items of one result, for the type [ty]. *)
Definition type_counts (ty tx : str) (items : list (str * list entity_info))
  : list Z :=
  flat_map (fun item => if decide (item.1 = ty)
                        then counts_in tx item.2 else []) items.

Definition items_of (new : formatted_entities)
  : list (str * list entity_info) :=
  default [] (entities_by_type new).

(** The count of entity [tx] of type [ty] in one chunk's result. *)
Definition chunk_count (ty tx : str) (new : formatted_entities) : Z :=
  sum_counts (type_counts ty tx (items_of new)).

(** The chunk's result lists entity [tx] under type [ty]. *)
Definition mentions (ty tx : str) (new : formatted_entities) : bool :=
  match type_counts ty tx (items_of new) with
  | [] => false
  | _ => true
  end.

Definition all_types (chunks : list formatted_entities) : list str :=
  flat_map (fun new => List.map fst (items_of new)) chunks.

Definition all_counts (ty tx : str) (chunks : list formatted_entities)
  : list Z :=
  flat_map (fun new => type_counts ty tx (items_of new)) chunks.

(** Two chunk results for the examples. *)
Definition sample_a : formatted_entities :=
  {| entities_by_type :=
       Some [ (py "PERSON", [ {| entity := py "Ann"; count := 2 |} ]);
              (py "ORG", []) ] |}.

Definition sample_b : formatted_entities :=
  {| entities_by_type :=
       Some [ (py "PERSON", [ {| entity := py "Bob"; count := 1 |};
                              {| entity := py "Ann"; count := 3 |} ]) ] |}.

End merge_defs.

Module pipeline_defs.

Import realtime_pipeline.

Abbreviation world := (Pipeline * list event)%type.

(** A fresh pipeline around a given buffer. *)
Definition pipeline_with (b : transcript_buffer.TranscriptBuffer) : Pipeline :=
  {| buffer := b; chunk_summaries := []; all_entities := ∅;
     complete_transcript := [] |}.

(** The dictionary [chunk_data] that [_process_chunk] builds. *)
Definition chunk_data_of (p : Pipeline) (chunk_text summary : str)
    (entities : formatted_entities) : chunk_data :=
  {| chunk_number := Z.of_nat (length (chunk_summaries p)) + 1;
     summary := summary;
     entities := entities;
     word_count := Z.of_nat (length (pystr.split chunk_text)) |}.

(** The pipeline after a chunk has been summarized and its entities
    merged: the append and the merge in the middle of [_process_chunk]. *)
Definition record_chunk (p : Pipeline) (chunk_text summary : str)
    (entities : formatted_entities) : Pipeline :=
  {| buffer := buffer p;
     chunk_summaries :=
       chunk_summaries p ++ [chunk_data_of p chunk_text summary entities];
     all_entities := _merge_entities (all_entities p) entities;
     complete_transcript := complete_transcript p |}.

(** [if chunk: await self._process_chunk(chunk)]. *)
Definition process_if (self : collaborators) (chunk : option str) : M unit :=
  match chunk with
  | Some c => if pystr.truthy c then _process_chunk self c else ret tt
  | None => ret tt
  end.

(** The exception [e] is one a collaborator raises on some input. *)
Definition raised_by (self : collaborators) (e : exn) : Prop :=
  (exists t m, generate_summary self t m = Raise e) \/
  (exists t, extract_and_format self t = Raise e) \/
  (exists f t d, on_chunk_summarized self = Some f /\ f t d = Raise e) \/
  (exists f x, on_entity_extracted self = Some f /\ f x = Raise e).

(** The chunk numbers are 1, 2, ..., in list order. *)
Definition numbered (p : Pipeline) : Prop :=
  List.map chunk_number (chunk_summaries p)
  = List.map Z.of_nat (seq 1 (length (chunk_summaries p))).

(** The states a pipeline object goes through: built around some buffer,
    then any calls of [process_text_async] and [reset]. An exception
    leaves the object as it was when raised. *)
Inductive reachable (self : collaborators) : world -> Prop :=
| reach_init (b : transcript_buffer.TranscriptBuffer) :
    reachable self (pipeline_with b, [])
| reach_process (w : world) (text : str) (is_final : bool) :
    reachable self w ->
    reachable self (process_text_async self text is_final w).1
| reach_reset (w : world) :
    reachable self w -> reachable self (reset w.1, w.2).

(** Collaborators that always answer: the summary of a text is the text,
    no entities, no callbacks. *)
Definition echo : collaborators :=
  {| generate_summary := fun t _ => Ok t;
     extract_and_format := fun _ => Ok {| entities_by_type := Some [] |};
     on_chunk_summarized := None;
     on_entity_extracted := None |}.

(** Collaborators whose summarization model is unavailable. *)
Definition unavailable : collaborators :=
  {| generate_summary := fun _ _ => Raise (PyExc "ModelUnavailableError");
     extract_and_format := fun _ => Ok {| entities_by_type := Some [] |};
     on_chunk_summarized := None;
     on_entity_extracted := None |}.

(** A settings object that has the two streaming attributes. *)
Definition streaming_settings (size ov : Z) : config.settings_obj :=
  config.Settings ""
  ++ [ ("streaming_buffer_size", config.VInt size);
       ("streaming_overlap", config.VInt ov) ]%string.

(** A pipeline whose buffer has capacity 2 and overlap 1. *)
Definition small_pipeline : Pipeline :=
  pipeline_with {| transcript_buffer.buffer_size := 2;
                   transcript_buffer.overlap := 1;
                   transcript_buffer.buffer := [];
                   transcript_buffer.total_words := 0;
                   transcript_buffer.chunks_generated := 0 |}.

(** [m] keeps the property [I] of the object. *)
Definition keeps {A} (I : Pipeline -> Prop) (m : M A) : Prop :=
  forall w, I w.1 -> I (m w).1.1.

(** [m] raises only what a collaborator raised. *)
Definition raises_only {A} (self : collaborators) (m : M A) : Prop :=
  forall w e, (m w).2 = Raise e -> raised_by self e.

Definition all_summaries (p : Pipeline) : str :=
  pystr.join (py " ") (List.map summary (chunk_summaries p)).

(** The part of [process_text_async] under [if is_final:]. *)
Definition finalize (self : collaborators) : M unit :=
  remaining <- buffer_get_remaining ;;
  process_if self remaining ;;;
  _ <- _generate_final_summary self ;;
  ret tt.

(** The object once the text is appended and the buffer fed. *)
Definition fed (p : Pipeline) (text : str) : Pipeline :=
  set_buffer (transcript_buffer.add_text (buffer p) text).1
    (set_complete_transcript (complete_transcript p ++ [text]) p).

(** A property of the object that neither a buffer update nor the
    recording of a chunk disturbs. *)
Definition stable (I : Pipeline -> Prop) : Prop :=
  (forall p b, I p -> I (set_buffer b p)) /\
  (forall p c s ents, I p -> I (record_chunk p c s ents)).

(** The summarizer or the entity extractor fails on the chunk [c]. *)
Definition fails_on (self : collaborators) (c : str) (e : exn) : Prop :=
  generate_summary self c None = Raise e \/
  ((exists s, generate_summary self c None = Ok s) /\
   extract_and_format self c = Raise e).

(** What a call with [is_final=True] does before it computes the
    consolidated summary. *)
Definition before_final (self : collaborators) (text : str) : M unit :=
  modify (fun p => set_complete_transcript (complete_transcript p ++ [text]) p) ;;;
  chunk <- buffer_add_text text ;;
  process_if self chunk ;;;
  remaining <- buffer_get_remaining ;;
  process_if self remaining.

(** Two sets of collaborators that behave alike on every chunk; they may
    differ in how they summarize with an explicit [max_length]. *)
Definition alike_on_chunks (self self' : collaborators) : Prop :=
  (forall t, generate_summary self t None = generate_summary self' t None) /\
  (forall t, extract_and_format self t = extract_and_format self' t) /\
  on_chunk_summarized self = on_chunk_summarized self' /\
  on_entity_extracted self = on_entity_extracted self'.

(** Like [echo], but the consolidated call answers with a fixed text. *)
Definition echo_fixed_final : collaborators :=
  {| generate_summary :=
       fun t m => match m with None => Ok t | Some _ => Ok (py "final") end;
     extract_and_format := extract_and_format echo;
     on_chunk_summarized := None;
     on_entity_extracted := None |}.

End pipeline_defs.

Module segmenter_defs.

Import segmenter.

(** A decimal digit. *)
Definition digit (c : N) : option Z :=
  if ((48 <=? c) && (c <=? 57))%N then Some (Z.of_N c - 48) else None.

(** The seconds since midnight of a two-digit [HH:MM]. *)
Definition read_hm (s : str) : option Z :=
  match s with
  | [a; b; 58%N; c; d] =>
      match digit a, digit b, digit c, digit d with
      | Some h1, Some h0, Some m1, Some m0 =>
          let h := 10 * h1 + h0 in
          let m := 10 * m1 + m0 in
          if (h <? 24) && (m <? 60) then Some (3600 * h + 60 * m) else None
      | _, _, _, _ => None
      end
  | _ => None
  end.

Definition two_digits (n : Z) : str :=
  [Z.to_N (48 + n / 10); Z.to_N (48 + n mod 10)].

(** A small [datetime] for the examples: the time of day in seconds, on
    a fixed day, read from two-digit [HH:MM] under the format [%H:%M]
    and from nothing else. *)
Definition hm_clock : DatetimeLib :=
  {| datetime := Z;
     strptime := fun s fmt =>
       if String.eqb fmt "%H:%M"
       then match read_hm s with
            | Some d => Ok d
            | None => Raise (PyExc "ValueError")
            end
       else Raise (PyExc "ValueError");
     combine_today := fun d => d;
     total_seconds := fun a b => a - b;
     isoformat := fun d =>
       py "2024-01-01T" ++ two_digits (d / 3600) ++ py ":"
       ++ two_digits (d / 60 mod 60) ++ py ":" ++ two_digits (d mod 60) |}.

(** A line feed. *)
Definition LF : str := [10%N].

Section with_datetime.

Context `{DatetimeLib}.

(** No timestamp of the segments parses: each one that is present and
    not empty makes [_parse_timestamp] raise [ValueError]. *)
Definition none_parses (segments : list TranscriptSegment) : Prop :=
  forall s ts, In s segments -> timestamp s = Some ts ->
               pystr.truthy ts = true ->
               _parse_timestamp ts = Raise (PyExc "ValueError").

End with_datetime.

End segmenter_defs.

Module buffer_stream_defs.

Import transcript_buffer.

(** A word as [str.split()] produces it: not empty, no whitespace. *)
Definition word (w : str) : Prop :=
  w <> [] /\ forallb (fun c => negb (pystr.isspace c)) w = true.

(** A buffer as the constructor leaves it. *)
Definition fresh (capacity ov : Z) : TranscriptBuffer :=
  {| buffer_size := capacity; overlap := ov; buffer := [];
     total_words := 0; chunks_generated := 0 |}.

(** All words of the texts fed so far, in order. *)
Definition all_words (texts : list str) : list str :=
  concat (List.map pystr.split texts).

(** The chunks among the values a run of [add_text] calls returned. *)
Definition emitted (rs : list (option str)) : list str := omap id rs.

(** The number of words an emission removes, and the capacity, as
    counts. *)
Definition stride (self : TranscriptBuffer) : nat :=
  Z.to_nat (buffer_size self - overlap self).

Definition capacity (self : TranscriptBuffer) : nat :=
  Z.to_nat (buffer_size self).

(** The [i]-th window of the stream [W]: [capacity] words from position
    [i * stride]. *)
Definition window (self : TranscriptBuffer) (i : nat) (W : list str)
  : list str :=
  take (capacity self) (drop (i * stride self) W).

(** The buffer holds the stream [W] from position [k * stride] on, after
    [k] emissions. *)
Definition tracks (self : TranscriptBuffer) (W : list str) (k : nat) : Prop :=
  buffer self = drop (k * stride self) W /\
  (k * stride self <= length W)%nat /\
  total_words self = Z.of_nat (length W) /\
  chunks_generated self = Z.of_nat k.

End buffer_stream_defs.

Module pipeline_run_defs.

Import realtime_pipeline.
Import pipeline_defs.

(** The calls [process_text_async(text, is_final)] for the pairs of
    [calls], in order; a call that raises leaves the object as it was
    when it raised, and the next call goes on from there. *)
Definition run_calls (self : collaborators) (calls : list (str * bool))
    (w : world) : world :=
  foldl (fun w call => (process_text_async self call.1 call.2 w).1) w calls.

(** The table obtained by merging the entities of the recorded chunks,
    in order, into an empty one. *)
Definition merged_from (chunks : list chunk_data) : gmap str (gmap str Z) :=
  foldl _merge_entities ∅ (List.map entities chunks).

(** The buffer's capacity and overlap are [c] and [o]. *)
Definition configured (c o : Z) (p : Pipeline) : Prop :=
  transcript_buffer.buffer_size (buffer p) = c /\
  transcript_buffer.overlap (buffer p) = o.

End pipeline_run_defs.

Module re_defs.

Import re.

(** The strings a pattern can consume at the front of an input. A
    lookahead and [\Z] consume nothing; what they require of the rest of
    the input is not recorded here. *)
Fixpoint lang (r : regex) (s : str) : Prop :=
  match r with
  | Empty => s = []
  | Chr p => exists a, s = [a] /\ p a = true
  | Seq r1 r2 => exists s1 s2, s = s1 ++ s2 /\ lang r1 s1 /\ lang r2 s2
  | Alt r1 r2 => lang r1 s \/ lang r2 s
  | Opt r1 => s = [] \/ lang r1 s
  | Star _ p => forallb p s = true
  | Group _ r1 => lang r1 s
  | Lookahead _ => s = []
  | EndZ => s = []
  end.

(** [v] can be the text of group [i] of the pattern. *)
Fixpoint group_lang (r : regex) (i : nat) (v : str) : Prop :=
  match r with
  | Group j r1 => (i = j /\ lang r1 v) \/ group_lang r1 i v
  | Seq r1 r2 | Alt r1 r2 => group_lang r1 i v \/ group_lang r2 i v
  | Opt r1 | Lookahead r1 => group_lang r1 i v
  | _ => False
  end.

(** The groups that take part in every match of the pattern. *)
Fixpoint sure_groups (r : regex) : list nat :=
  match r with
  | Group j r1 => j :: sure_groups r1
  | Seq r1 r2 => sure_groups r1 ++ sure_groups r2
  | Lookahead r1 => sure_groups r1
  | _ => []
  end.

(** The groups [added] by a match of [r]: each holds a text its group
    can have, and every sure group is among them. *)
Definition groups_ok (r : regex) (added : captures) : Prop :=
  Forall (fun iv => group_lang r iv.1 iv.2) added /\
  forall i, In i (sure_groups r) -> is_Some (group added i).

End re_defs.

Module segmenter_more_defs.

Import segmenter.

(** The segments of one element of the result; the record
    [{"window": "full", ...}] has none. *)
Definition window_segments (w : time_window) : list segment_dict :=
  match w with
  | Full _ => []
  | Window _ segs => segs
  end.

(** All segments of a result, window after window. *)
Definition flat (ws : list time_window) : list segment_dict :=
  concat (List.map window_segments ws).

(** A window proper: it has a start and at least one segment. *)
Definition proper (w : time_window) : Prop :=
  exists start segs, w = Window start segs /\ segs <> [].

(** The ISO format, the last one [_parse_timestamp] tries. *)
Definition iso_format : string := "%Y-%m-%dT%H:%M:%S".

(** The speaker of a segment begins with a capital letter [A-Z] and
    consists of letters, whitespace and periods. *)
Definition speaker_shaped (s : str) : Prop :=
  (exists a rest, s = a :: rest /\ upper a = true) /\
  forallb name_char s = true.

Section with_datetime.

Context `{DatetimeLib}.

(** [strptime] fails with [ValueError] and nothing else. *)
Definition only_value_errors : Prop :=
  forall s fmt e, strptime s fmt = Raise e -> e = PyExc "ValueError".

End with_datetime.

End segmenter_more_defs.

Module ner_defs.

Import spacy_ner.

(** The number of entities of [doc_ents] with the given label and
    text. *)
Definition mentions_of (label txt : str) (doc_ents : list ent) : nat :=
  length (filter (fun e => label_ e = label /\ text e = txt) doc_ents).

(** What the pipeline reads of one entry. *)
Definition read_entry (e : entity_entry) : realtime_pipeline.entity_info :=
  {| realtime_pipeline.entity := entity e;
     realtime_pipeline.count := count e |}.

(** What the pipeline reads of the dictionary [extract_and_format]
    returns: the key ["entities_by_type"], and of each entry the keys
    ["entity"] and ["count"]. *)
Definition as_pipeline_input (f : unified_ner.formatted)
  : realtime_pipeline.formatted_entities :=
  {| realtime_pipeline.entities_by_type :=
       Some (List.map
               (fun item => (item.1, List.map read_entry item.2))
               (unified_ner.entities_by_type f)) |}.

(** The counts are in non-increasing order. *)
Fixpoint descending (l : list Z) : Prop :=
  match l with
  | [] => True
  | x :: rest => Forall (fun y => y <= x) rest /\ descending rest
  end.

(** The counts listed under the key [tx], summed. *)
Definition sum_for (tx : str) (c : list (str * Z)) : Z :=
  foldr Z.add 0 (List.map snd (filter (fun kn => kn.1 = tx) c)).

(** The entities with text [tx] in the groups of label [ty]. *)
Definition grouped (ty tx : str) (g : list (str * list ent)) : nat :=
  foldr Nat.add 0%nat
    (List.map (fun item =>
                 if decide (item.1 = ty)
                 then length (filter (fun e => text e = tx) item.2)
                 else 0%nat) g).

(** Two entities found in a text, one of them twice. *)
Definition sample_ents : list ent :=
  [ {| text := py "Ann"; label_ := py "PERSON"; start_char := 0; end_char := 3 |};
    {| text := py "Acme"; label_ := py "ORG"; start_char := 10; end_char := 14 |};
    {| text := py "Ann"; label_ := py "PERSON"; start_char := 20; end_char := 23 |} ].

End ner_defs.

Module teams_defs.

Import teams.

Section with_iso.

Context `{IsoLib}.

(** [fromisoformat] fails with [ValueError] and nothing else. *)
Definition iso_only_value_errors : Prop :=
  forall s e, fromisoformat s = Raise e -> e = PyExc "ValueError".

End with_iso.

(** An ISO parser for the examples that accepts nothing. *)
Definition no_iso : IsoLib :=
  {| iso_datetime := unit;
     fromisoformat := fun _ => Raise (PyExc "ValueError");
     strftime := fun _ _ => [] |}.

End teams_defs.

Module session_defs.

Import realtime_pipeline.
Import pipeline_defs.

(** The collaborators always answer: the summarizer gives [summ c] for a
    chunk [c], the entity extractor [ents c], and a callback that is set
    returns. *)
Definition answers (self : collaborators) (summ : str -> str)
    (ents : str -> formatted_entities) : Prop :=
  (forall c, generate_summary self c None = Ok (summ c)) /\
  (forall c, extract_and_format self c = Ok (ents c)) /\
  (forall f, on_chunk_summarized self = Some f -> forall t d, f t d = Ok tt) /\
  (forall f, on_entity_extracted self = Some f -> forall x, f x = Ok tt).

(** The summarizer also answers when asked for the consolidated
    summary. *)
Definition answers_final (self : collaborators) (fin : str -> str) : Prop :=
  forall c, generate_summary self c (Some 300) = Ok (fin c).

(** The chunk result recorded for the chunk [c] when [n] results are
    there already. *)
Definition result_for (summ : str -> str) (ents : str -> formatted_entities)
    (n : nat) (c : str) : chunk_data :=
  {| chunk_number := Z.of_nat n + 1;
     summary := summ c;
     entities := ents c;
     word_count := Z.of_nat (length (pystr.split c)) |}.

(** The chunk results after recording the chunks in order. *)
Definition results_after (summ : str -> str)
    (ents : str -> formatted_entities) (recorded : list chunk_data)
    (chunks : list str) : list chunk_data :=
  foldl (fun cs c => cs ++ [result_for summ ents (length cs) c])
        recorded chunks.

(** Calls that are not final, one per text. *)
Definition feeding (texts : list str) : list (str * bool) :=
  List.map (fun t => (t, false)) texts.

(** A session: calls that are not final, then the final one. *)
Definition session (texts : list str) (last : str) : list (str * bool) :=
  feeding texts ++ [(last, true)].

(** The chunks the summarizer was asked to summarize as chunks (without
    a [max_length]), in the order of the calls. *)
Definition summarized (tr : list event) : list str :=
  omap (fun ev => match ev with
                  | CallSummarize c None => Some c
                  | _ => None
                  end) tr.

(** What [get_remaining] hands out for the words [rest] left in the
    buffer: nothing if there are none, else one chunk. *)
Definition remainder_chunk (rest : list str) : list str :=
  match rest with
  | [] => []
  | _ => [pystr.join (py " ") rest]
  end.

(** The chunks of a session that feeds [texts] to the buffer [b] and
    then flushes it: the emitted ones, then the remainder, which is the
    stream of words from the start of the next window on. *)
Definition session_chunks (b : transcript_buffer.TranscriptBuffer)
    (texts : list str) : list str :=
  let chunks := buffer_stream_defs.emitted
                  (transcript_buffer.add_texts b texts).2 in
  chunks
  ++ remainder_chunk
       (drop (length chunks * buffer_stream_defs.stride b)
             (buffer_stream_defs.all_words texts)).

End session_defs.

Module transcript_defs.

(** A line of a transcript: the time shown in brackets, if any, the
    speaker and what was said. *)
Record entry := {
  shown : option str;
  who : str;
  said : str
}.

(** [f"[{formatted_time}] {speaker}: {text}"] and
    [f"{speaker}: {text}"]. *)
Definition line (e : entry) : str :=
  match shown e with
  | Some t => py "[" ++ t ++ py "] " ++ who e ++ py ": " ++ said e
  | None => who e ++ py ": " ++ said e
  end.

(** Lines are separated by a newline, or by a blank line as
    [parse_teams_format] does. *)
Definition separator (blank : bool) : str :=
  if blank then [10; 10]%N else [10]%N.

Definition transcript (blank : bool) (es : list entry) : str :=
  pystr.join (separator blank) (List.map line es).

(** A speaker name: a capital [A-Z], then at least one more letter,
    whitespace or period, and no whitespace at the end. *)
Definition name (sp : str) : Prop :=
  exists a rest,
    sp = a :: rest /\ segmenter.upper a = true /\ rest <> [] /\
    forallb segmenter.name_char rest = true /\ pystr.strip sp = sp.

(** What was said: not empty, on one line, no whitespace around it. *)
Definition plain (t : str) : Prop :=
  t <> [] /\ forallb (fun c => negb (c =? 10)%N) t = true /\
  pystr.strip t = t.

(** A time that can stand in brackets: it has no closing bracket. *)
Definition bracketed (t : str) : Prop :=
  forallb (fun c => negb (c =? 93)%N) t = true.

Definition readable (e : entry) : Prop :=
  name (who e) /\ plain (said e) /\
  match shown e with Some t => bracketed t | None => True end.

(** The segment expected for the line with number [i]. *)
Definition segment_of (i : nat) (e : entry) : segmenter.TranscriptSegment :=
  {| segmenter.speaker := who e;
     segmenter.text := said e;
     segmenter.timestamp := shown e;
     segmenter.start_line := Some (Z.of_nat i) |}.

(** The parts of the speaker pattern: what is looked for after the
    text, the pattern from the colon on, and the optional time. *)
Definition ahead : re.regex :=
  re.Alt (re.cat [ re.Chr (segmenter.is_char 10);
                   re.Chr (segmenter.is_char 91) ])
    (re.Alt (re.cat [ re.Chr (segmenter.is_char 10);
                      re.Chr segmenter.upper;
                      re.Plus true segmenter.name_char;
                      re.Chr (segmenter.is_char 58) ])
            re.EndZ).

Definition from_colon : re.regex :=
  re.cat [ re.Chr (segmenter.is_char 58);
           re.Star false pystr.isspace;
           re.Group 3 (re.Plus true segmenter.any_char);
           re.Lookahead ahead ].

Definition speaker_group : re.regex :=
  re.Group 2 (re.cat [ re.Chr segmenter.upper;
                       re.Plus true segmenter.name_char ]).

Definition time_part : re.regex :=
  re.cat [ re.Chr (segmenter.is_char 91);
           re.Group 1 (re.Star true segmenter.any_char);
           re.Chr (segmenter.is_char 93);
           re.Plus false pystr.isspace ].

(** The end of a match: the end of the text, or a newline before the
    next line. *)
Definition line_start (r : str) : Prop :=
  (exists r', r = 91%N :: r') \/
  (exists sp r', name sp /\ r = sp ++ 58%N :: r').

Definition match_end (after : str) : Prop :=
  after = [] \/ exists r, after = 10%N :: r /\ line_start r.

(** The groups of the match of a line whose third group is [g3]. *)
Definition groups_of (e : entry) (g3 : str) : re.captures :=
  (3%nat, g3) :: (2%nat, who e)
  :: match shown e with Some t => [(1%nat, t)] | None => [] end.

Section with_iso.

Context `{IsoLib}.

(** The time [parse_teams_format] shows for a message: none without a
    timestamp, the formatted time if the timestamp is ISO, else the
    timestamp itself. *)
Definition shown_time (m : teams.message) : option str :=
  let timestamp := default [] (teams.timestamp m) in
  if pystr.truthy timestamp
  then match fromisoformat (teams.replace_Z timestamp) with
       | Ok dt => Some (strftime dt "%I:%M %p")
       | Raise _ => Some timestamp
       end
  else None.

Definition entry_of (m : teams.message) : entry :=
  {| shown := shown_time m;
     who := default (py "Unknown") (teams.speaker m);
     said := default [] (teams.text m) |}.

End with_iso.

End transcript_defs.


Module summary_defs.

Import spacy_ner.

(** The distinct elements of a list, in the order in which they first
    appear: the keys of a dictionary filled in that order. *)
Definition add_new (seen : list str) (x : str) : list str :=
  if decide (x ∈ seen) then seen else seen ++ [x].

Definition first_seen (l : list str) : list str := foldl add_new [] l.

(** The entities with a given label, in the order of the text. *)
Definition with_label (ty : str) (doc_ents : list ent) : list ent :=
  filter (fun e => label_ e = ty) doc_ents.

(** The number of distinct entity texts with a given label. *)
Definition distinct_texts (ty : str) (doc_ents : list ent) : Z :=
  Z.of_nat (length (first_seen (List.map text (with_label ty doc_ents)))).

End summary_defs.


Module pipeline_init_defs.


End pipeline_init_defs.


(* ===================================================================== *)
(** * Properties *)
(* ===================================================================== *)

(** ** Strings *)

Module pystr_facts.

Import pystr.

Lemma slice_to_take {A} (n : Z) (l : list A) :
  0 <= n -> slice_to n l = take (Z.to_nat n) l.
Proof.
  intros Hn. unfold slice_to.
  destruct (0 <=? n) eqn:E; [reflexivity | lia].
Qed.

(** Every word of [split] is free of whitespace, and a word that was
    begun is not lost. *)
Lemma split_from_words (cur s : str) :
  forallb (fun c => negb (isspace c)) cur = true ->
  Forall (fun w => w <> [] /\ forallb (fun c => negb (isspace c)) w = true)
         (split_from cur s).
Proof.
  revert cur. induction s as [|c s IH]; intros cur Hcur; simpl.
  - destruct cur as [|a cur]; constructor; [|constructor].
    split.
    + intros Hnil. apply (f_equal (@length N)) in Hnil.
      rewrite length_rev in Hnil. discriminate.
    + rewrite forallb_forall in *. intros x Hx. apply Hcur.
      apply in_rev in Hx. exact Hx.
  - destruct (isspace c) eqn:Hc.
    + destruct cur as [|a cur]; [apply IH; reflexivity|].
      constructor; [|apply IH; reflexivity].
      split.
      * intros Hnil. apply (f_equal (@length N)) in Hnil.
        rewrite length_rev in Hnil. discriminate.
      * rewrite forallb_forall in *. intros x Hx. apply Hcur.
        apply in_rev in Hx. exact Hx.
    + apply IH. simpl. rewrite Hc. exact Hcur.
Qed.

Lemma split_words (s : str) :
  Forall (fun w => w <> [] /\ forallb (fun c => negb (isspace c)) w = true)
         (split s).
Proof. apply split_from_words. reflexivity. Qed.

(** Joining one string gives it back unchanged. *)
Lemma join_singleton (sep p : str) : join sep [p] = p.
Proof. reflexivity. Qed.

(** A join of non-empty words, at least one of them, is not empty. *)
Lemma join_truthy (sep : str) (ws : list str) :
  ws <> [] -> Forall (fun w => w <> []) ws -> truthy (join sep ws) = true.
Proof.
  intros Hne Hall. destruct ws as [|w ws]; [congruence|].
  inversion Hall as [|? ? Hw _]; subst.
  destruct w as [|a w]; [congruence|].
  destruct ws; reflexivity.
Qed.

End pystr_facts.

(** ** Regular expressions *)

Module re_facts.

Import re.

(** The search ends within its budget of steps: any larger budget gives
    the same matches. *)
Lemma finditer_from_enough (r : regex) (n m : nat) (s : str) :
  (length s < n)%nat -> (length s < m)%nat ->
  finditer_from n r s = finditer_from m r s.
Proof.
  revert m s. induction n as [|n IH]; intros m s Hn Hm; [lia|].
  destruct m as [|m]; [lia|]. simpl.
  assert (Hskip : match s with [] => [] | _ :: s' => finditer_from n r s' end
                  = match s with [] => [] | _ :: s' => finditer_from m r s' end).
  { destruct s as [|a s']; [reflexivity|]. simpl in *. apply IH; lia. }
  destruct (match_at r s) as [[rest c]|]; [|exact Hskip].
  destruct (length rest <? length s)%nat eqn:E.
  - apply Nat.ltb_lt in E. f_equal. apply IH; lia.
  - f_equal. exact Hskip.
Qed.

Lemma finditer_enough (r : regex) (n : nat) (s : str) :
  (length s < n)%nat -> finditer_from n r s = finditer r s.
Proof. intros Hn. apply finditer_from_enough; [exact Hn | lia]. Qed.

End re_facts.

(** ** The transcript buffer *)

Module transcript_buffer_spec.

Import transcript_buffer.
Import buffer_defs.

Lemma popleft_loop_nil (n : nat) : popleft_loop n [] = [].
Proof. induction n; simpl; auto. Qed.

(** The removal loop drops [n] words from the front, or all of them. *)
Lemma popleft_loop_drop (n : nat) (buf : list str) :
  popleft_loop n buf = drop n buf.
Proof.
  revert buf. induction n as [|n IH]; intros buf; simpl.
  - reflexivity.
  - destruct buf; [apply popleft_loop_nil | apply IH].
Qed.

(** What [add_text] does when the buffer has not filled up. *)
Lemma add_text_below (self : TranscriptBuffer) (text : str) :
  Z.of_nat (length (buffer self ++ pystr.split text)) < buffer_size self ->
  add_text self text =
    ({| buffer_size := buffer_size self; overlap := overlap self;
        buffer := buffer self ++ pystr.split text;
        total_words := total_words self
                       + Z.of_nat (length (pystr.split text));
        chunks_generated := chunks_generated self |}, None).
Proof.
  intros Hlt. unfold add_text. simpl.
  destruct (buffer_size self <=? _) eqn:E; [lia | reflexivity].
Qed.

(** What [add_text] does when the buffer has filled up. *)
Lemma add_text_full (self : TranscriptBuffer) (text : str) :
  0 <= buffer_size self <= Z.of_nat (length (buffer self ++ pystr.split text)) ->
  add_text self text =
    ({| buffer_size := buffer_size self; overlap := overlap self;
        buffer := drop (Z.to_nat (buffer_size self - overlap self))
                       (buffer self ++ pystr.split text);
        total_words := total_words self
                       + Z.of_nat (length (pystr.split text));
        chunks_generated := chunks_generated self + 1 |},
     Some (pystr.join (py " ")
             (take (Z.to_nat (buffer_size self))
                   (buffer self ++ pystr.split text)))).
Proof.
  intros [H0 Hge]. unfold add_text. simpl.
  destruct (buffer_size self <=? _) eqn:E; [|lia].
  unfold _extract_chunk. simpl.
  rewrite popleft_loop_drop, pystr_facts.slice_to_take by lia.
  reflexivity.
Qed.

(** C3. With [0 <= overlap < capacity], [add_text(text)] appends the
    words of [text.split()] to the pending words and adds their number
    to [total_words]. If the pending words then number at least
    [capacity], it returns one chunk, the first [capacity] pending
    words joined by single spaces, removes [capacity - overlap] words
    from the front and adds one to [chunks_generated]; all further
    words stay pending, however many they are. Otherwise it returns
    [None] and emits nothing. *)
Theorem add_text_spec (self : TranscriptBuffer) (text : str) :
  0 <= overlap self < buffer_size self ->
  let words := pystr.split text in
  let pending := buffer self ++ words in
  let capacity := Z.to_nat (buffer_size self) in
  let removed := Z.to_nat (buffer_size self - overlap self) in
  let self' := (add_text self text).1 in
  buffer_size self' = buffer_size self /\
  overlap self' = overlap self /\
  total_words self' = total_words self + Z.of_nat (length words) /\
  if decide (buffer_size self <= Z.of_nat (length pending))
  then
    (add_text self text).2
      = Some (pystr.join (py " ") (take capacity pending)) /\
    length (take capacity pending) = capacity /\
    buffer self' = drop removed pending /\
    (length (buffer self') + removed = length pending)%nat /\
    chunks_generated self' = chunks_generated self + 1
  else
    (add_text self text).2 = None /\
    buffer self' = pending /\
    chunks_generated self' = chunks_generated self.
Proof.
  intros Hcfg words pending capacity removed self'.
  subst self'. case_decide as Hfull.
  - rewrite add_text_full by (fold words; fold pending; lia). simpl.
    fold words pending capacity removed.
    repeat split; try reflexivity.
    + rewrite length_take. subst capacity. lia.
    + rewrite length_drop. subst removed. lia.
  - rewrite add_text_below by (fold words; fold pending; lia). simpl.
    repeat split; reflexivity.
Qed.

Lemma add_text_spec_witness :
  (add_text {| buffer_size := 3; overlap := 1; buffer := [py "a"];
               total_words := 1; chunks_generated := 0 |}
            (py "b c d e")).2 = Some (py "a b c").
Proof.
  pose proof (add_text_spec
    {| buffer_size := 3; overlap := 1; buffer := [py "a"];
       total_words := 1; chunks_generated := 0 |}
    (py "b c d e") ltac:(simpl; lia)) as H.
  cbv zeta in H. destruct H as (_ & _ & _ & H).
  destruct (decide _) as [_|Hd] in H;
    [|exfalso; apply Hd; vm_compute; discriminate].
  destruct H as [H _]. exact H.
Defined.

(** C1, the counterexample. Capacity 10, overlap 2, an empty buffer
    and one call with 23 words: the call emits the chunk of the first
    ten words and leaves 15 words pending, not fewer than 10. *)
Lemma burst_leaves_buffer_full :
  let self := {| buffer_size := 10; overlap := 2; buffer := [];
                 total_words := 0; chunks_generated := 0 |} in
  let r := add_text self
    (py "w1 w2 w3 w4 w5 w6 w7 w8 w9 w10 w11 w12 w13 w14 w15 w16 w17 w18 w19 w20 w21 w22 w23") in
  0 <= overlap self < buffer_size self /\
  r.2 = Some (py "w1 w2 w3 w4 w5 w6 w7 w8 w9 w10") /\
  buffer r.1 = List.map py ["w9"; "w10"; "w11"; "w12"; "w13"; "w14"; "w15";
                            "w16"; "w17"; "w18"; "w19"; "w20"; "w21";
                            "w22"; "w23"]%string /\
  ~ (Z.of_nat (length (buffer r.1)) < buffer_size r.1).
Proof.
  cbv zeta. split; [simpl; lia|].
  split; [vm_compute; reflexivity|].
  split; [vm_compute; reflexivity|].
  vm_compute. discriminate.
Qed.

(** C1, amended. With [0 <= overlap < capacity], right after a call of
    [add_text] that emits a chunk, the number of pending words is the
    number pending before the call plus the number of words added,
    minus [capacity - overlap]. It is less than the capacity exactly
    when pending and added words together were fewer than
    [2 * capacity - overlap]. *)
Theorem emission_occupancy (self : TranscriptBuffer) (text chunk : str) :
  0 <= overlap self < buffer_size self ->
  (add_text self text).2 = Some chunk ->
  let before := Z.of_nat (length (buffer self)) in
  let added := Z.of_nat (length (pystr.split text)) in
  let after := Z.of_nat (length (buffer (add_text self text).1)) in
  after = before + added - (buffer_size self - overlap self) /\
  (after < buffer_size self <->
   before + added < 2 * buffer_size self - overlap self).
Proof.
  intros Hcfg Hemit. cbv zeta.
  destruct (Z_lt_le_dec
              (Z.of_nat (length (buffer self ++ pystr.split text)))
              (buffer_size self)) as [Hlt|Hge].
  - rewrite add_text_below in Hemit by exact Hlt. discriminate.
  - rewrite add_text_full by lia. simpl.
    rewrite length_drop. rewrite length_app in *. lia.
Qed.

Lemma emission_occupancy_witness :
  Z.of_nat (length (buffer (add_text
    {| buffer_size := 3; overlap := 1; buffer := [py "a"];
       total_words := 1; chunks_generated := 0 |} (py "b c")).1)) < 3.
Proof.
  apply (emission_occupancy
    {| buffer_size := 3; overlap := 1; buffer := [py "a"];
       total_words := 1; chunks_generated := 0 |}
    (py "b c") (py "a b c")).
  - simpl. lia.
  - vm_compute. reflexivity.
  - vm_compute. reflexivity.
Defined.

(** If no call adds more than [capacity - overlap] words to a buffer
    that is below capacity, the buffer is below capacity after every
    call. *)
Lemma small_steps_stay_below (texts : list str) (self : TranscriptBuffer) :
  0 <= overlap self < buffer_size self ->
  Z.of_nat (length (buffer self)) < buffer_size self ->
  Forall (fun t => Z.of_nat (length (pystr.split t))
                   <= buffer_size self - overlap self) texts ->
  Z.of_nat (length (buffer (add_texts self texts).1)) < buffer_size self.
Proof.
  revert self. induction texts as [|t texts IH]; intros self Hcfg Hlt Hall.
  - exact Hlt.
  - inversion Hall as [|? ? Ht Hrest]; subst. simpl.
    destruct (add_text self t) as [self1 r] eqn:E1.
    destruct (add_texts self1 texts) as [self2 rs] eqn:E2. simpl.
    assert (H1 : buffer_size self1 = buffer_size self /\
                 overlap self1 = overlap self /\
                 Z.of_nat (length (buffer self1)) < buffer_size self).
    { destruct (Z_lt_le_dec
                  (Z.of_nat (length (buffer self ++ pystr.split t)))
                  (buffer_size self)) as [Hb|Hb].
      - rewrite add_text_below in E1 by exact Hb.
        injection E1 as <- _. simpl. auto.
      - rewrite add_text_full in E1 by lia.
        injection E1 as <- _. simpl.
        rewrite length_drop. rewrite length_app in *. lia. }
    destruct H1 as (Hsz & Hov & Hlt1).
    specialize (IH self1). rewrite E2 in IH. simpl in IH.
    rewrite <- Hsz. apply IH.
    + rewrite Hsz, Hov. exact Hcfg.
    + rewrite Hsz. exact Hlt1.
    + rewrite Hsz, Hov. exact Hrest.
Qed.

(** *** Construction *)

Lemma assoc_not_declared (name : string) (st : config.settings_obj) :
  ~ In name (List.map fst st) -> config.assoc name st = None.
Proof.
  induction st as [|[k v] st IH]; simpl; intros Hnot; [reflexivity|].
  destruct (String.eqb k name) eqn:E.
  - apply String.eqb_eq in E. tauto.
  - apply IH. tauto.
Qed.

Lemma streaming_fields_not_declared :
  ~ In "streaming_buffer_size"%string config.Settings_fields /\
  ~ In "streaming_overlap"%string config.Settings_fields.
Proof.
  split; intros Hin; vm_compute in Hin;
    repeat (destruct Hin as [Hin|Hin]; [discriminate Hin|]); exact Hin.
Qed.

(** On an instance of [Settings], reading either streaming attribute
    raises [AttributeError]. *)
Lemma setting_int_streaming (settings : config.settings_obj) :
  config.is_Settings settings ->
  setting_int settings "streaming_buffer_size" = Raise (PyExc "AttributeError") /\
  setting_int settings "streaming_overlap" = Raise (PyExc "AttributeError").
Proof.
  intros Hs. unfold setting_int, config.getattr.
  destruct streaming_fields_not_declared as [H1 H2].
  rewrite !assoc_not_declared by (rewrite Hs; assumption).
  split; reflexivity.
Qed.

Lemma or_setting_raises (arg : option Z) (settings : config.settings_obj)
    (name : string) (e : exn) :
  or_setting arg settings name = Raise e ->
  e = PyExc "AttributeError" \/ e = PyExc "TypeError".
Proof.
  assert (Hs : setting_int settings name = Raise e ->
               e = PyExc "AttributeError" \/ e = PyExc "TypeError").
  { unfold setting_int, config.getattr.
    destruct (config.assoc name settings) as [v|].
    - destruct v; simpl; intros [= <-]; auto.
    - intros [= <-]; auto. }
  unfold or_setting. destruct arg as [z|]; [|exact Hs].
  destruct (z =? 0); [exact Hs | discriminate].
Qed.

(** C2, the counterexample. [TranscriptBuffer(5, 10)], overlap above
    capacity, is built without any error, also with the settings the
    repository ships. *)
Lemma overlap_above_capacity_accepted :
  10 >= 5 /\
  __init__ (config.Settings "") (Some 5) (Some 10)
    = Ok {| buffer_size := 5; overlap := 10; buffer := [];
            total_words := 0; chunks_generated := 0 |}.
Proof. split; [lia | reflexivity]. Qed.

(** C2, amended. For every pair of integers capacity and overlap, both
    different from 0, constructing a [TranscriptBuffer] with them
    succeeds and stores them as given, whether or not
    [overlap < capacity] holds; the constructor compares the two
    nowhere, and no construction fails with [ConfigError]. *)
Theorem construction_unchecked (settings : config.settings_obj)
    (capacity ov : Z) :
  capacity <> 0 -> ov <> 0 ->
  __init__ settings (Some capacity) (Some ov)
    = Ok {| buffer_size := capacity; overlap := ov; buffer := [];
            total_words := 0; chunks_generated := 0 |}
  /\ forall (b o : option Z) (e : exn),
       __init__ settings b o = Raise e -> e <> PyExc "ConfigError".
Proof.
  intros Hc Ho. split.
  - unfold __init__, or_setting.
    destruct (capacity =? 0) eqn:E1; [lia|].
    destruct (ov =? 0) eqn:E2; [lia|]. reflexivity.
  - intros b o e. unfold __init__.
    destruct (or_setting b settings _) as [size|e1] eqn:E1.
    + destruct (or_setting o settings _) as [ov'|e2] eqn:E2; [discriminate|].
      intros [= <-]. apply or_setting_raises in E2.
      destruct E2 as [-> | ->]; discriminate.
    + intros [= <-]. apply or_setting_raises in E1.
      destruct E1 as [-> | ->]; discriminate.
Qed.

Lemma construction_unchecked_witness :
  __init__ (config.Settings "") (Some 10) (Some 12)
    = Ok {| buffer_size := 10; overlap := 12; buffer := [];
            total_words := 0; chunks_generated := 0 |}.
Proof.
  apply (construction_unchecked (config.Settings "") 10 12); lia.
Defined.

(** C10. In [TranscriptBuffer(buffer_size=b, overlap=o)] an argument
    that is [0] or [None] is dropped in favour of the settings
    attribute [streaming_buffer_size] or [streaming_overlap]; passing
    [0] is the same as passing nothing, so no call passes an overlap
    of 0 through. [Settings] declares neither attribute, and on an
    instance of it every construction with such an argument raises
    [AttributeError] and yields no buffer. *)
Theorem falsy_argument_falls_back (settings : config.settings_obj)
    (b o : option Z) :
  (falsy b -> or_setting b settings "streaming_buffer_size"
              = setting_int settings "streaming_buffer_size") /\
  (falsy o -> or_setting o settings "streaming_overlap"
              = setting_int settings "streaming_overlap") /\
  __init__ settings b (Some 0) = __init__ settings b None /\
  __init__ settings (Some 0) o = __init__ settings None o /\
  (forall self, __init__ settings b (Some 0) = Ok self ->
                setting_int settings "streaming_overlap" = Ok (overlap self)) /\
  ~ In "streaming_buffer_size"%string config.Settings_fields /\
  ~ In "streaming_overlap"%string config.Settings_fields /\
  (config.is_Settings settings -> falsy b \/ falsy o ->
   __init__ settings b o = Raise (PyExc "AttributeError")).
Proof.
  split; [intros [-> | ->]; reflexivity|].
  split; [intros [-> | ->]; reflexivity|].
  split; [reflexivity|]. split; [reflexivity|].
  split.
  { intros self. unfold __init__.
    destruct (or_setting b settings _); [|discriminate].
    unfold or_setting at 1. simpl.
    destruct (setting_int settings "streaming_overlap"); [|discriminate].
    intros [= <-]. reflexivity. }
  destruct streaming_fields_not_declared as [H1 H2].
  split; [exact H1|]. split; [exact H2|].
  intros Hs Hfalsy.
  destruct (setting_int_streaming settings Hs) as [Hb Ho].
  unfold __init__.
  destruct Hfalsy as [[-> | ->] | Hfo]; simpl; rewrite ?Hb; try reflexivity.
  destruct (or_setting b settings _) as [size|e] eqn:E.
  - destruct Hfo as [-> | ->]; simpl; rewrite Ho; reflexivity.
  - unfold or_setting in E.
    destruct b as [z|]; [destruct (z =? 0)|]; rewrite ?Hb in E;
      congruence.
Qed.

Lemma falsy_argument_falls_back_witness :
  __init__ (config.Settings "") (Some 10) (Some 0)
    = Raise (PyExc "AttributeError").
Proof.
  apply (falsy_argument_falls_back (config.Settings "") (Some 10) (Some 0)).
  - reflexivity.
  - right. right. reflexivity.
Defined.

End transcript_buffer_spec.

(** ** Merging entity results *)

Module merge_spec.

Import realtime_pipeline.
Import merge_defs.

Lemma table_ext (m1 m2 : table) :
  (forall ty, is_Some (m1 !! ty) <-> is_Some (m2 !! ty)) ->
  (forall ty tx, lookup2 m1 ty tx = lookup2 m2 ty tx) ->
  m1 = m2.
Proof.
  intros Hdom Hcell. apply map_eq. intros ty.
  specialize (Hdom ty). pose proof (Hcell ty) as Hty.
  unfold lookup2 in Hty.
  destruct (m1 !! ty) as [i1|], (m2 !! ty) as [i2|].
  - f_equal. apply map_eq. exact Hty.
  - destruct Hdom as [Hd _]. destruct Hd as [? Hd]; [eauto | discriminate].
  - destruct Hdom as [_ Hd]. destruct Hd as [? Hd]; [eauto | discriminate].
  - reflexivity.
Qed.

Lemma add_counts_closed (cs : list Z) (o : option Z) :
  foldl add_count o cs =
    match cs with
    | [] => o
    | _ => Some (default 0 o + sum_counts cs)
    end.
Proof.
  revert o. induction cs as [|c cs IH]; intros o; [reflexivity|].
  simpl. rewrite IH. destruct cs as [|c' cs].
  - unfold add_count. simpl. f_equal. lia.
  - unfold add_count. simpl. f_equal. lia.
Qed.

Lemma sum_counts_app (l1 l2 : list Z) :
  sum_counts (l1 ++ l2) = sum_counts l1 + sum_counts l2.
Proof. induction l1; simpl; lia. Qed.

Lemma sum_counts_perm (l1 l2 : list Z) :
  l1 ≡ₚ l2 -> sum_counts l1 = sum_counts l2.
Proof. induction 1; simpl; lia. Qed.

Lemma add_counts_perm (l1 l2 : list Z) (o : option Z) :
  l1 ≡ₚ l2 -> foldl add_count o l1 = foldl add_count o l2.
Proof.
  intros Hp. rewrite !add_counts_closed.
  destruct l1 as [|a l1], l2 as [|b l2]; try reflexivity.
  - apply Permutation_nil_l in Hp. discriminate.
  - apply Permutation_nil_r in Hp. discriminate.
  - f_equal. f_equal. apply sum_counts_perm. exact Hp.
Qed.

(** *** One entity *)

Lemma merge_entity_dom (ty0 : str) (m : table) (e : entity_info) (ty : str) :
  is_Some (merge_entity ty0 m e !! ty) <-> is_Some (m !! ty).
Proof. unfold merge_entity. apply lookup_alter_is_Some. Qed.

Lemma merge_entity_cell (ty0 : str) (m : table) (e : entity_info)
    (ty tx : str) :
  is_Some (m !! ty0) ->
  lookup2 (merge_entity ty0 m e) ty tx =
    if decide (ty = ty0 /\ entity e = tx)
    then add_count (lookup2 m ty tx) (count e)
    else lookup2 m ty tx.
Proof.
  intros [inner Hin]. unfold lookup2, merge_entity.
  destruct (decide (ty = ty0)) as [->|Hne].
  - rewrite lookup_alter_eq, Hin. simpl.
    destruct (decide (entity e = tx)) as [<-|Hx].
    + rewrite decide_True by auto. unfold add_count.
      destruct (inner !! entity e) as [n|]; rewrite lookup_insert_eq;
        simpl; f_equal; lia.
    + rewrite decide_False by tauto.
      destruct (inner !! entity e); rewrite lookup_insert_ne; auto.
  - rewrite lookup_alter_ne by auto.
    rewrite decide_False by tauto. reflexivity.
Qed.

(** *** One entity list *)

Lemma merge_list_obs (ty0 : str) (es : list entity_info) (m : table) :
  is_Some (m !! ty0) ->
  (forall ty, is_Some (foldl (merge_entity ty0) m es !! ty)
              <-> is_Some (m !! ty)) /\
  (forall ty tx,
      lookup2 (foldl (merge_entity ty0) m es) ty tx =
        if decide (ty = ty0)
        then foldl add_count (lookup2 m ty tx) (counts_in tx es)
        else lookup2 m ty tx).
Proof.
  revert m. induction es as [|e es IH]; intros m Hin.
  - split; [tauto|]. intros ty tx. simpl. case_decide; reflexivity.
  - simpl.
    assert (Hin' : is_Some (merge_entity ty0 m e !! ty0))
      by (apply merge_entity_dom; exact Hin).
    destruct (IH _ Hin') as [Hdom Hcell]. split.
    + intros ty. rewrite Hdom. apply merge_entity_dom.
    + intros ty tx. rewrite Hcell, merge_entity_cell by exact Hin.
      unfold counts_in. rewrite filter_cons.
      destruct (decide (ty = ty0)) as [->|Hne].
      * destruct (decide (entity e = tx)) as [Hx|Hx].
        -- rewrite decide_True by auto. reflexivity.
        -- rewrite decide_False by tauto. reflexivity.
      * rewrite decide_False by tauto. reflexivity.
Qed.

(** *** One item: a type with its list *)

Lemma merge_type_obs (m : table) (item : str * list entity_info) :
  (forall ty, is_Some (merge_type m item !! ty)
              <-> is_Some (m !! ty) \/ ty = item.1) /\
  (forall ty tx,
      lookup2 (merge_type m item) ty tx =
        foldl add_count (lookup2 m ty tx) (type_counts ty tx [item])).
Proof.
  unfold merge_type.
  set (m1 := match m !! item.1 with
             | None => <[item.1 := ∅]> m
             | Some _ => m
             end).
  assert (Hdom1 : forall ty, is_Some (m1 !! ty)
                             <-> is_Some (m !! ty) \/ ty = item.1).
  { intros ty. subst m1. destruct (m !! item.1) as [inner|] eqn:E.
    - split; [auto|]. intros [?| ->]; [assumption|]. rewrite E. eauto.
    - rewrite lookup_insert_is_Some. destruct (decide (item.1 = ty)).
      + subst. tauto.
      + split; [intros [?|[_ ?]]; auto | intros [?| ->]; [right|]; tauto]. }
  assert (Hcell1 : forall ty tx, lookup2 m1 ty tx = lookup2 m ty tx).
  { intros ty tx. subst m1. unfold lookup2.
    destruct (m !! item.1) as [inner|] eqn:E; [reflexivity|].
    destruct (decide (item.1 = ty)) as [<-|Hne].
    - rewrite lookup_insert_eq, E. apply lookup_empty.
    - rewrite lookup_insert_ne by exact Hne. reflexivity. }
  assert (Hin : is_Some (m1 !! item.1)) by (apply Hdom1; auto).
  destruct (merge_list_obs item.1 item.2 m1 Hin) as [Hdom Hcell].
  split.
  - intros ty. rewrite Hdom. apply Hdom1.
  - intros ty tx. rewrite Hcell, Hcell1. simpl. rewrite app_nil_r.
    destruct (decide (ty = item.1)) as [->|Hne].
    + rewrite decide_True by reflexivity. reflexivity.
    + rewrite decide_False by congruence. reflexivity.
Qed.

Lemma type_counts_app (ty tx : str) (l1 l2 : list (str * list entity_info)) :
  type_counts ty tx (l1 ++ l2) = type_counts ty tx l1 ++ type_counts ty tx l2.
Proof. unfold type_counts. apply flat_map_app. Qed.

Lemma merge_items_obs (items : list (str * list entity_info)) (m : table) :
  (forall ty, is_Some (foldl merge_type m items !! ty)
              <-> is_Some (m !! ty) \/ In ty (List.map fst items)) /\
  (forall ty tx,
      lookup2 (foldl merge_type m items) ty tx =
        foldl add_count (lookup2 m ty tx) (type_counts ty tx items)).
Proof.
  revert m. induction items as [|item items IH]; intros m.
  - split; [simpl; tauto | reflexivity].
  - simpl foldl. destruct (IH (merge_type m item)) as [Hdom Hcell].
    destruct (merge_type_obs m item) as [Hdom1 Hcell1]. split.
    + intros ty. rewrite Hdom, Hdom1. simpl. intuition congruence.
    + intros ty tx. rewrite Hcell, Hcell1.
      rewrite <- foldl_app, <- type_counts_app. reflexivity.
Qed.

(** *** A sequence of chunk results *)

Lemma merge_chunks_obs (chunks : list formatted_entities) (m : table) :
  (forall ty, is_Some (foldl _merge_entities m chunks !! ty)
              <-> is_Some (m !! ty) \/ In ty (all_types chunks)) /\
  (forall ty tx,
      lookup2 (foldl _merge_entities m chunks) ty tx =
        foldl add_count (lookup2 m ty tx) (all_counts ty tx chunks)).
Proof.
  revert m. induction chunks as [|new chunks IH]; intros m.
  - split; [simpl; tauto | reflexivity].
  - simpl foldl. destruct (IH (_merge_entities m new)) as [Hdom Hcell].
    destruct (merge_items_obs (items_of new) m) as [Hdom1 Hcell1].
    split.
    + intros ty. rewrite Hdom. unfold _merge_entities.
      fold (items_of new). rewrite Hdom1. simpl. rewrite in_app_iff.
      tauto.
    + intros ty tx. rewrite Hcell. unfold _merge_entities.
      fold (items_of new). rewrite Hcell1. simpl.
      rewrite foldl_app. reflexivity.
Qed.

Lemma sum_all_counts (ty tx : str) (chunks : list formatted_entities) :
  sum_counts (all_counts ty tx chunks)
  = sum_counts (List.map (chunk_count ty tx) chunks).
Proof.
  induction chunks as [|new chunks IH]; [reflexivity|].
  simpl. rewrite sum_counts_app, IH. reflexivity.
Qed.

Lemma all_counts_nil (ty tx : str) (chunks : list formatted_entities) :
  all_counts ty tx chunks = [] <-> existsb (mentions ty tx) chunks = false.
Proof.
  induction chunks as [|new chunks IH]; [simpl; tauto|].
  simpl. unfold mentions at 1.
  destruct (type_counts ty tx (items_of new)) eqn:E; simpl.
  - exact IH.
  - split; discriminate.
Qed.

(** The table after merging [chunks] into an empty one: a cell exists
    exactly for the entities some chunk lists, and holds the sum of the
    chunks' counts. *)
Lemma merged_totals (chunks : list formatted_entities) (ty tx : str) :
  lookup2 (foldl _merge_entities ∅ chunks) ty tx =
    if existsb (mentions ty tx) chunks
    then Some (sum_counts (List.map (chunk_count ty tx) chunks))
    else None.
Proof.
  destruct (merge_chunks_obs chunks ∅) as [_ Hcell].
  rewrite Hcell, add_counts_closed.
  assert (H0 : lookup2 (∅ : table) ty tx = None)
    by (unfold lookup2; rewrite lookup_empty; reflexivity).
  rewrite H0. simpl.
  destruct (existsb (mentions ty tx) chunks) eqn:E.
  - destruct (all_counts ty tx chunks) eqn:Ec.
    + apply all_counts_nil in Ec. congruence.
    + rewrite <- Ec, sum_all_counts. reflexivity.
  - apply all_counts_nil in E. rewrite E. reflexivity.
Qed.

(** Merging in another order gives the same table, from any table. *)
Lemma merge_permutation (chunks1 chunks2 : list formatted_entities)
    (m : table) :
  chunks1 ≡ₚ chunks2 ->
  foldl _merge_entities m chunks1 = foldl _merge_entities m chunks2.
Proof.
  intros Hp. apply table_ext.
  - intros ty.
    destruct (merge_chunks_obs chunks1 m) as [-> _].
    destruct (merge_chunks_obs chunks2 m) as [-> _].
    assert (Ht : all_types chunks1 ≡ₚ all_types chunks2)
      by (unfold all_types; rewrite Hp; reflexivity).
    split; (intros [?|Hin]; [left; assumption|right]).
    + eapply Permutation_in; [exact Ht | exact Hin].
    + eapply Permutation_in; [symmetry; exact Ht | exact Hin].
  - intros ty tx.
    destruct (merge_chunks_obs chunks1 m) as [_ ->].
    destruct (merge_chunks_obs chunks2 m) as [_ ->].
    apply add_counts_perm. unfold all_counts. rewrite Hp. reflexivity.
Qed.

(** C4. Merging the same chunk results in two different orders gives
    the same merged table, whatever the table was before; and after
    merging into an empty table, the count stored for an entity type
    and text is the sum of that entity's counts over all merged chunks
    (there is no entry when no chunk lists the entity). In particular
    merging two results commutes. *)
Theorem merge_order_irrelevant (chunks1 chunks2 : list formatted_entities) :
  chunks1 ≡ₚ chunks2 ->
  (forall m : table,
      foldl _merge_entities m chunks1 = foldl _merge_entities m chunks2) /\
  (forall ty tx : str,
      lookup2 (foldl _merge_entities ∅ chunks1) ty tx =
        if existsb (mentions ty tx) chunks1
        then Some (sum_counts (List.map (chunk_count ty tx) chunks1))
        else None) /\
  (forall ty tx : str,
      lookup2 (foldl _merge_entities ∅ chunks2) ty tx
      = lookup2 (foldl _merge_entities ∅ chunks1) ty tx) /\
  (forall (m : table) (a b : formatted_entities),
      _merge_entities (_merge_entities m a) b
      = _merge_entities (_merge_entities m b) a).
Proof.
  intros Hp. split; [|split; [|split]].
  - intros m. apply merge_permutation. exact Hp.
  - intros ty tx. apply merged_totals.
  - intros ty tx. rewrite (merge_permutation chunks1 chunks2 ∅ Hp).
    reflexivity.
  - intros m a b.
    apply (merge_permutation [a; b] [b; a] m). apply perm_swap.
Qed.

Lemma merge_order_irrelevant_witness :
  foldl _merge_entities ∅ [sample_a; sample_b]
  = foldl _merge_entities ∅ [sample_b; sample_a].
Proof.
  apply (merge_order_irrelevant [sample_a; sample_b] [sample_b; sample_a]).
  apply perm_swap.
Defined.

Example merged_sample_total :
  lookup2 (foldl _merge_entities ∅ [sample_a; sample_b])
          (py "PERSON") (py "Ann") = Some 5.
Proof. rewrite merged_totals. reflexivity. Qed.

End merge_spec.


(** ** The real-time pipeline *)

Module pipeline_spec.

Import realtime_pipeline.
Import pipeline_defs.

Lemma small_pipeline_built :
  realtime_pipeline.__init__ (streaming_settings 2 1) = Ok small_pipeline.
Proof. reflexivity. Qed.

(** *** Combinators *)

Lemma bind_run {A B} (m : M A) (k : A -> M B) (w : world) :
  bind m k w =
    match (m w).2 with
    | Ok a => k a (m w).1
    | Raise e => ((m w).1, Raise e)
    end.
Proof. unfold bind. destruct (m w) as [w1 [a|e]]; reflexivity. Qed.

Lemma bind_assoc {A B C} (m : M A) (k : A -> M B) (h : B -> M C) (w : world) :
  bind (bind m k) h w = bind m (fun a => bind (k a) h) w.
Proof. unfold bind. destruct (m w) as [w1 [a|e]]; reflexivity. Qed.

Lemma bind_ext {A B} (m : M A) (k k' : A -> M B) (w : world) :
  (forall a w1, k a w1 = k' a w1) -> bind m k w = bind m k' w.
Proof.
  intros Hk. unfold bind. destruct (m w) as [w1 [a|e]]; [apply Hk|reflexivity].
Qed.

Lemma keeps_ret {A} I (a : A) : keeps I (ret a).
Proof. intros w Hw. exact Hw. Qed.

Lemma keeps_call {A} I ev (r : result A) : keeps I (call ev r).
Proof. intros w Hw. exact Hw. Qed.

Lemma keeps_bind {A B} I (m : M A) (k : A -> M B) :
  keeps I m -> (forall a, keeps I (k a)) -> keeps I (bind m k).
Proof.
  intros Hm Hk w Hw. rewrite bind_run. specialize (Hm w Hw).
  destruct (m w).2; [apply Hk; exact Hm | exact Hm].
Qed.

Lemma raises_ret {A} self (a : A) : raises_only self (ret a).
Proof. intros w e H. discriminate H. Qed.

Lemma raises_bind {A B} self (m : M A) (k : A -> M B) :
  raises_only self m -> (forall a, raises_only self (k a)) ->
  raises_only self (bind m k).
Proof.
  intros Hm Hk w e. rewrite bind_run. specialize (Hm w).
  destruct (m w).2 as [a|e'].
  - apply Hk.
  - simpl. intros [= <-]. apply Hm. reflexivity.
Qed.

(** *** [_process_chunk] *)

(** The summarizer fails: one call is made, the exception leaves
    [_process_chunk], the object is untouched. *)
Lemma _process_chunk_summary_fails self c e w :
  generate_summary self c None = Raise e ->
  _process_chunk self c w
  = ((w.1, w.2 ++ [CallSummarize c None]), Raise e).
Proof.
  intros Hg. unfold _process_chunk, bind, call. rewrite Hg. reflexivity.
Qed.

(** The entity extractor fails: likewise, after two calls. *)
Lemma _process_chunk_extract_fails self c s e w :
  generate_summary self c None = Ok s ->
  extract_and_format self c = Raise e ->
  _process_chunk self c w
  = ((w.1, (w.2 ++ [CallSummarize c None]) ++ [CallExtract c]), Raise e).
Proof.
  intros Hg He. unfold _process_chunk, bind, call. rewrite Hg. simpl.
  rewrite He. reflexivity.
Qed.

(** Both succeed: the chunk is recorded, whatever the callbacks do. *)
Lemma _process_chunk_records self c s ents w :
  generate_summary self c None = Ok s ->
  extract_and_format self c = Ok ents ->
  (_process_chunk self c w).1.1 = record_chunk w.1 c s ents.
Proof.
  intros Hg He. unfold _process_chunk, bind, call, get, modify, ret.
  rewrite Hg. simpl. rewrite He. simpl.
  destruct (on_chunk_summarized self) as [f|]; simpl.
  - destruct (f c _); simpl; [|reflexivity].
    destruct (on_entity_extracted self) as [g|]; reflexivity.
  - destruct (on_entity_extracted self) as [g|]; reflexivity.
Qed.

(** [_process_chunk] leaves the object alone or records the chunk. *)
Lemma _process_chunk_state self c w :
  (_process_chunk self c w).1.1 = w.1 \/
  exists s ents, (_process_chunk self c w).1.1 = record_chunk w.1 c s ents.
Proof.
  destruct (generate_summary self c None) as [s|e] eqn:Hg.
  - destruct (extract_and_format self c) as [ents|e] eqn:He.
    + right. exists s, ents. apply _process_chunk_records; assumption.
    + left. erewrite _process_chunk_extract_fails by eassumption.
      reflexivity.
  - left. erewrite _process_chunk_summary_fails by eassumption.
    reflexivity.
Qed.

Lemma _process_chunk_raises self c : raises_only self (_process_chunk self c).
Proof.
  intros w e. unfold _process_chunk, bind, call, get, modify, ret, raised_by.
  destruct (generate_summary self c None) as [s|e1] eqn:Hg; simpl;
    [|intros [= <-]; eauto].
  destruct (extract_and_format self c) as [ents|e1] eqn:He; simpl;
    [|intros [= <-]; eauto].
  destruct (on_chunk_summarized self) as [f|] eqn:Hf; simpl.
  - destruct (f c _) as [[]|e1] eqn:Hfc; simpl;
      [|intros [= <-]; right; right; left; eauto].
    destruct (on_entity_extracted self) as [g|] eqn:Hgx; simpl;
      [|discriminate].
    destruct (g ents) as [[]|e1] eqn:Hgc; simpl; [discriminate|].
    intros [= <-]. right; right; right; eauto.
  - destruct (on_entity_extracted self) as [g|] eqn:Hgx; simpl;
      [|discriminate].
    destruct (g ents) as [[]|e1] eqn:Hgc; simpl; [discriminate|].
    intros [= <-]. right; right; right; eauto.
Qed.

Lemma record_chunk_numbered p c s ents :
  numbered p -> numbered (record_chunk p c s ents).
Proof.
  unfold numbered. simpl. intros Hn.
  rewrite List.map_app, length_app, Hn. simpl.
  rewrite seq_app, List.map_app. simpl. f_equal. f_equal. lia.
Qed.

Lemma _process_chunk_keeps I self c :
  (forall p s ents, I p -> I (record_chunk p c s ents)) ->
  keeps I (_process_chunk self c).
Proof.
  intros Hrec w Hw.
  destruct (_process_chunk_state self c w) as [-> | (s & ents & ->)];
    [exact Hw | apply Hrec; exact Hw].
Qed.

Lemma process_if_keeps I self chunk :
  (forall p c s ents, I p -> I (record_chunk p c s ents)) ->
  keeps I (process_if self chunk).
Proof.
  intros Hrec. destruct chunk as [c|]; simpl; [|apply keeps_ret].
  destruct (pystr.truthy c); [|apply keeps_ret].
  apply _process_chunk_keeps. intros p s ents. apply Hrec.
Qed.

Lemma process_if_raises self chunk : raises_only self (process_if self chunk).
Proof.
  destruct chunk as [c|]; simpl; [|apply raises_ret].
  destruct (pystr.truthy c); [apply _process_chunk_raises | apply raises_ret].
Qed.

(** *** [_generate_final_summary] *)

Lemma final_summary_few self w :
  (length (chunk_summaries w.1) <= 1)%nat ->
  _generate_final_summary self w = (w, Ok (all_summaries w.1)).
Proof.
  intros Hlen. unfold _generate_final_summary, bind, get. simpl.
  destruct (1 <? length (chunk_summaries w.1))%nat eqn:E.
  - apply Nat.ltb_lt in E. lia.
  - destruct w; reflexivity.
Qed.

Lemma final_summary_many self w :
  (1 < length (chunk_summaries w.1))%nat ->
  _generate_final_summary self w
  = ((w.1, w.2 ++ [CallSummarize (all_summaries w.1) (Some 300)]),
     generate_summary self (all_summaries w.1) (Some 300)).
Proof.
  intros Hlen. unfold _generate_final_summary, bind, get. simpl.
  destruct (1 <? length (chunk_summaries w.1))%nat eqn:E.
  - reflexivity.
  - apply Nat.ltb_ge in E. lia.
Qed.

(** The object is the same before and after. *)
Lemma final_summary_state self w :
  (_generate_final_summary self w).1.1 = w.1.
Proof.
  destruct (le_lt_dec (length (chunk_summaries w.1)) 1) as [H|H].
  - rewrite final_summary_few by exact H. reflexivity.
  - rewrite final_summary_many by exact H. reflexivity.
Qed.

Lemma final_summary_raises self :
  raises_only self (_generate_final_summary self).
Proof.
  intros w e.
  destruct (le_lt_dec (length (chunk_summaries w.1)) 1) as [H|H].
  - rewrite final_summary_few by exact H. discriminate.
  - rewrite final_summary_many by exact H. simpl. intros Hg.
    left. eauto.
Qed.

(** *** [process_text_async] *)

Lemma process_text_async_unfold self text is_final w :
  process_text_async self text is_final w
  = bind (process_if self (transcript_buffer.add_text (buffer w.1) text).2)
         (fun _ => if is_final then finalize self else ret tt)
         (fed w.1 text, w.2).
Proof.
  unfold process_text_async, fed.
  unfold bind at 1 2. unfold modify, buffer_add_text. simpl.
  destruct (transcript_buffer.add_text (buffer w.1) text) as [b chunk].
  reflexivity.
Qed.

Lemma finalize_keeps I self : stable I -> keeps I (finalize self).
Proof.
  intros [Hbuf Hrec]. unfold finalize.
  apply keeps_bind.
  - intros w Hw. unfold buffer_get_remaining.
    destruct (transcript_buffer.get_remaining (buffer w.1)) as [b r].
    simpl. apply Hbuf. exact Hw.
  - intros remaining. apply keeps_bind.
    + apply process_if_keeps. exact Hrec.
    + intros _. apply keeps_bind; [|intros; apply keeps_ret].
      intros w Hw. rewrite final_summary_state. exact Hw.
Qed.

Lemma finalize_raises self : raises_only self (finalize self).
Proof.
  unfold finalize. apply raises_bind.
  - intros w e. unfold buffer_get_remaining.
    destruct (transcript_buffer.get_remaining (buffer w.1)). discriminate.
  - intros remaining. apply raises_bind; [apply process_if_raises|].
    intros _. apply raises_bind; [apply final_summary_raises|].
    intros. apply raises_ret.
Qed.

Lemma process_text_async_keeps I self text is_final w :
  stable I -> I (fed w.1 text) ->
  I (process_text_async self text is_final w).1.1.
Proof.
  intros Hst Hfed. rewrite process_text_async_unfold.
  apply (keeps_bind I); [apply process_if_keeps, Hst| |exact Hfed].
  intros _. destruct is_final; [apply finalize_keeps, Hst | apply keeps_ret].
Qed.

Lemma process_text_async_raises self text is_final :
  raises_only self (process_text_async self text is_final).
Proof.
  intros w e. rewrite process_text_async_unfold.
  apply (raises_bind self); [apply process_if_raises|].
  intros _. destruct is_final; [apply finalize_raises | apply raises_ret].
Qed.

(** Every call appends its text to [complete_transcript], also when it
    ends in an exception. *)
Lemma process_text_async_transcript self text is_final w :
  complete_transcript (process_text_async self text is_final w).1.1
  = complete_transcript w.1 ++ [text].
Proof.
  apply (process_text_async_keeps
           (fun p => complete_transcript p = complete_transcript w.1 ++ [text])).
  - split; intros; assumption.
  - reflexivity.
Qed.

Lemma process_text_async_numbered self text is_final w :
  numbered w.1 -> numbered (process_text_async self text is_final w).1.1.
Proof.
  intros Hn. apply process_text_async_keeps.
  - split; [intros p b H; exact H|].
    intros p c s ents. apply record_chunk_numbered.
  - exact Hn.
Qed.

Lemma reachable_numbered self w : reachable self w -> numbered w.1.
Proof.
  induction 1 as [b|w text is_final _ IH|w _ IH].
  - reflexivity.
  - apply process_text_async_numbered. exact IH.
  - reflexivity.
Qed.

(** *** No closed state *)

(** C5, the counterexample. A call with [is_final=True] completes on a
    fresh pipeline; the next call on the same object returns normally
    and changes the object. *)
Lemma call_after_final_is_processed :
  let first := process_text_async echo (py "hello") true (small_pipeline, []) in
  let second := process_text_async echo (py "again") false first.1 in
  first.2 = Ok tt /\
  second.2 = Ok tt /\
  second.2 <> Raise (PyExc "SessionClosedError") /\
  complete_transcript first.1.1 = [py "hello"] /\
  complete_transcript second.1.1 = [py "hello"; py "again"] /\
  second.1.1 <> first.1.1.
Proof.
  cbv zeta.
  assert (H1 : complete_transcript
                 (process_text_async echo (py "hello") true
                    (small_pipeline, [])).1.1 = [py "hello"])
    by (rewrite process_text_async_transcript; reflexivity).
  assert (H2 : complete_transcript
                 (process_text_async echo (py "again") false
                    (process_text_async echo (py "hello") true
                       (small_pipeline, [])).1).1.1
               = [py "hello"; py "again"])
    by (rewrite process_text_async_transcript, H1; reflexivity).
  split; [vm_compute; reflexivity|].
  split; [vm_compute; reflexivity|].
  split; [vm_compute; discriminate|].
  split; [exact H1|]. split; [exact H2|].
  intros Heq. rewrite Heq, H1 in H2. discriminate H2.
Qed.

(** C5, amended. After a [process_text_async] call with [is_final=True]
    has completed, the session is not closed: a further call is processed
    like any other. It appends its text to the transcript parts, so the
    session state changes, and it fails only with an exception that one
    of the collaborators (summarizer, entity extractor, callback)
    raised; the pipeline raises no [SessionClosedError] of its own. (The
    same holds of a call in any other state.) *)
Theorem no_closed_state (self : collaborators) (w0 w1 : world) (text0 : str) :
  process_text_async self text0 true w0 = (w1, Ok tt) ->
  forall (text : str) (is_final : bool),
    let out := process_text_async self text is_final w1 in
    complete_transcript out.1.1 = complete_transcript w1.1 ++ [text] /\
    out.1.1 <> w1.1 /\
    (forall e, out.2 = Raise e -> raised_by self e).
Proof.
  intros _ text is_final out. subst out.
  pose proof (process_text_async_transcript self text is_final w1) as Ht.
  split; [exact Ht|]. split.
  - intros Heq. rewrite Heq in Ht. apply (f_equal (@length str)) in Ht.
    rewrite length_app in Ht. simpl in Ht. lia.
  - intros e. apply process_text_async_raises.
Qed.

Lemma no_closed_state_witness :
  complete_transcript
    (process_text_async echo (py "again") false
       (process_text_async echo (py "hello") true (small_pipeline, [])).1).1.1
  = complete_transcript
      (process_text_async echo (py "hello") true (small_pipeline, [])).1.1
    ++ [py "again"].
Proof.
  apply (no_closed_state echo (small_pipeline, [])
           (process_text_async echo (py "hello") true (small_pipeline, [])).1
           (py "hello")).
  vm_compute. reflexivity.
Defined.

(** *** A failing model *)

(** C6, the counterexample. The buffer (capacity 2) emits the chunk
    ["a b"], the summarizer raises [ModelUnavailableError]; the call ends
    in that exception and no chunk result is recorded, neither a failed
    one nor any other. *)
Lemma failed_chunk_not_recorded :
  let out := process_text_async unavailable (py "a b") false
               (small_pipeline, []) in
  (transcript_buffer.add_text (buffer small_pipeline) (py "a b")).2
    = Some (py "a b") /\
  out.2 = Raise (PyExc "ModelUnavailableError") /\
  chunk_summaries out.1.1 = [].
Proof. cbv zeta. repeat split; vm_compute; reflexivity. Qed.

Lemma _process_chunk_fails self c e w :
  fails_on self c e ->
  (_process_chunk self c w).2 = Raise e /\ (_process_chunk self c w).1.1 = w.1.
Proof.
  intros [Hg | [[s Hg] He]].
  - rewrite (_process_chunk_summary_fails self c e w Hg). split; reflexivity.
  - rewrite (_process_chunk_extract_fails self c s e w Hg He).
    split; reflexivity.
Qed.

(** C6, amended. When the summarizer or the entity extractor raises on a
    chunk, [_process_chunk] lets the exception through to the caller of
    [process_text_async] and records nothing for the chunk: no chunk
    result is appended and the merged entities stay as they were (the
    transcript part and the buffer update made before remain). The
    session stays usable: a later chunk on which both calls succeed is
    recorded with the next chunk number. *)
Theorem model_failure_propagates (self : collaborators) (c : str) (e : exn) :
  fails_on self c e ->
  (forall w, (_process_chunk self c w).2 = Raise e /\
             (_process_chunk self c w).1.1 = w.1) /\
  (forall w text is_final,
      (transcript_buffer.add_text (buffer w.1) text).2 = Some c ->
      pystr.truthy c = true ->
      let out := process_text_async self text is_final w in
      out.2 = Raise e /\
      out.1.1 = fed w.1 text /\
      chunk_summaries out.1.1 = chunk_summaries w.1 /\
      all_entities out.1.1 = all_entities w.1) /\
  (forall w c2 s ents,
      generate_summary self c2 None = Ok s ->
      extract_and_format self c2 = Ok ents ->
      (_process_chunk self c2 (_process_chunk self c w).1).1.1
      = record_chunk w.1 c2 s ents).
Proof.
  intros Hf. split; [|split].
  - intros w. apply _process_chunk_fails. exact Hf.
  - intros w text is_final Hc Ht out. subst out.
    rewrite process_text_async_unfold, bind_run, Hc. simpl. rewrite Ht.
    destruct (_process_chunk_fails self c e (fed w.1 text, w.2) Hf)
      as [Hr Hs].
    rewrite Hr. simpl. rewrite Hs. repeat split; reflexivity.
  - intros w c2 s ents Hg He.
    rewrite (_process_chunk_records self c2 s ents _ Hg He).
    destruct (_process_chunk_fails self c e w Hf) as [_ ->]. reflexivity.
Qed.

Lemma model_failure_propagates_witness :
  (_process_chunk unavailable (py "a b") (small_pipeline, [])).2
    = Raise (PyExc "ModelUnavailableError") /\
  (_process_chunk unavailable (py "a b") (small_pipeline, [])).1.1
    = small_pipeline.
Proof.
  apply (model_failure_propagates unavailable (py "a b")
           (PyExc "ModelUnavailableError")).
  left. reflexivity.
Defined.

(** *** The consolidated summary *)

(** Every per-chunk summarization passes no [max_length]. *)
Lemma _process_chunk_first_call self c w :
  exists rest, (_process_chunk self c w).1.2
               = w.2 ++ CallSummarize c None :: rest.
Proof.
  unfold _process_chunk, bind, call, get, modify, ret.
  destruct (generate_summary self c None) as [s|e]; simpl;
    [|exists []; reflexivity].
  destruct (extract_and_format self c) as [ents|e]; simpl;
    [|exists [CallExtract c]; rewrite <- app_assoc; reflexivity].
  destruct (on_chunk_summarized self) as [f|]; simpl.
  - destruct (f c _) as [[]|e]; simpl.
    + destruct (on_entity_extracted self) as [g|]; simpl;
        eexists; rewrite <- ?app_assoc; simpl; reflexivity.
    + eexists; rewrite <- ?app_assoc; simpl; reflexivity.
  - destruct (on_entity_extracted self) as [g|]; simpl;
      eexists; rewrite <- ?app_assoc; simpl; reflexivity.
Qed.

(** The final call is that, then [_generate_final_summary], whose value
    is dropped. *)
Lemma final_call_unfold self text w :
  process_text_async self text true w
  = bind (before_final self text)
         (fun _ => _ <- _generate_final_summary self ;; ret tt) w.
Proof.
  unfold process_text_async, before_final.
  rewrite bind_assoc. apply bind_ext. intros _ w1.
  rewrite bind_assoc. apply bind_ext. intros chunk w2.
  rewrite bind_assoc. apply bind_ext. intros _ w3.
  rewrite bind_assoc. apply bind_ext. intros remaining w4.
  reflexivity.
Qed.

Lemma before_final_keeps I self text w :
  stable I -> I (fed w.1 text) -> I (before_final self text w).1.1.
Proof.
  intros Hst Hfed. unfold before_final.
  unfold bind at 1 2. unfold modify, buffer_add_text. simpl.
  destruct (transcript_buffer.add_text (buffer w.1) text) as [b chunk] eqn:E.
  unfold fed in Hfed. rewrite E in Hfed. simpl in Hfed.
  apply (keeps_bind I); [apply process_if_keeps, Hst| |exact Hfed].
  intros _. apply keeps_bind.
  - intros w' Hw'. unfold buffer_get_remaining.
    destruct (transcript_buffer.get_remaining (buffer w'.1)) as [b' r].
    simpl. apply Hst. exact Hw'.
  - intros r. apply process_if_keeps, Hst.
Qed.

(** C8. When a session is finalized, the chunk results are listed in
    [chunk_number] order (1, 2, ...) at the point where the final call
    computes the consolidated summary. With exactly one chunk result
    [_generate_final_summary] returns that chunk's summary unchanged and
    calls no collaborator. With more than one it joins all chunk
    summaries, in that order, with single spaces and passes the result
    through the summarizer once, with [max_length=300]; the answer is
    the consolidated summary. The per-chunk calls pass no [max_length],
    for which the summarizer takes [settings.max_summary_length],
    declared as 200. *)
Theorem consolidated_summary (self : collaborators) (w0 : world) (text : str) :
  reachable self w0 ->
  let w := (before_final self text w0).1 in
  process_text_async self text true w0
    = bind (before_final self text)
           (fun _ => _ <- _generate_final_summary self ;; ret tt) w0 /\
  List.map chunk_number (chunk_summaries w.1)
    = List.map Z.of_nat (seq 1 (length (chunk_summaries w.1))) /\
  (forall c, chunk_summaries w.1 = [c] ->
             _generate_final_summary self w = (w, Ok (summary c))) /\
  ((1 < length (chunk_summaries w.1))%nat ->
   let joined :=
     pystr.join (py " ") (List.map summary (chunk_summaries w.1)) in
   _generate_final_summary self w
   = ((w.1, w.2 ++ [CallSummarize joined (Some 300)]),
      generate_summary self joined (Some 300))) /\
  (forall c w', exists rest,
      (_process_chunk self c w').1.2 = w'.2 ++ CallSummarize c None :: rest) /\
  config.getattr (config.Settings "") "max_summary_length"
    = Ok (config.VInt 200) /\
  200 < 300.
Proof.
  intros Hr w. split; [apply final_call_unfold|].
  split.
  { apply (before_final_keeps numbered).
    - split; [intros p b H; exact H|].
      intros p c s ents. apply record_chunk_numbered.
    - exact (reachable_numbered self w0 Hr). }
  split; [|split; [|split; [|split]]].
  - intros c Hc. rewrite final_summary_few by (rewrite Hc; simpl; lia).
    unfold all_summaries. rewrite Hc. reflexivity.
  - intros Hlen. apply final_summary_many. exact Hlen.
  - intros c w'. apply _process_chunk_first_call.
  - reflexivity.
  - lia.
Qed.

Lemma consolidated_summary_witness :
  let w := (before_final echo (py "a b c") (small_pipeline, [])).1 in
  List.map chunk_number (chunk_summaries w.1) = [1; 2] /\
  _generate_final_summary echo w
  = ((w.1, w.2 ++ [CallSummarize (py "a b b c") (Some 300)]),
     Ok (py "a b b c")).
Proof.
  cbv zeta.
  destruct (consolidated_summary echo (small_pipeline, []) (py "a b c")
              (reach_init echo _))
    as (_ & Hn & _ & Hmany & _).
  split.
  - rewrite Hn. vm_compute. reflexivity.
  - rewrite Hmany by (vm_compute; lia). vm_compute. reflexivity.
Defined.

(** *** What [get_results] shows *)

Lemma _process_chunk_alike self self' c w :
  alike_on_chunks self self' ->
  _process_chunk self c w = _process_chunk self' c w.
Proof.
  intros (Hg & He & Hc & Hx). unfold _process_chunk, bind, call.
  rewrite Hg, He, Hc, Hx. reflexivity.
Qed.

Lemma process_if_alike self self' chunk w :
  alike_on_chunks self self' ->
  process_if self chunk w = process_if self' chunk w.
Proof.
  intros Ha. destruct chunk as [c|]; simpl; [|reflexivity].
  destruct (pystr.truthy c); [|reflexivity].
  apply _process_chunk_alike. exact Ha.
Qed.

Lemma final_step_state self (w : world) :
  (bind (_generate_final_summary self) (fun _ => ret tt) w).1.1 = w.1.
Proof.
  rewrite bind_run.
  destruct (_generate_final_summary self w).2 eqn:E; simpl;
    apply final_summary_state.
Qed.

Lemma finalize_alike self self' w :
  alike_on_chunks self self' ->
  (finalize self w).1.1 = (finalize self' w).1.1.
Proof.
  intros Ha. unfold finalize. unfold bind at 1 4.
  unfold buffer_get_remaining.
  destruct (transcript_buffer.get_remaining (buffer w.1)) as [b r]. simpl.
  rewrite (bind_run (process_if self r)), (bind_run (process_if self' r)).
  rewrite (process_if_alike self self' r _ Ha).
  destruct (process_if self' r _).2; [|reflexivity].
  rewrite !final_step_state. reflexivity.
Qed.

(** C9. The consolidated summary cannot be observed through the
    pipeline. [_generate_final_summary] leaves the object as it was, so
    its value is stored nowhere; [process_text_async] returns nothing
    ([None]) when it returns; [get_results] has exactly the keys
    [chunk_summaries], [entities], [transcript_parts] and [buffer_stats];
    and what [get_results] shows after a final call is the same for any
    two sets of collaborators that differ only in the summaries they
    give for the final, consolidated call. *)
Theorem final_summary_unobservable (self : collaborators) (text : str)
    (w : world) :
  (_generate_final_summary self w).1.1 = w.1 /\
  (forall r : unit, (process_text_async self text true w).2 = Ok r -> r = tt) /\
  List.map fst (get_results w.1)
    = [ "chunk_summaries"; "entities"; "transcript_parts"; "buffer_stats" ]%string /\
  (forall self' : collaborators,
      alike_on_chunks self self' ->
      get_results (process_text_async self text true w).1.1
      = get_results (process_text_async self' text true w).1.1).
Proof.
  split; [apply final_summary_state|].
  split; [intros []; reflexivity|].
  split; [reflexivity|].
  intros self' Ha. f_equal.
  rewrite !process_text_async_unfold.
  rewrite (bind_run (process_if self _)), (bind_run (process_if self' _)).
  rewrite (process_if_alike self self' _ _ Ha).
  destruct (process_if self' _ _).2; [|reflexivity].
  apply finalize_alike. exact Ha.
Qed.

Lemma final_summary_unobservable_witness :
  get_results
    (process_text_async echo (py "a b c") true (small_pipeline, [])).1.1
  = get_results
      (process_text_async echo_fixed_final (py "a b c") true
         (small_pipeline, [])).1.1.
Proof.
  apply (final_summary_unobservable echo (py "a b c") (small_pipeline, [])).
  repeat split; reflexivity.
Defined.

End pipeline_spec.


(** ** The segmenter *)

Module segmenter_spec.

Import segmenter.
Import segmenter_defs.

Section with_datetime.

Context `{DatetimeLib}.

Lemma loop_body_unparsed (window_minutes : Z) (st : loop_state)
    (s : TranscriptSegment) :
  (forall ts, timestamp s = Some ts -> pystr.truthy ts = true ->
              _parse_timestamp ts = Raise (PyExc "ValueError")) ->
  loop_body window_minutes st s = Ok (append_current st s).
Proof.
  intros Hs. unfold loop_body.
  destruct (timestamp s) as [ts|]; [|reflexivity].
  destruct (pystr.truthy ts) eqn:Et; [|reflexivity].
  rewrite (Hs ts eq_refl Et).
  rewrite decide_True by reflexivity. reflexivity.
Qed.

(** With no timestamp that parses, the loop only collects. *)
Lemma loop_unparsed (window_minutes : Z) (segments : list TranscriptSegment)
    (st : loop_state) :
  none_parses segments ->
  loop window_minutes st segments
  = Ok {| time_windows := time_windows st;
          current_window := current_window st ++ List.map to_dict segments;
          window_start := window_start st |}.
Proof.
  revert st. induction segments as [|s segments IH]; intros st Hnone.
  - simpl. rewrite app_nil_r. destruct st; reflexivity.
  - simpl. rewrite loop_body_unparsed.
    + rewrite IH.
      * simpl. rewrite <- app_assoc. reflexivity.
      * intros s' ts Hin. apply Hnone. right. exact Hin.
    + intros ts. apply Hnone. left. reflexivity.
Qed.

(** C7, amended. For every input text in which no segment carries a
    timestamp that parses: if at least one segment carries a non-empty
    timestamp string, [segment_by_time] returns exactly one window,
    whose [window_start] is ["unknown"] and which holds all parsed
    segments in their original order; if no segment carries a non-empty
    timestamp (or nothing was parsed), it returns the single record
    [{"window": "full", "content": text}]. *)
Theorem unparsed_timestamps (text : str) (window_minutes : Z) :
  none_parses (segment_by_speaker text) ->
  segment_by_time text window_minutes
  = Ok (if existsb has_timestamp (segment_by_speaker text)
        then [Window (py "unknown")
                     (List.map to_dict (segment_by_speaker text))]
        else [Full text]).
Proof.
  intros Hnone. unfold segment_by_time.
  destruct (existsb has_timestamp (segment_by_speaker text)) eqn:Ex.
  - destruct (segment_by_speaker text) as [|s segments] eqn:Es;
      [discriminate Ex|].
    simpl orb. cbv iota. rewrite loop_unparsed by exact Hnone. simpl.
    reflexivity.
  - rewrite orb_true_r. reflexivity.
Qed.

End with_datetime.

(** C7, the counterexample. In ["Alice: hello"] the one segment carries
    no timestamp at all, so none that parses; the result is the record
    [{"window": "full", "content": text}], not a window ["unknown"] with
    the segment. *)
Lemma no_timestamp_gives_full :
  let input := py "Alice: hello" in
  segment_by_speaker input
    = [ {| speaker := py "Alice"; text := py "hello"; timestamp := None;
           start_line := Some 0 |} ] /\
  @none_parses hm_clock (segment_by_speaker input) /\
  @segment_by_time hm_clock input 5 = Ok [Full input] /\
  @segment_by_time hm_clock input 5
    <> Ok [Window (py "unknown") (List.map to_dict (segment_by_speaker input))].
Proof.
  cbv zeta.
  assert (Hseg : segment_by_speaker (py "Alice: hello")
                 = [ {| speaker := py "Alice"; text := py "hello";
                        timestamp := None; start_line := Some 0 |} ])
    by (vm_compute; reflexivity).
  split; [exact Hseg|]. split.
  - rewrite Hseg. intros s ts [<-|[]]. discriminate.
  - split; [vm_compute; reflexivity | vm_compute; discriminate].
Qed.

Lemma unparsed_timestamps_witness :
  @segment_by_time hm_clock (py "[soon] Alice: hello" ++ LF ++ py "Bob: hi") 5
  = Ok [Window (py "unknown")
          [ {| d_speaker := py "Alice"; d_text := py "hello";
               d_timestamp := Some (py "soon"); d_start_line := Some 0 |};
            {| d_speaker := py "Bob"; d_text := py "hi";
               d_timestamp := None; d_start_line := Some 1 |} ]].
Proof.
  rewrite (@unparsed_timestamps hm_clock).
  - vm_compute. reflexivity.
  - assert (Hseg : segment_by_speaker
                     (py "[soon] Alice: hello" ++ LF ++ py "Bob: hi")
                   = [ {| speaker := py "Alice"; text := py "hello";
                          timestamp := Some (py "soon"); start_line := Some 0 |};
                       {| speaker := py "Bob"; text := py "hi";
                          timestamp := None; start_line := Some 1 |} ])
      by (vm_compute; reflexivity).
    rewrite Hseg. intros s ts [<-|[<-|[]]]; simpl.
    + intros [= <-] _. vm_compute. reflexivity.
    + discriminate.
Defined.

(** The grouping of the specification's example: 10:00, 10:03 and 10:06
    with five-minute windows give the windows [10:00, 10:03] and
    [10:06]. *)
Example three_segments_two_windows :
  @segment_by_time hm_clock
    (py "[10:00] Ann: a" ++ LF ++ py "[10:03] Bob: b" ++ LF
     ++ py "[10:06] Cy: c") 5
  = Ok [ Window (py "2024-01-01T10:00:00")
           [ {| d_speaker := py "Ann"; d_text := py "a";
                d_timestamp := Some (py "10:00"); d_start_line := Some 0 |};
             {| d_speaker := py "Bob"; d_text := py "b";
                d_timestamp := Some (py "10:03"); d_start_line := Some 1 |} ];
         Window (py "2024-01-01T10:06:00")
           [ {| d_speaker := py "Cy"; d_text := py "c";
                d_timestamp := Some (py "10:06"); d_start_line := Some 2 |} ] ].
Proof. vm_compute. reflexivity. Qed.

End segmenter_spec.

(** ** The buffer over a whole stream *)

Module buffer_stream_spec.

Import transcript_buffer.
Import buffer_stream_defs.

(** *** Splitting what was joined *)

Lemma split_from_word (w cur rest : str) :
  forallb (fun c => negb (pystr.isspace c)) w = true ->
  pystr.split_from cur (w ++ rest) = pystr.split_from (rev w ++ cur) rest.
Proof.
  revert cur. induction w as [|a w IH]; intros cur Hw; [reflexivity|].
  simpl in Hw. apply andb_true_iff in Hw. destruct Hw as [Ha Hw].
  simpl. apply negb_true_iff in Ha. rewrite Ha.
  rewrite IH by exact Hw. simpl. rewrite <- app_assoc. reflexivity.
Qed.

Lemma split_one_word (w : str) : word w -> pystr.split w = [w].
Proof.
  intros [Hne Hw]. unfold pystr.split.
  rewrite <- (app_nil_r w) at 1. rewrite split_from_word by exact Hw.
  rewrite app_nil_r. simpl.
  destruct (rev w) eqn:E.
  - apply (f_equal (@rev N)) in E. rewrite rev_involutive in E.
    simpl in E. congruence.
  - rewrite <- E, rev_involutive. reflexivity.
Qed.

(** Words joined by single spaces split back into the same words. *)
Lemma split_join (ws : list str) :
  Forall word ws -> pystr.split (pystr.join (py " ") ws) = ws.
Proof.
  induction ws as [|w ws IH]; intros Hall; [reflexivity|].
  inversion Hall as [|? ? Hw Hrest]; subst.
  destruct ws as [|w2 ws]; [apply split_one_word; exact Hw|].
  change (pystr.join (py " ") (w :: w2 :: ws))
    with (w ++ 32%N :: pystr.join (py " ") (w2 :: ws)).
  destruct Hw as [Hne Hw]. unfold pystr.split.
  rewrite split_from_word by exact Hw. rewrite app_nil_r. simpl.
  destruct (rev w) eqn:E.
  - apply (f_equal (@rev N)) in E. rewrite rev_involutive in E.
    simpl in E. congruence.
  - rewrite <- E, rev_involutive. f_equal. apply IH. exact Hrest.
Qed.

Lemma split_gives_words (s : str) : Forall word (pystr.split s).
Proof. apply pystr_facts.split_words. Qed.

Lemma all_words_are_words (texts : list str) : Forall word (all_words texts).
Proof.
  unfold all_words. induction texts as [|t texts IH]; simpl.
  - constructor.
  - apply Forall_app. split; [apply split_gives_words | exact IH].
Qed.

(** *** One call *)

Lemma add_text_config (self : TranscriptBuffer) (text : str) :
  buffer_size (add_text self text).1 = buffer_size self /\
  overlap (add_text self text).1 = overlap self.
Proof.
  unfold add_text. simpl.
  destruct (buffer_size self <=? _); split; reflexivity.
Qed.

(** One call moves the buffer along the stream: either nothing is
    emitted, or the next window is and the position advances. *)
Lemma add_text_tracks (self : TranscriptBuffer) (W : list str) (k : nat)
    (text : str) :
  0 <= overlap self < buffer_size self ->
  tracks self W k ->
  let W' := W ++ pystr.split text in
  ((add_text self text).2 = None /\ tracks (add_text self text).1 W' k) \/
  ((add_text self text).2 = Some (pystr.join (py " ") (window self k W')) /\
   tracks (add_text self text).1 W' (S k) /\
   (k * stride self + capacity self <= length W')%nat).
Proof.
  intros Hcfg (Hbuf & Hle & Htot & Hk) W'.
  assert (Hpend : buffer self ++ pystr.split text = drop (k * stride self) W').
  { subst W'. rewrite Hbuf, drop_app_le by exact Hle. reflexivity. }
  destruct (Z_lt_le_dec
              (Z.of_nat (length (buffer self ++ pystr.split text)))
              (buffer_size self)) as [Hlt|Hge].
  - left. rewrite transcript_buffer_spec.add_text_below by exact Hlt.
    simpl. split; [reflexivity|]. unfold tracks, stride. simpl.
    fold (stride self). rewrite Hpend. subst W'.
    rewrite length_app, Htot. repeat split; try lia; try exact Hk.
  - right. rewrite transcript_buffer_spec.add_text_full by lia. simpl.
    assert (Hlen : (k * stride self + capacity self <= length W')%nat).
    { rewrite Hpend, length_drop in Hge. unfold capacity. lia. }
    split; [|split; [|exact Hlen]].
    + unfold window, capacity. rewrite Hpend. reflexivity.
    + unfold tracks, stride. simpl. fold (stride self).
      rewrite Hpend, drop_drop.
      assert (Hs : (stride self <= capacity self)%nat)
        by (unfold stride, capacity; lia).
      subst W'. rewrite length_app in *.
      repeat split; try lia.
      f_equal. lia.
Qed.

(** A window that lies inside the stream is not changed by what comes
    later. *)
Lemma window_stable (self : TranscriptBuffer) (i : nat) (W more : list str) :
  (i * stride self + capacity self <= length W)%nat ->
  window self i (W ++ more) = window self i W.
Proof.
  intros Hlen. unfold window.
  rewrite drop_app_le by lia. rewrite take_app_le; [reflexivity|].
  rewrite length_drop. lia.
Qed.

(** *** A run of calls *)

Lemma add_texts_config (texts : list str) (self : TranscriptBuffer) :
  buffer_size (add_texts self texts).1 = buffer_size self /\
  overlap (add_texts self texts).1 = overlap self.
Proof.
  revert self. induction texts as [|t texts IH]; intros self; [auto|].
  simpl. destruct (add_text self t) as [self1 r] eqn:E1.
  destruct (add_texts self1 texts) as [self2 rs] eqn:E2. simpl.
  specialize (IH self1). rewrite E2 in IH. simpl in IH.
  pose proof (add_text_config self t) as Hc. rewrite E1 in Hc. simpl in Hc.
  destruct IH as [-> ->]. exact Hc.
Qed.

Lemma add_texts_tracks (texts : list str) (self : TranscriptBuffer)
    (W : list str) (k : nat) :
  0 <= overlap self < buffer_size self ->
  tracks self W k ->
  let res := add_texts self texts in
  let W' := W ++ all_words texts in
  tracks res.1 W' (k + length (emitted res.2)) /\
  forall i c, emitted res.2 !! i = Some c ->
              c = pystr.join (py " ") (window self (k + i) W') /\
              ((k + i) * stride self + capacity self <= length W')%nat.
Proof.
  revert self W k. induction texts as [|t texts IH]; intros self W k Hcfg Htr.
  - simpl. unfold all_words. simpl. rewrite app_nil_r, Nat.add_0_r.
    split; [exact Htr|]. intros i c Hi. discriminate Hi.
  - cbv zeta. simpl add_texts.
    destruct (add_text self t) as [self1 r] eqn:E1.
    destruct (add_texts self1 texts) as [self2 rs] eqn:E2. simpl fst; simpl snd.
    pose proof (add_text_config self t) as [Hsz Hov]. rewrite E1 in Hsz, Hov.
    simpl in Hsz, Hov.
    assert (Hcfg1 : 0 <= overlap self1 < buffer_size self1)
      by (rewrite Hsz, Hov; exact Hcfg).
    assert (Hst : stride self1 = stride self)
      by (unfold stride; rewrite Hsz, Hov; reflexivity).
    assert (Hcap : capacity self1 = capacity self)
      by (unfold capacity; rewrite Hsz; reflexivity).
    assert (HW : W ++ all_words (t :: texts)
                 = (W ++ pystr.split t) ++ all_words texts)
      by (unfold all_words; simpl; rewrite app_assoc; reflexivity).
    rewrite HW.
    pose proof (add_text_tracks self W k t Hcfg Htr) as Hstep.
    cbv zeta in Hstep. rewrite E1 in Hstep. simpl in Hstep.
    destruct Hstep as [[-> Htr1] | (-> & Htr1 & Hlen)].
    + specialize (IH self1 (W ++ pystr.split t) k Hcfg1 Htr1).
      cbv zeta in IH. rewrite E2 in IH. cbn [fst snd] in IH.
      destruct IH as [IHt IHc].
      change (emitted (None :: rs)) with (emitted rs).
      split; [exact IHt|].
      intros i c Hi. specialize (IHc i c Hi).
      unfold window in *. rewrite <- Hst, <- Hcap. exact IHc.
    + specialize (IH self1 (W ++ pystr.split t) (S k) Hcfg1 Htr1).
      cbv zeta in IH. rewrite E2 in IH. cbn [fst snd] in IH.
      destruct IH as [IHt IHc].
      change (emitted (Some ?c :: rs)) with (c :: emitted rs).
      split.
      * replace (k + length (_ :: emitted rs))%nat
          with (S k + length (emitted rs))%nat by (simpl; lia).
        exact IHt.
      * intros [|i] c Hi.
        -- simpl in Hi. injection Hi as <-. rewrite Nat.add_0_r.
           rewrite (window_stable self k (W ++ pystr.split t)
                      (all_words texts) Hlen).
           split; [reflexivity|]. rewrite length_app. lia.
        -- simpl in Hi. specialize (IHc i c Hi).
           replace (k + S i)%nat with (S k + i)%nat by lia.
           unfold window in *. rewrite <- Hst, <- Hcap. exact IHc.
Qed.

Lemma fresh_tracks (cap ov : Z) : tracks (fresh cap ov) [] 0.
Proof. unfold tracks, fresh. simpl. repeat split; lia. Qed.

(** *** The stream as a whole *)

(** X1. Feeding texts to a freshly built buffer with
    [0 <= overlap < capacity] cuts the stream of their words into
    sliding windows: the [i]-th chunk emitted is the [capacity] words
    starting at word [i * (capacity - overlap)] of the whole stream,
    joined by single spaces, so consecutive chunks share [overlap]
    words; each chunk lies inside the stream and splits back into
    exactly those [capacity] words. *)
Theorem chunks_are_sliding_windows (cap ov : Z) (texts : list str) :
  0 <= ov < cap ->
  let self := fresh cap ov in
  let chunks := emitted (add_texts self texts).2 in
  forall i c, chunks !! i = Some c ->
    c = pystr.join (py " ") (window self i (all_words texts)) /\
    pystr.split c = window self i (all_words texts) /\
    length (pystr.split c) = Z.to_nat cap /\
    (i * Z.to_nat (cap - ov) + Z.to_nat cap <= length (all_words texts))%nat.
Proof.
  intros Hcfg self chunks i c Hi.
  destruct (add_texts_tracks texts self [] 0 Hcfg (fresh_tracks cap ov))
    as [_ Hc].
  destruct (Hc i c Hi) as [Hw Hlen]. simpl in Hw, Hlen.
  assert (Hsplit : pystr.split c = window self i (all_words texts)).
  { rewrite Hw. apply split_join. unfold window.
    apply Forall_take, Forall_drop, all_words_are_words. }
  split; [exact Hw|]. split; [exact Hsplit|]. split; [|exact Hlen].
  rewrite Hsplit. unfold window. rewrite length_take, length_drop.
  unfold capacity, stride in *. simpl in *. lia.
Qed.

Lemma chunks_are_sliding_windows_witness :
  emitted (add_texts (fresh 3 1) [py "a b"; py "c d e f"; py "g"]).2
  = [py "a b c"; py "c d e"] /\
  py "c d e" = pystr.join (py " ")
                 (window (fresh 3 1) 1
                    (all_words [py "a b"; py "c d e f"; py "g"])).
Proof.
  split; [vm_compute; reflexivity|].
  apply (chunks_are_sliding_windows 3 1 [py "a b"; py "c d e f"; py "g"]
           ltac:(lia) 1%nat (py "c d e")).
  vm_compute. reflexivity.
Defined.

(** X2. After any run of [add_text] calls on a freshly built buffer with
    [0 <= overlap < capacity], the pending words are the stream from
    word [k * (capacity - overlap)] on, [k] being the number of chunks
    emitted, and the statistics balance: the words processed are the
    words still buffered plus [capacity - overlap] for every chunk
    generated. *)
Theorem stats_balance (cap ov : Z) (texts : list str) :
  0 <= ov < cap ->
  let self := (add_texts (fresh cap ov) texts).1 in
  let k := length (emitted (add_texts (fresh cap ov) texts).2) in
  buffer self = drop (k * Z.to_nat (cap - ov)) (all_words texts) /\
  get_stats self =
    [ ("total_words_processed", Z.of_nat (length (all_words texts)));
      ("chunks_generated", Z.of_nat k);
      ("current_buffer_size", Z.of_nat (length (buffer self)));
      ("buffer_capacity", cap) ]%string /\
  Z.of_nat (length (all_words texts))
  = Z.of_nat (length (buffer self)) + Z.of_nat k * (cap - ov).
Proof.
  intros Hcfg self k.
  destruct (add_texts_tracks texts (fresh cap ov) [] 0 Hcfg
              (fresh_tracks cap ov)) as [Htr _].
  cbv zeta in Htr. simpl in Htr. fold self in Htr. fold k in Htr.
  destruct Htr as (Hbuf & Hle & Htot & Hk).
  destruct (add_texts_config texts (fresh cap ov)) as [Hsz Hov].
  fold self in Hsz, Hov. simpl in Hsz, Hov.
  assert (Hst : stride self = Z.to_nat (cap - ov))
    by (unfold stride; rewrite Hsz, Hov; reflexivity).
  rewrite Hst in Hbuf, Hle.
  split; [exact Hbuf|]. split.
  - unfold get_stats. rewrite Htot, Hk, Hsz. reflexivity.
  - rewrite Hbuf, length_drop. lia.
Qed.

Lemma stats_balance_witness :
  List.map py ["e"; "f"; "g"]%string
  = drop (2 * Z.to_nat (3 - 1))
         (all_words [py "a b"; py "c d e f"; py "g"]) /\
  buffer (add_texts (fresh 3 1) [py "a b"; py "c d e f"; py "g"]).1
  = drop (length (emitted (add_texts (fresh 3 1)
                             [py "a b"; py "c d e f"; py "g"]).2)
          * Z.to_nat (3 - 1))
         (all_words [py "a b"; py "c d e f"; py "g"]).
Proof.
  split; [vm_compute; reflexivity|].
  apply (stats_balance 3 1 [py "a b"; py "c d e f"; py "g"]). lia.
Defined.

(** X3. When the pending words of a buffer are words (as [add_text]
    stores them) and [0 <= overlap < capacity], a chunk returned by
    [add_text] splits back into exactly [capacity] words, the first
    [capacity] pending ones; and the words then pending are words
    again. *)
Theorem chunk_splits_back (self : TranscriptBuffer) (text chunk : str) :
  0 <= overlap self < buffer_size self ->
  Forall word (buffer self) ->
  (add_text self text).2 = Some chunk ->
  pystr.split chunk
    = take (capacity self) (buffer self ++ pystr.split text) /\
  length (pystr.split chunk) = capacity self /\
  Forall word (buffer (add_text self text).1).
Proof.
  intros Hcfg Hw Hemit.
  assert (Hall : Forall word (buffer self ++ pystr.split text))
    by (apply Forall_app; split; [exact Hw | apply split_gives_words]).
  destruct (Z_lt_le_dec
              (Z.of_nat (length (buffer self ++ pystr.split text)))
              (buffer_size self)) as [Hlt|Hge].
  - rewrite transcript_buffer_spec.add_text_below in Hemit by exact Hlt.
    discriminate.
  - rewrite transcript_buffer_spec.add_text_full in * by lia.
    simpl in *. injection Hemit as <-. fold (capacity self).
    rewrite split_join by (apply Forall_take; exact Hall).
    split; [reflexivity|]. split.
    + rewrite length_take. unfold capacity. lia.
    + apply Forall_drop. exact Hall.
Qed.

Lemma chunk_splits_back_witness :
  pystr.split (py "a b c") = List.map py ["a"; "b"; "c"]%string.
Proof.
  pose proof (chunk_splits_back
    {| buffer_size := 3; overlap := 1; buffer := [py "a"];
       total_words := 1; chunks_generated := 0 |}
    (py " b  c d") (py "a b c")) as H.
  destruct H as [H _].
  - simpl. lia.
  - repeat constructor; discriminate.
  - vm_compute. reflexivity.
  - rewrite H. vm_compute. reflexivity.
Defined.

(** X4. Flushing: [get_remaining] on a buffer with pending words
    returns them joined by single spaces and empties the buffer; on an
    empty buffer it returns [None] and changes nothing. It never touches
    the counters or the configuration, and a second flush right after
    always returns [None]. When the pending words are words, the
    flushed text splits back into them. *)
Theorem flush_once (self : TranscriptBuffer) :
  let first := get_remaining self in
  let second := get_remaining first.1 in
  buffer first.1 = [] /\
  total_words first.1 = total_words self /\
  chunks_generated first.1 = chunks_generated self /\
  buffer_size first.1 = buffer_size self /\
  overlap first.1 = overlap self /\
  second = (first.1, None) /\
  (buffer self = [] -> first = (self, None)) /\
  (buffer self <> [] ->
   first.2 = Some (pystr.join (py " ") (buffer self))) /\
  (Forall word (buffer self) ->
   forall t, first.2 = Some t -> pystr.split t = buffer self).
Proof.
  cbv zeta. unfold get_remaining.
  destruct (buffer self) as [|w ws] eqn:E; simpl.
  - rewrite E. repeat split; try reflexivity; try congruence.
  - repeat split; try reflexivity; try congruence.
    intros Hw t [= <-]. exact (split_join (w :: ws) Hw).
Qed.

Lemma flush_once_witness :
  pystr.split (pystr.join (py " ") [py "x"; py "y"]) = [py "x"; py "y"].
Proof.
  pose proof (flush_once
    {| buffer_size := 3; overlap := 1; buffer := [py "x"; py "y"];
       total_words := 2; chunks_generated := 0 |}) as H.
  cbv zeta in H. destruct H as (_ & _ & _ & _ & _ & _ & _ & _ & H).
  apply H.
  - repeat constructor; discriminate.
  - reflexivity.
Defined.

(** X5. [clear] after any run of [add_text] calls, flushed or not, gives
    the buffer as it was built: same capacity and overlap, nothing
    pending, both counters zero. *)
Theorem clear_restores (self : TranscriptBuffer) (texts : list str) :
  let used := (add_texts self texts).1 in
  clear used = fresh (buffer_size self) (overlap self) /\
  clear (get_remaining used).1 = fresh (buffer_size self) (overlap self) /\
  clear (fresh (buffer_size self) (overlap self))
  = fresh (buffer_size self) (overlap self).
Proof.
  cbv zeta. destruct (add_texts_config texts self) as [Hsz Hov].
  split; [|split].
  - unfold clear, fresh. rewrite Hsz, Hov. reflexivity.
  - unfold clear, fresh, get_remaining.
    destruct (buffer (add_texts self texts).1); simpl;
      rewrite Hsz, Hov; reflexivity.
  - reflexivity.
Qed.

End buffer_stream_spec.

(** ** The pipeline over a whole session *)

Module pipeline_run_spec.

Import realtime_pipeline.
Import pipeline_defs.
Import pipeline_spec.
Import pipeline_run_defs.

Lemma record_chunk_merged p c s ents :
  all_entities p = merged_from (chunk_summaries p) ->
  all_entities (record_chunk p c s ents)
  = merged_from (chunk_summaries (record_chunk p c s ents)).
Proof.
  intros Hm. unfold merged_from in *. simpl.
  rewrite List.map_app, foldl_app, <- Hm. reflexivity.
Qed.

(** X6. In every state a session reaches, the merged entity table is
    what merging the entities of the recorded chunk results, in order,
    into an empty table gives: nothing is merged that is not recorded,
    and nothing recorded is left out. (Callbacks are taken not to modify
    the dictionaries they are handed.) *)
Theorem entities_match_chunks (self : collaborators) (w : world) :
  reachable self w ->
  all_entities w.1 = merged_from (chunk_summaries w.1).
Proof.
  induction 1 as [b|w text is_final _ IH|w _ IH].
  - reflexivity.
  - apply (process_text_async_keeps
             (fun p => all_entities p = merged_from (chunk_summaries p))).
    + split; [intros p b Hp; exact Hp|].
      intros p c s ents. apply record_chunk_merged.
    + exact IH.
  - reflexivity.
Qed.

Lemma entities_match_chunks_witness :
  all_entities (process_text_async echo (py "a b c") true
                  (small_pipeline, [])).1.1
  = merged_from (chunk_summaries
                   (process_text_async echo (py "a b c") true
                      (small_pipeline, [])).1.1).
Proof.
  apply (entities_match_chunks echo).
  apply reach_process. apply reach_init.
Defined.

(** X7. The transcript parts are the texts of all calls made, in call
    order, whether a call was final or not and whether it returned or
    raised. *)
Theorem transcript_is_call_log (self : collaborators)
    (calls : list (str * bool)) (w : world) :
  complete_transcript (run_calls self calls w).1
  = complete_transcript w.1 ++ List.map fst calls.
Proof.
  unfold run_calls. revert w.
  induction calls as [|[text fin] calls IH]; intros w.
  - simpl. rewrite app_nil_r. reflexivity.
  - cbn [foldl List.map fst snd]. rewrite IH.
    rewrite process_text_async_transcript, <- app_assoc. reflexivity.
Qed.

(** X8. A call that is not final and whose words do not fill the buffer
    reaches no collaborator: it returns normally, appends the text to
    the transcript parts, buffers the words, and leaves chunk results,
    merged entities and the trace of outside calls as they were. *)
Theorem quiet_call (self : collaborators) (text : str) (w : world) :
  Z.of_nat (length (transcript_buffer.buffer (buffer w.1) ++ pystr.split text))
    < transcript_buffer.buffer_size (buffer w.1) ->
  let out := process_text_async self text false w in
  out.2 = Ok tt /\
  out.1.2 = w.2 /\
  chunk_summaries out.1.1 = chunk_summaries w.1 /\
  all_entities out.1.1 = all_entities w.1 /\
  complete_transcript out.1.1 = complete_transcript w.1 ++ [text] /\
  transcript_buffer.buffer (buffer out.1.1)
  = transcript_buffer.buffer (buffer w.1) ++ pystr.split text.
Proof.
  intros Hlt out. subst out.
  rewrite process_text_async_unfold. unfold fed.
  rewrite transcript_buffer_spec.add_text_below by exact Hlt.
  simpl. repeat split; reflexivity.
Qed.

Lemma quiet_call_witness :
  (process_text_async unavailable (py "a") false (small_pipeline, [])).2
  = Ok tt.
Proof.
  apply (quiet_call unavailable (py "a") (small_pipeline, [])).
  vm_compute. reflexivity.
Defined.

Lemma get_remaining_empties (b : transcript_buffer.TranscriptBuffer) :
  transcript_buffer.buffer (transcript_buffer.get_remaining b).1 = [].
Proof.
  unfold transcript_buffer.get_remaining.
  destruct (transcript_buffer.buffer b) eqn:E; simpl; [exact E|reflexivity].
Qed.

Lemma get_remaining_config (b : transcript_buffer.TranscriptBuffer) :
  transcript_buffer.buffer_size (transcript_buffer.get_remaining b).1
  = transcript_buffer.buffer_size b /\
  transcript_buffer.overlap (transcript_buffer.get_remaining b).1
  = transcript_buffer.overlap b.
Proof.
  unfold transcript_buffer.get_remaining.
  destruct (transcript_buffer.buffer b); split; reflexivity.
Qed.

(** What [finalize] keeps, given that it holds once the buffer is
    flushed and recording a chunk does not disturb it. *)
Lemma finalize_after_flush (I : Pipeline -> Prop) self w :
  (forall p c s ents, I p -> I (record_chunk p c s ents)) ->
  I (set_buffer (transcript_buffer.get_remaining (buffer w.1)).1 w.1) ->
  I (finalize self w).1.1.
Proof.
  intros Hrec Hflush. unfold finalize. unfold bind at 1.
  unfold buffer_get_remaining.
  destruct (transcript_buffer.get_remaining (buffer w.1)) as [b r].
  simpl in Hflush.
  apply (keeps_bind I); [apply process_if_keeps, Hrec| |exact Hflush].
  intros _. apply keeps_bind; [|intros; apply keeps_ret].
  intros w' Hw'. rewrite final_summary_state. exact Hw'.
Qed.

(** X9. When a call with [is_final=True] returns, nothing is left in
    the buffer: every word fed to the session has been part of a chunk
    handed to the collaborators or was dropped from the front by an
    emission. *)
Theorem final_call_drains (self : collaborators) (text : str) (w : world) :
  (process_text_async self text true w).2 = Ok tt ->
  transcript_buffer.buffer
    (buffer (process_text_async self text true w).1.1) = [].
Proof.
  rewrite process_text_async_unfold, bind_run.
  destruct (process_if self _ _).2 as [[]|e]; [|discriminate].
  intros _.
  apply (finalize_after_flush
           (fun p => transcript_buffer.buffer (buffer p) = [])).
  - intros p c s ents Hp. exact Hp.
  - simpl. apply get_remaining_empties.
Qed.

Lemma final_call_drains_witness :
  transcript_buffer.buffer
    (buffer (process_text_async echo (py "a b c") true
               (small_pipeline, [])).1.1) = [].
Proof.
  apply (final_call_drains echo (py "a b c") (small_pipeline, [])).
  vm_compute. reflexivity.
Defined.

(** A call keeps the capacity and overlap of the buffer. *)
Lemma process_text_async_configured c o self text is_final w :
  configured c o w.1 ->
  configured c o (process_text_async self text is_final w).1.1.
Proof.
  intros [Hc Ho]. rewrite process_text_async_unfold.
  assert (Hrec : forall p ch s ents,
             configured c o p -> configured c o (record_chunk p ch s ents))
    by (intros p ch s ents Hp; exact Hp).
  apply (keeps_bind (configured c o)).
  - apply process_if_keeps. exact Hrec.
  - intros _. destruct is_final; [|apply keeps_ret].
    intros w' [Hc' Ho']. apply finalize_after_flush; [exact Hrec|].
    destruct (get_remaining_config (buffer w'.1)) as [H1 H2].
    split; simpl; congruence.
  - destruct (buffer_stream_spec.add_text_config (buffer w.1) text)
      as [H1 H2].
    split; simpl; congruence.
Qed.

(** X10. [reset] forgets everything a session did and nothing of how it
    was set up: after any calls, [reset] gives the pipeline as it was
    built around a buffer of the same capacity and overlap, and
    [get_results] then shows no chunk summaries, no entities, no
    transcript parts and zeroed buffer statistics. *)
Theorem reset_restores (self : collaborators) (calls : list (str * bool))
    (w : world) :
  let c := transcript_buffer.buffer_size (buffer w.1) in
  let o := transcript_buffer.overlap (buffer w.1) in
  reset (run_calls self calls w).1
  = pipeline_with (buffer_stream_defs.fresh c o) /\
  get_results (reset (run_calls self calls w).1)
  = [ ("chunk_summaries", RChunkSummaries []);
      ("entities", REntities ∅);
      ("transcript_parts", RTranscriptParts []);
      ("buffer_stats",
       RBufferStats [ ("total_words_processed", 0);
                      ("chunks_generated", 0);
                      ("current_buffer_size", 0);
                      ("buffer_capacity", c) ]) ]%string.
Proof.
  cbv zeta.
  assert (Hcfg : configured (transcript_buffer.buffer_size (buffer w.1))
                            (transcript_buffer.overlap (buffer w.1))
                            (run_calls self calls w).1).
  { generalize (transcript_buffer.buffer_size (buffer w.1)),
               (transcript_buffer.overlap (buffer w.1)),
               (conj eq_refl eq_refl
                  : configured (transcript_buffer.buffer_size (buffer w.1))
                               (transcript_buffer.overlap (buffer w.1)) w.1).
    revert w. induction calls as [|[text fin] calls IH]; intros w c o Hw.
    - exact Hw.
    - simpl. apply IH. apply process_text_async_configured. exact Hw. }
  destruct Hcfg as [Hc Ho].
  assert (Hreset : reset (run_calls self calls w).1
                   = pipeline_with
                       (buffer_stream_defs.fresh
                          (transcript_buffer.buffer_size (buffer w.1))
                          (transcript_buffer.overlap (buffer w.1)))).
  { unfold reset, pipeline_with, transcript_buffer.clear,
      buffer_stream_defs.fresh. rewrite Hc, Ho. reflexivity. }
  split; [exact Hreset|]. rewrite Hreset. reflexivity.
Qed.

Lemma add_text_nothing (b : transcript_buffer.TranscriptBuffer) (text : str) :
  pystr.split text = [] ->
  transcript_buffer.buffer b = [] ->
  pystr.truthy_opt (transcript_buffer.add_text b text).2 = false /\
  transcript_buffer.buffer (transcript_buffer.add_text b text).1 = [].
Proof.
  intros Hsplit Hbuf.
  unfold transcript_buffer.add_text, transcript_buffer._extract_chunk.
  rewrite Hsplit, Hbuf. cbn [app length transcript_buffer.buffer
    transcript_buffer.buffer_size transcript_buffer.overlap].
  destruct (_ <=? _); cbn [fst snd transcript_buffer.buffer].
  - rewrite transcript_buffer_spec.popleft_loop_nil.
    unfold pystr.slice_to. destruct (0 <=? _); rewrite take_nil;
      split; reflexivity.
  - split; reflexivity.
Qed.

Lemma set_buffer_same (p : Pipeline) : set_buffer (buffer p) p = p.
Proof. destruct p; reflexivity. Qed.

(** With nothing buffered and at most one chunk result, the final part
    of a call reaches no collaborator. *)
Lemma finalize_nothing self (w : world) :
  transcript_buffer.buffer (buffer w.1) = [] ->
  (length (chunk_summaries w.1) <= 1)%nat ->
  finalize self w = (w, Ok tt).
Proof.
  intros Hbuf Hlen. unfold finalize. unfold bind at 1.
  unfold buffer_get_remaining, transcript_buffer.get_remaining.
  rewrite Hbuf. cbn [fst snd]. rewrite set_buffer_same.
  unfold bind at 1. cbn [process_if]. unfold ret at 1.
  unfold bind. destruct w as [p tr]. cbn [fst snd] in *.
  rewrite (final_summary_few self (p, tr)) by exact Hlen. reflexivity.
Qed.

(** X11. A final call whose text has no words, on a session with
    nothing buffered and no chunk results, reaches no collaborator and
    returns normally: no chunk result is produced, and the consolidated
    summary computed is the empty string. This holds for every buffer
    configuration. *)
Theorem empty_session_final (self : collaborators) (text : str) (w : world) :
  pystr.split text = [] ->
  transcript_buffer.buffer (buffer w.1) = [] ->
  chunk_summaries w.1 = [] ->
  let out := process_text_async self text true w in
  out.2 = Ok tt /\
  out.1.2 = w.2 /\
  chunk_summaries out.1.1 = [] /\
  _generate_final_summary self out.1 = (out.1, Ok []).
Proof.
  intros Hsplit Hbuf Hchunks out.
  destruct (add_text_nothing (buffer w.1) text Hsplit Hbuf)
    as [Hfalsy Hempty].
  assert (Hif : forall w', process_if self
                  (transcript_buffer.add_text (buffer w.1) text).2 w'
                = (w', Ok tt)).
  { intros w'. destruct (transcript_buffer.add_text (buffer w.1) text).2
      as [c|]; simpl in *; [rewrite Hfalsy|]; reflexivity. }
  assert (Hout : out = ((fed w.1 text, w.2), Ok tt)).
  { subst out. rewrite process_text_async_unfold, bind_run, Hif.
    cbn [fst snd]. apply finalize_nothing.
    - exact Hempty.
    - cbn [fst]. unfold fed. simpl. rewrite Hchunks. simpl. lia. }
  assert (Hc : chunk_summaries (fed w.1 text) = [])
    by (unfold fed; simpl; exact Hchunks).
  rewrite Hout. cbn [fst snd].
  repeat split; try reflexivity.
  - exact Hc.
  - rewrite final_summary_few by (cbn [fst]; rewrite Hc; simpl; lia).
    unfold all_summaries. cbn [fst]. rewrite Hc. reflexivity.
Qed.

Lemma empty_session_final_witness :
  (process_text_async unavailable (py "  ") true (small_pipeline, [])).2
  = Ok tt.
Proof.
  apply (empty_session_final unavailable (py "  ") (small_pipeline, []));
    reflexivity.
Defined.

End pipeline_run_spec.

(** ** What a match consists of *)

Module re_sound.

Import re.
Import re_defs.

Lemma lazy_star_sound {R} (p : N -> bool) (k : str -> option R) (s : str)
    (x : R) :
  lazy_star p k s = Some x ->
  exists s1 s2, s = s1 ++ s2 /\ forallb p s1 = true /\ k s2 = Some x.
Proof.
  induction s as [|a s IH]; simpl.
  - destruct (k []) eqn:E; [|discriminate].
    intros [= <-]. exists [], []. auto.
  - destruct (k (a :: s)) eqn:E.
    + intros [= <-]. exists [], (a :: s). auto.
    + destruct (p a) eqn:Ep; [|discriminate].
      intros H. destruct (IH H) as (s1 & s2 & -> & Hp & Hk).
      exists (a :: s1), s2. simpl. rewrite Ep. auto.
Qed.

Lemma greedy_star_sound {R} (p : N -> bool) (k : str -> option R) (s : str)
    (x : R) :
  greedy_star p k s = Some x ->
  exists s1 s2, s = s1 ++ s2 /\ forallb p s1 = true /\ k s2 = Some x.
Proof.
  revert x. induction s as [|a s IH]; intros x; simpl.
  - intros H. exists [], []. auto.
  - destruct (p a) eqn:Ep.
    + destruct (greedy_star p k s) eqn:E.
      * intros [= <-]. destruct (IH _ eq_refl) as (s1 & s2 & -> & Hp & Hk).
        exists (a :: s1), s2. simpl. rewrite Ep. auto.
      * intros H. exists [], (a :: s). auto.
    + intros H. exists [], (a :: s). auto.
Qed.

Lemma group_app_l (added c : captures) (i : nat) :
  is_Some (group added i) -> group (added ++ c) i = group added i.
Proof.
  induction added as [|[j v] added IH]; simpl.
  - intros [? H]. discriminate H.
  - destruct (Nat.eqb i j); [reflexivity | exact IH].
Qed.

Lemma group_app_is_Some (a1 a2 : captures) (i : nat) :
  is_Some (group a1 i) \/ is_Some (group a2 i) ->
  is_Some (group (a1 ++ a2) i).
Proof.
  induction a1 as [|[j v] a1 IH]; simpl.
  - intros [[? H]|H]; [discriminate H | exact H].
  - destruct (Nat.eqb i j); [eauto | exact IH].
Qed.

Lemma group_In (c : captures) (i : nat) (v : str) :
  group c i = Some v -> In (i, v) c.
Proof.
  induction c as [|[j u] c IH]; simpl; [discriminate|].
  destruct (Nat.eqb i j) eqn:E.
  - apply Nat.eqb_eq in E. intros [= ->]. left. congruence.
  - intros H. right. apply IH. exact H.
Qed.

(** When the matcher succeeds, the pattern consumed a string of its
    language from the front of the input, the continuation succeeded on
    the rest, and the groups added are those of the pattern. *)
Lemma groups_ok_nil (r : regex) : sure_groups r = [] -> groups_ok r [].
Proof.
  intros Hs. split; [constructor|]. rewrite Hs. intros i [].
Qed.

Lemma groups_ok_weaken (r r' : regex) (added : captures) :
  (forall i v, group_lang r i v -> group_lang r' i v) ->
  sure_groups r' = [] ->
  groups_ok r added -> groups_ok r' added.
Proof.
  intros Hg Hs [Hall _]. split.
  - eapply Forall_impl; [exact Hall|]. intros [i v]. apply Hg.
  - rewrite Hs. intros i [].
Qed.

Lemma run_sound (r : regex) :
  forall k s c x,
    run r k s c = Some x ->
    exists s1 s2 added,
      s = s1 ++ s2 /\ lang r s1 /\ groups_ok r added /\
      k s2 (added ++ c) = Some x.
Proof.
  induction r as [|p|r1 IH1 r2 IH2|r1 IH1 r2 IH2|r1 IH1|lz p|i r1 IH1|r1 IH1|];
    intros k s c x H; simpl in H.
  - exists [], s, [].
    split; [reflexivity|]. split; [reflexivity|].
    split; [apply groups_ok_nil; reflexivity | exact H].
  - destruct s as [|a s]; [discriminate|].
    destruct (p a) eqn:Ep; [|discriminate].
    exists [a], s, [].
    split; [reflexivity|]. split; [simpl; eauto|].
    split; [apply groups_ok_nil; reflexivity | exact H].
  - apply IH1 in H. destruct H as (s1 & s' & a1 & -> & Hl1 & [Hg1 Hs1] & H).
    apply IH2 in H. destruct H as (s2 & s3 & a2 & -> & Hl2 & [Hg2 Hs2] & H).
    exists (s1 ++ s2), s3, (a2 ++ a1).
    split; [rewrite app_assoc; reflexivity|].
    split; [simpl; eauto|]. split.
    + split.
      * apply Forall_app. split.
        -- eapply Forall_impl; [exact Hg2|]. simpl. auto.
        -- eapply Forall_impl; [exact Hg1|]. simpl. auto.
      * intros i Hi. simpl in Hi. apply in_app_or in Hi.
        apply group_app_is_Some. destruct Hi; [right|left]; auto.
    + rewrite <- app_assoc. exact H.
  - destruct (run r1 k s c) eqn:E.
    + injection H as ->. apply IH1 in E.
      destruct E as (s1 & s2 & a1 & -> & Hl & Hg & E).
      exists s1, s2, a1.
      split; [reflexivity|]. split; [simpl; auto|]. split; [|exact E].
      apply (groups_ok_weaken r1); simpl; auto.
    + apply IH2 in H.
      destruct H as (s1 & s2 & a1 & -> & Hl & Hg & H).
      exists s1, s2, a1.
      split; [reflexivity|]. split; [simpl; auto|]. split; [|exact H].
      apply (groups_ok_weaken r2); simpl; auto.
  - destruct (run r1 k s c) eqn:E.
    + injection H as ->. apply IH1 in E.
      destruct E as (s1 & s2 & a1 & -> & Hl & Hg & E).
      exists s1, s2, a1.
      split; [reflexivity|]. split; [simpl; auto|]. split; [|exact E].
      apply (groups_ok_weaken r1); simpl; auto.
    + exists [], s, [].
      split; [reflexivity|]. split; [simpl; auto|].
      split; [apply groups_ok_nil; reflexivity | exact H].
  - assert (Hs : exists s1 s2, s = s1 ++ s2 /\ forallb p s1 = true
                               /\ k s2 c = Some x).
    { destruct lz; [apply lazy_star_sound in H | apply greedy_star_sound in H];
        exact H. }
    destruct Hs as (s1 & s2 & -> & Hp & Hk).
    exists s1, s2, [].
    split; [reflexivity|]. split; [exact Hp|].
    split; [apply groups_ok_nil; reflexivity | exact Hk].
  - apply IH1 in H. destruct H as (s1 & s2 & a1 & -> & Hl & [Hg Hs] & H).
    rewrite length_app in H.
    replace (length s1 + length s2 - length s2)%nat with (length s1) in H
      by lia.
    rewrite take_app_length in H.
    exists s1, s2, ((i, s1) :: a1).
    split; [reflexivity|]. split; [exact Hl|]. split; [|exact H].
    split.
    + constructor; [simpl; auto|].
      eapply Forall_impl; [exact Hg|]. simpl. auto.
    + intros j [<-|Hj]; simpl.
      * rewrite Nat.eqb_refl. eauto.
      * destruct (Nat.eqb j i); [eauto | apply Hs; exact Hj].
  - destruct (run r1 _ s c) as [[rest c1]|] eqn:E; [|discriminate].
    apply IH1 in E. destruct E as (s1 & s2 & a1 & Hs & Hl & Hg & E).
    injection E as _ <-.
    exists [], s, a1.
    split; [reflexivity|]. split; [reflexivity|]. split; [|exact H].
    exact Hg.
  - destruct s; [|discriminate].
    exists [], [], [].
    split; [reflexivity|]. split; [reflexivity|].
    split; [apply groups_ok_nil; reflexivity | exact H].
Qed.

(** The same for a match at the front of the input. *)
Lemma match_at_sound (r : regex) (s rest : str) (c : captures) :
  match_at r s = Some (rest, c) ->
  exists s1, s = s1 ++ rest /\ lang r s1 /\ groups_ok r c.
Proof.
  unfold match_at. intros H. apply run_sound in H.
  destruct H as (s1 & s2 & added & -> & Hl & Hg & H).
  injection H as <- <-. rewrite app_nil_r. eauto.
Qed.

(** Every match that [finditer] reports has the pattern's groups. *)
Lemma finditer_from_groups (r : regex) (fuel : nat) (s : str) :
  Forall (groups_ok r) (finditer_from fuel r s).
Proof.
  revert s. induction fuel as [|fuel IH]; intros s; simpl; [constructor|].
  assert (Hskip : Forall (groups_ok r)
                    match s with [] => [] | _ :: s' => finditer_from fuel r s' end)
    by (destruct s; [constructor | apply IH]).
  destruct (match_at r s) as [[rest c]|] eqn:E; [|exact Hskip].
  apply match_at_sound in E. destruct E as (s1 & _ & _ & Hg).
  constructor; [exact Hg|].
  destruct (length rest <? length s)%nat; [apply IH | exact Hskip].
Qed.

(** A pattern that cannot match at any position finds nothing. *)
Lemma finditer_from_none (r : regex) (fuel : nat) (s : str) :
  (forall pre s', s = pre ++ s' -> match_at r s' = None) ->
  finditer_from fuel r s = [].
Proof.
  revert s. induction fuel as [|fuel IH]; intros s Hnone; [reflexivity|].
  simpl. rewrite (Hnone [] s eq_refl).
  destruct s as [|a s]; [reflexivity|].
  apply IH. intros pre s' ->. apply (Hnone (a :: pre)). reflexivity.
Qed.

End re_sound.

(** ** More on the segmenter *)

Module segmenter_more.

Import segmenter.
Import segmenter_defs.
Import segmenter_more_defs.

(** *** Speaker turns *)

Lemma segments_of_numbered (ms : list re.captures) (n : Z) :
  List.map start_line (segments_of n ms)
  = List.map (fun i => Some (n + Z.of_nat i)) (seq 0 (length ms)).
Proof.
  revert n. induction ms as [|m ms IH]; intros n; [reflexivity|].
  simpl. rewrite IH. f_equal; [f_equal; lia|].
  rewrite <- seq_shift, List.map_map. apply List.map_ext.
  intros i. f_equal. lia.
Qed.

Lemma segments_of_length (ms : list re.captures) (n : Z) :
  length (segments_of n ms) = length ms.
Proof. revert n. induction ms; intros n; simpl; auto. Qed.

(** X12. The segments [segment_by_speaker] returns are numbered in
    [start_line] by their position: 0, 1, 2, ... in the order found. *)
Theorem segments_numbered_in_order (text : str) :
  List.map start_line (segment_by_speaker text)
  = List.map (fun i => Some (Z.of_nat i))
             (seq 0 (length (segment_by_speaker text))).
Proof.
  unfold segment_by_speaker.
  rewrite segments_of_numbered, segments_of_length.
  apply List.map_ext. intros i. f_equal.
Qed.

Lemma lstrip_snoc (l : str) (a : N) :
  pystr.isspace a = false ->
  exists l', pystr.lstrip (l ++ [a]) = l' ++ [a] /\
             forall c, In c l' -> In c l.
Proof.
  intros Ha. induction l as [|x l IH]; simpl.
  - rewrite Ha. exists []. split; [reflexivity | auto].
  - destruct (pystr.isspace x).
    + destruct IH as (l' & Hl & Hin). exists l'. split; [exact Hl|].
      intros c Hc. right. apply Hin. exact Hc.
    + exists (x :: l). split; [reflexivity | auto].
Qed.

(** Stripping keeps a first character that is not whitespace, and adds
    no characters. *)
Lemma strip_keeps_head (a : N) (w : str) :
  pystr.isspace a = false ->
  exists t, pystr.strip (a :: w) = a :: t /\ forall c, In c t -> In c w.
Proof.
  intros Ha. unfold pystr.strip. simpl pystr.lstrip at 2. rewrite Ha.
  simpl rev at 2.
  destruct (lstrip_snoc (rev w) a Ha) as (l' & -> & Hin).
  rewrite rev_app_distr. simpl. exists (rev l'). split; [reflexivity|].
  intros c Hc. apply in_rev in Hc. apply Hin in Hc.
  apply in_rev. exact Hc.
Qed.

Lemma upper_not_space (a : N) : upper a = true -> pystr.isspace a = false.
Proof.
  unfold upper, pystr.isspace. intros H.
  apply andb_true_iff in H. destruct H as [H1 H2].
  apply N.leb_le in H1. apply N.leb_le in H2.
  repeat match goal with
         | |- context [(?x <=? ?y)%N] =>
             destruct (N.leb_spec x y); try lia
         | |- context [(?x =? ?y)%N] =>
             destruct (N.eqb_spec x y); try lia
         end; reflexivity.
Qed.

Lemma pattern_sure_groups : re_defs.sure_groups pattern = [2; 3]%nat.
Proof. reflexivity. Qed.

(** Group 2 of the speaker pattern holds a capital letter followed by
    name characters. *)
Lemma pattern_group_2 (v : str) :
  re_defs.group_lang pattern 2 v ->
  exists a w, v = a :: w /\ upper a = true /\ forallb name_char w = true.
Proof.
  intros H. simpl in H.
  repeat match type of H with
         | _ \/ _ => destruct H as [H|H]
         | _ /\ _ => destruct H as [? H]
         | False => destruct H
         end; try discriminate.
  destruct H as (s1 & s2 & -> & (a & -> & Ha) & H).
  destruct H as (s3 & s4 & -> & H3 & H4).
  destruct H3 as (s5 & s6 & -> & (b & -> & Hb) & H6).
  subst s4.
  exists a, ((([b] ++ s6) ++ [])). split; [reflexivity|]. split; [exact Ha|].
  rewrite app_nil_r. simpl. rewrite Hb. exact H6.
Qed.

Lemma upper_name_char (a : N) : upper a = true -> name_char a = true.
Proof.
  unfold upper, name_char. intros ->. rewrite orb_true_r. reflexivity.
Qed.

(** The speaker computed from a match of the pattern. *)
Lemma speaker_of_match (m : re.captures) :
  re_defs.groups_ok pattern m ->
  speaker_shaped (pystr.strip (default [] (re.group m 2))).
Proof.
  intros [Hall Hsure].
  destruct (Hsure 2%nat) as [v Hv]; [rewrite pattern_sure_groups; simpl; auto|].
  rewrite Hv. simpl.
  apply re_sound.group_In in Hv.
  rewrite List.Forall_forall in Hall. apply Hall in Hv. simpl in Hv.
  apply pattern_group_2 in Hv. destruct Hv as (a & w & -> & Ha & Hw).
  destruct (strip_keeps_head a w (upper_not_space a Ha)) as (t & -> & Hin).
  split; [eauto|]. simpl. rewrite (upper_name_char a Ha). simpl.
  rewrite forallb_forall in *. intros c Hc. apply Hw, Hin, Hc.
Qed.

Lemma segments_of_speakers (ms : list re.captures) (n : Z) :
  Forall (re_defs.groups_ok pattern) ms ->
  Forall (fun seg => speaker_shaped (speaker seg)) (segments_of n ms).
Proof.
  intros Hall. revert n. induction Hall as [|m ms Hm _ IH]; intros n; simpl.
  - constructor.
  - constructor; [simpl; apply speaker_of_match; exact Hm | apply IH].
Qed.

(** X13. Every segment [segment_by_speaker] returns has a speaker that
    is not empty, begins with a capital letter [A-Z] and consists only
    of ASCII letters, whitespace and periods. *)
Theorem speakers_are_shaped (text : str) :
  Forall (fun seg => speaker_shaped (speaker seg)) (segment_by_speaker text).
Proof.
  unfold segment_by_speaker. apply segments_of_speakers.
  apply re_sound.finditer_from_groups.
Qed.

(** What the speaker pattern consumes holds a capital letter and, after
    it, a colon. *)
Lemma pattern_needs (s : str) :
  re_defs.lang pattern s ->
  In 58%N s /\ exists a, In a s /\ upper a = true.
Proof.
  intros H. simpl in H.
  destruct H as (s1 & s2 & -> & _ & H).
  destruct H as (s3 & s4 & -> & H3 & H).
  destruct H3 as (s5 & s6 & -> & (a & -> & Ha) & _).
  destruct H as (s7 & s8 & -> & (c & -> & Hc) & _).
  unfold is_char in Hc. apply N.eqb_eq in Hc. subst c.
  split.
  - apply in_or_app. right. apply in_or_app. right.
    apply in_or_app. left. left. reflexivity.
  - exists a. split; [|exact Ha].
    apply in_or_app. right. apply in_or_app. left.
    apply in_or_app. left. left. reflexivity.
Qed.

Lemma no_match_without (text : str) :
  ~ In 58%N text \/ (forall a, In a text -> upper a = false) ->
  re.finditer pattern text = [].
Proof.
  intros Hno. apply re_sound.finditer_from_none.
  intros pre s' ->.
  destruct (re.match_at pattern s') as [[rest c]|] eqn:E; [|reflexivity].
  exfalso. apply re_sound.match_at_sound in E.
  destruct E as (s1 & -> & Hl & _).
  apply pattern_needs in Hl. destruct Hl as [Hcolon (a & Ha & Hup)].
  destruct Hno as [Hno|Hno].
  - apply Hno. apply in_or_app. right. apply in_or_app. left. exact Hcolon.
  - rewrite Hno in Hup; [discriminate|].
    apply in_or_app. right. apply in_or_app. left. exact Ha.
Qed.

(** X14. A text without a colon, or without a capital letter [A-Z],
    has no speaker turns: [segment_by_speaker] returns the empty list,
    and [segment_by_time] returns the whole text as the single record
    [{"window": "full", "content": text}], whatever the window size. *)
Theorem no_colon_no_segments `{DatetimeLib} (text : str) (window_minutes : Z) :
  ~ In 58%N text \/ (forall a, In a text -> upper a = false) ->
  segment_by_speaker text = [] /\
  segment_by_time text window_minutes = Ok [Full text].
Proof.
  intros Hno.
  assert (Hseg : segment_by_speaker text = [])
    by (unfold segment_by_speaker; rewrite no_match_without by exact Hno;
        reflexivity).
  split; [exact Hseg|].
  unfold segment_by_time. rewrite Hseg. reflexivity.
Qed.

Lemma no_colon_no_segments_witness :
  segment_by_speaker (py "Alice said hello") = [].
Proof.
  apply (@no_colon_no_segments hm_clock (py "Alice said hello") 5).
  left. vm_compute. intuition discriminate.
Defined.

(** *** Time windows *)

Section with_datetime.

Context `{DatetimeLib}.

Lemma flat_app (ws1 ws2 : list time_window) :
  flat (ws1 ++ ws2) = flat ws1 ++ flat ws2.
Proof. unfold flat. rewrite List.map_app, concat_app. reflexivity. Qed.

(** One iteration moves the segment into the windows: nothing already
    placed is touched, the segment comes last, and every closed window
    is a proper one. *)
Lemma loop_body_places (wm : Z) (st st' : loop_state) (seg : TranscriptSegment) :
  loop_body wm st seg = Ok st' ->
  flat (time_windows st') ++ current_window st'
  = (flat (time_windows st) ++ current_window st) ++ [to_dict seg] /\
  current_window st' <> [] /\
  (Forall proper (time_windows st) -> Forall proper (time_windows st')).
Proof.
  assert (Happ : forall st0,
             flat (time_windows (append_current st0 seg))
             ++ current_window (append_current st0 seg)
             = (flat (time_windows st0) ++ current_window st0) ++ [to_dict seg] /\
             current_window (append_current st0 seg) <> [] /\
             (Forall proper (time_windows st0) ->
              Forall proper (time_windows (append_current st0 seg)))).
  { intros st0. simpl. rewrite app_assoc. split; [reflexivity|].
    split; [|auto]. destruct (current_window st0); discriminate. }
  unfold loop_body.
  destruct (timestamp seg) as [ts|]; [|intros [= <-]; apply Happ].
  destruct (pystr.truthy ts); [|intros [= <-]; apply Happ].
  destruct (_parse_timestamp ts) as [t|e].
  - destruct (_ <=? _).
    + intros [= <-]. simpl.
      destruct (current_window st) as [|d ds] eqn:Ec.
      * rewrite app_nil_r. split; [reflexivity|].
        split; [discriminate | auto].
      * rewrite flat_app. unfold flat at 2. simpl. rewrite app_nil_r.
        split; [reflexivity|]. split; [discriminate|].
        intros Hp. apply Forall_app. split; [exact Hp|].
        constructor; [|constructor].
        eexists _, _. split; [reflexivity | discriminate].
    + intros [= <-]. simpl. rewrite app_assoc. split; [reflexivity|].
      split; [|auto]. destruct (current_window st); discriminate.
  - destruct (decide _); [intros [= <-]; apply Happ | discriminate].
Qed.

Lemma loop_places (wm : Z) (segs : list TranscriptSegment)
    (st st' : loop_state) :
  loop wm st segs = Ok st' ->
  flat (time_windows st') ++ current_window st'
  = (flat (time_windows st) ++ current_window st) ++ List.map to_dict segs /\
  (segs <> [] \/ current_window st <> [] -> current_window st' <> []) /\
  (Forall proper (time_windows st) -> Forall proper (time_windows st')).
Proof.
  revert st. induction segs as [|seg segs IH]; intros st; simpl.
  - intros [= <-]. rewrite app_nil_r.
    split; [reflexivity|]. split; [|auto]. intros [Hn|Hc]; congruence.
  - destruct (loop_body wm st seg) as [st1|e] eqn:E; [|discriminate].
    intros Hl. apply loop_body_places in E. destruct E as (E1 & E2 & E3).
    apply IH in Hl. destruct Hl as (H1 & H2 & H3).
    split; [rewrite H1, E1, <- app_assoc; reflexivity|].
    split; [intros _; apply H2; right; exact E2 | auto].
Qed.

(** X15. When [segment_by_time] finds a timestamp it returns windows
    that partition the segments: window after window, the segments are
    exactly those [segment_by_speaker] found, each once and in their
    original order; there is at least one window and no window is
    empty. When it finds none it returns the single record
    [{"window": "full", "content": text}]. *)
Theorem windows_partition_segments (text : str) (window_minutes : Z)
    (ws : list time_window) :
  segment_by_time text window_minutes = Ok ws ->
  if existsb has_timestamp (segment_by_speaker text)
  then flat ws = List.map to_dict (segment_by_speaker text) /\
       ws <> [] /\ Forall proper ws
  else ws = [Full text].
Proof.
  unfold segment_by_time.
  destruct (existsb has_timestamp (segment_by_speaker text)) eqn:Ex.
  - destruct (segment_by_speaker text) as [|seg segs] eqn:Es;
      [discriminate Ex|].
    simpl orb. cbv iota.
    destruct (loop window_minutes _ (seg :: segs)) as [st|e] eqn:El;
      [|discriminate].
    apply loop_places in El. simpl in El. destruct El as (H1 & H2 & H3).
    intros [= <-].
    destruct (current_window st) as [|d ds] eqn:Ec;
      [exfalso; apply H2; [left; discriminate | reflexivity]|].
    split; [|split].
    + rewrite flat_app. unfold flat at 2. simpl. rewrite app_nil_r.
      exact H1.
    + destruct (time_windows st); discriminate.
    + apply Forall_app. split; [apply H3; constructor|].
      constructor; [|constructor].
      eexists _, _. split; [reflexivity | discriminate].
  - rewrite orb_true_r. intros [= <-]. reflexivity.
Qed.

Lemma try_formats_raises (fmts : list string) (ts : str) (e : exn) :
  only_value_errors ->
  try_formats fmts ts = Raise e -> e = PyExc "ValueError".
Proof.
  intros Hv. induction fmts as [|fmt fmts IH]; simpl.
  - intros [= <-]. reflexivity.
  - destruct (strptime ts fmt) as [d|e'] eqn:E.
    + destruct (_ || _); discriminate.
    + destruct (decide _); [exact IH|]. intros [= <-].
      apply (Hv _ _ _ E).
Qed.

Lemma loop_body_returns (wm : Z) (st : loop_state) (seg : TranscriptSegment) :
  only_value_errors -> exists st', loop_body wm st seg = Ok st'.
Proof.
  intros Hv. unfold loop_body.
  destruct (timestamp seg) as [ts|]; [|eauto].
  destruct (pystr.truthy ts); [|eauto].
  destruct (_parse_timestamp ts) as [t|e] eqn:E.
  - destruct (_ <=? _); eauto.
  - apply try_formats_raises in E; [|exact Hv]. subst e.
    rewrite decide_True by reflexivity. eauto.
Qed.

(** X16. When [strptime] fails with [ValueError] only, [segment_by_time]
    never raises: a timestamp that does not parse is not an error; its
    segment stays in the window that is open. *)
Theorem segment_by_time_returns (text : str) (window_minutes : Z) :
  only_value_errors ->
  exists ws, segment_by_time text window_minutes = Ok ws.
Proof.
  intros Hv. unfold segment_by_time.
  destruct (_ || _); [eauto|].
  assert (Hl : forall segs st, exists st',
               loop window_minutes st segs = Ok st').
  { induction segs as [|seg segs IH]; intros st; simpl; [eauto|].
    destruct (loop_body_returns window_minutes st seg Hv) as [st1 ->].
    apply IH. }
  destruct (Hl (segment_by_speaker text)
              {| time_windows := []; current_window := [];
                 window_start := None |}) as [st' ->].
  eauto.
Qed.

Lemma time_only_test (fmt : string) :
  In fmt formats ->
  negb (contains "%" fmt) || negb (contains "Y" fmt)
  = negb (String.eqb fmt iso_format).
Proof.
  intros Hin. unfold formats in Hin. simpl in Hin.
  repeat (destruct Hin as [<-|Hin]; [reflexivity|]). destruct Hin.
Qed.

(** X17. [_parse_timestamp] tries its five formats in order and the
    first that parses decides: a time-only format gives the parsed time
    on today's date, the ISO format the parsed date and time as they
    are. When every format fails with [ValueError], so does
    [_parse_timestamp]. *)
Theorem first_format_wins (ts : str) :
  (forall pre fmt post d,
      formats = pre ++ fmt :: post ->
      Forall (fun f => strptime ts f = Raise (PyExc "ValueError")) pre ->
      strptime ts fmt = Ok d ->
      _parse_timestamp ts
      = Ok (if String.eqb fmt iso_format then d else combine_today d)) /\
  (Forall (fun f => strptime ts f = Raise (PyExc "ValueError")) formats ->
   _parse_timestamp ts = Raise (PyExc "ValueError")).
Proof.
  assert (Hskip : forall pre rest,
             Forall (fun f => strptime ts f = Raise (PyExc "ValueError")) pre ->
             try_formats (pre ++ rest) ts = try_formats rest ts).
  { induction pre as [|f pre IH]; intros rest Hpre; [reflexivity|].
    inversion Hpre as [|? ? Hf Hrest]; subst. simpl. rewrite Hf.
    rewrite decide_True by reflexivity. apply IH. exact Hrest. }
  split.
  - intros pre fmt post d Hsplit Hpre Hd. unfold _parse_timestamp.
    rewrite Hsplit, Hskip by exact Hpre. simpl. rewrite Hd.
    rewrite time_only_test
      by (rewrite Hsplit; apply in_or_app; right; left; reflexivity).
    destruct (String.eqb fmt iso_format); reflexivity.
  - intros Hall. unfold _parse_timestamp.
    rewrite <- (app_nil_r formats), Hskip by exact Hall. reflexivity.
Qed.

End with_datetime.

Lemma windows_partition_segments_witness :
  flat [ Window (py "2024-01-01T10:00:00")
           [ {| d_speaker := py "Ann"; d_text := py "a";
                d_timestamp := Some (py "10:00"); d_start_line := Some 0 |} ];
         Window (py "2024-01-01T10:06:00")
           [ {| d_speaker := py "Cy"; d_text := py "c";
                d_timestamp := Some (py "10:06"); d_start_line := Some 1 |} ] ]
  = List.map to_dict
      (segment_by_speaker (py "[10:00] Ann: a" ++ LF ++ py "[10:06] Cy: c")).
Proof.
  pose proof (@windows_partition_segments hm_clock
                (py "[10:00] Ann: a" ++ LF ++ py "[10:06] Cy: c") 5 _
                ltac:(vm_compute; reflexivity)) as H.
  assert (Hex : existsb has_timestamp
                  (segment_by_speaker
                     (py "[10:00] Ann: a" ++ LF ++ py "[10:06] Cy: c")) = true)
    by (vm_compute; reflexivity).
  rewrite Hex in H. destruct H as [H _]. exact H.
Defined.

Lemma hm_clock_only_value_errors : @only_value_errors hm_clock.
Proof.
  intros s fmt e. simpl.
  destruct (String.eqb fmt "%H:%M"); [destruct (read_hm s)|];
    intros [= <-]; reflexivity.
Qed.

Lemma segment_by_time_returns_witness :
  exists ws,
    @segment_by_time hm_clock (py "[soon] Ann: a" ++ LF ++ py "[10:06] Cy: c") 5
    = Ok ws.
Proof.
  apply (@segment_by_time_returns hm_clock).
  exact hm_clock_only_value_errors.
Defined.

Lemma first_format_wins_witness :
  @_parse_timestamp hm_clock (py "10:06") = Ok 36360.
Proof.
  destruct (@first_format_wins hm_clock (py "10:06")) as [H _].
  rewrite (H ["%I:%M %p"%string] "%H:%M"%string
             ["%I:%M:%S %p"; "%H:%M:%S"; "%Y-%m-%dT%H:%M:%S"]%string 36360).
  - reflexivity.
  - reflexivity.
  - repeat constructor.
  - reflexivity.
Defined.

End segmenter_more.

(** ** Entity counting *)

Module ner_spec.

Import spacy_ner.
Import ner_defs.

(** *** The dictionaries *)

Lemma bump_sum (tx k : str) (c : list (str * Z)) :
  sum_for tx (pydict.bump k c)
  = sum_for tx c + (if decide (k = tx) then 1 else 0).
Proof.
  unfold sum_for. induction c as [|[k' n] c IH]; simpl.
  - rewrite filter_cons, filter_nil. simpl.
    destruct (decide (k = tx)); simpl; lia.
  - destruct (decide (k' = k)) as [->|Hne].
    + rewrite !filter_cons. simpl.
      destruct (decide (k = tx)); simpl; lia.
    + rewrite !filter_cons. simpl.
      destruct (decide (k' = tx)); simpl; rewrite IH; lia.
Qed.

Lemma bump_keys (k : str) (c : list (str * Z)) :
  List.map fst (pydict.bump k c)
  = if decide (k ∈ List.map fst c) then List.map fst c
    else List.map fst c ++ [k].
Proof.
  induction c as [|[k' n] c IH]; simpl.
  - reflexivity.
  - destruct (decide (k' = k)) as [->|Hne]; simpl.
    + rewrite decide_True by (apply elem_of_cons; auto). reflexivity.
    + rewrite IH. destruct (decide (k ∈ List.map fst c)) as [Hin|Hin].
      * rewrite decide_True by (apply elem_of_cons; auto). reflexivity.
      * rewrite decide_False; [reflexivity|].
        rewrite elem_of_cons. intros [?|?]; congruence.
Qed.

Lemma bump_NoDup (k : str) (c : list (str * Z)) :
  List.NoDup (List.map fst c) -> List.NoDup (List.map fst (pydict.bump k c)).
Proof.
  intros Hnd. rewrite bump_keys.
  destruct (decide (k ∈ List.map fst c)) as [Hin|Hin]; [exact Hnd|].
  apply NoDup_ListNoDup. apply NoDup_app. split; [|split].
  - apply NoDup_ListNoDup. exact Hnd.
  - intros x Hx Hk. apply list_elem_of_singleton in Hk. congruence.
  - apply NoDup_singleton.
Qed.

Lemma bump_positive (k : str) (c : list (str * Z)) :
  Forall (fun kn => 1 <= kn.2) c ->
  Forall (fun kn => 1 <= kn.2) (pydict.bump k c).
Proof.
  induction 1 as [|[k' n] c Hn Hc IH]; simpl.
  - constructor; [simpl; lia | constructor].
  - simpl in Hn.
    destruct (decide (k' = k)); constructor; simpl; try lia; assumption.
Qed.

Lemma item_touch {V} (k k' : str) (d : list (str * list V)) :
  pydict.item k' (pydict.touch k d) = pydict.item k' d.
Proof.
  induction d as [|[k0 vs] d IH]; simpl.
  - destruct (decide (k = k')); reflexivity.
  - destruct (decide (k0 = k)); simpl; [reflexivity|].
    rewrite IH. reflexivity.
Qed.

Lemma item_append_to {V} (k k' : str) (v : V) (d : list (str * list V)) :
  pydict.item k' (pydict.append_to k v d)
  = pydict.item k' d ++ (if decide (k = k') then [v] else []).
Proof.
  induction d as [|[k0 vs] d IH]; simpl.
  - destruct (decide (k = k')); reflexivity.
  - destruct (decide (k0 = k)) as [->|Hne]; simpl.
    + destruct (decide (k = k')); [reflexivity|].
      rewrite app_nil_r. reflexivity.
    + destruct (decide (k0 = k')) as [->|Hne'].
      * rewrite decide_False by congruence.
        rewrite app_nil_r. reflexivity.
      * exact IH.
Qed.

Lemma append_to_keys {V} (k : str) (v : V) (d : list (str * list V)) :
  List.map fst (pydict.append_to k v d)
  = if decide (k ∈ List.map fst d) then List.map fst d
    else List.map fst d ++ [k].
Proof.
  induction d as [|[k' vs] d IH]; simpl.
  - reflexivity.
  - destruct (decide (k' = k)) as [->|Hne]; simpl.
    + rewrite decide_True by (apply elem_of_cons; auto). reflexivity.
    + rewrite IH. destruct (decide (k ∈ List.map fst d)) as [Hin|Hin].
      * rewrite decide_True by (apply elem_of_cons; auto). reflexivity.
      * rewrite decide_False; [reflexivity|].
        rewrite elem_of_cons. intros [?|?]; congruence.
Qed.

Lemma append_to_NoDup {V} (k : str) (v : V) (d : list (str * list V)) :
  List.NoDup (List.map fst d) ->
  List.NoDup (List.map fst (pydict.append_to k v d)).
Proof.
  intros Hnd. rewrite append_to_keys.
  destruct (decide (k ∈ List.map fst d)) as [Hin|Hin]; [exact Hnd|].
  apply NoDup_ListNoDup. apply NoDup_app. split; [|split].
  - apply NoDup_ListNoDup. exact Hnd.
  - intros x Hx Hk. apply list_elem_of_singleton in Hk. congruence.
  - apply NoDup_singleton.
Qed.

Lemma append_to_grouped (ty tx : str) (e : ent) (g : list (str * list ent)) :
  grouped ty tx (pydict.append_to (label_ e) e g)
  = (grouped ty tx g
     + if decide (label_ e = ty /\ text e = tx) then 1 else 0)%nat.
Proof.
  unfold grouped. induction g as [|[l es] g IH]; simpl.
  - rewrite filter_cons, filter_nil.
    destruct (decide (label_ e = ty)), (decide (text e = tx));
      simpl; try (rewrite decide_True by tauto);
      try (rewrite decide_False by tauto); reflexivity.
  - destruct (decide (l = label_ e)) as [->|Hne]; simpl.
    + destruct (decide (label_ e = ty)).
      * rewrite filter_app, length_app, filter_cons, filter_nil.
        destruct (decide (text e = tx)); simpl;
          [rewrite decide_True by tauto | rewrite decide_False by tauto];
          lia.
      * rewrite decide_False by tauto. lia.
    + rewrite IH. lia.
Qed.

(** *** Sorting *)

Lemma insert_desc_perm (x : str * Z) (l : list (str * Z)) :
  insert_desc x l ≡ₚ x :: l.
Proof.
  induction l as [|y l IH]; simpl; [reflexivity|].
  destruct (y.2 <=? x.2); [reflexivity|].
  rewrite IH. apply perm_swap.
Qed.

Lemma sorted_desc_perm (l : list (str * Z)) : sorted_desc l ≡ₚ l.
Proof.
  induction l as [|x l IH]; simpl; [reflexivity|].
  rewrite insert_desc_perm, IH. reflexivity.
Qed.

Lemma insert_desc_descending (x : str * Z) (l : list (str * Z)) :
  descending (List.map snd l) ->
  descending (List.map snd (insert_desc x l)).
Proof.
  induction l as [|y l IH]; simpl.
  - intros _. split; [constructor | exact I].
  - intros [Hy Hl]. destruct (y.2 <=? x.2) eqn:E; simpl.
    + apply Z.leb_le in E. split; [|split; assumption].
      constructor; [exact E|].
      eapply Forall_impl; [exact Hy|]. simpl. intros z Hz. lia.
    + apply Z.leb_gt in E. split; [|apply IH; exact Hl].
      assert (Hp : List.map snd (insert_desc x l) ≡ₚ x.2 :: List.map snd l)
        by (rewrite insert_desc_perm; reflexivity).
      rewrite Hp. constructor; [lia | exact Hy].
Qed.

Lemma sorted_desc_descending (l : list (str * Z)) :
  descending (List.map snd (sorted_desc l)).
Proof.
  induction l as [|x l IH]; simpl; [exact I|].
  apply insert_desc_descending. exact IH.
Qed.

(** *** One label *)

Lemma count_step_counts (es : list ent)
    (st : list (str * Z) * list (str * list example)) :
  (foldl count_step st es).1
  = foldl (fun c e => pydict.bump (text e) c) st.1 es.
Proof.
  revert st. induction es as [|e es IH]; intros st; [reflexivity|].
  simpl. rewrite IH. reflexivity.
Qed.

Lemma counts_sum (tx : str) (es : list ent) (c : list (str * Z)) :
  sum_for tx (foldl (fun c e => pydict.bump (text e) c) c es)
  = sum_for tx c + Z.of_nat (length (filter (fun e => text e = tx) es)).
Proof.
  revert c. induction es as [|e es IH]; intros c; simpl.
  - lia.
  - rewrite IH, bump_sum, filter_cons.
    destruct (decide (text e = tx)); simpl; lia.
Qed.

Lemma counts_wf (es : list ent) (c : list (str * Z)) :
  List.NoDup (List.map fst c) -> Forall (fun kn => 1 <= kn.2) c ->
  List.NoDup
    (List.map fst (foldl (fun c e => pydict.bump (text e) c) c es)) /\
  Forall (fun kn => 1 <= kn.2)
    (foldl (fun c e => pydict.bump (text e) c) c es).
Proof.
  revert c. induction es as [|e es IH]; intros c Hnd Hpos; simpl; [auto|].
  apply IH; [apply bump_NoDup | apply bump_positive]; assumption.
Qed.

Lemma filter_absent (t : str) (c : list (str * Z)) :
  ~ In t (List.map fst c) -> filter (fun kn : str * Z => kn.1 = t) c = [].
Proof.
  induction c as [|[k m] c IH]; simpl; intros Hno; [reflexivity|].
  rewrite filter_cons. simpl.
  destruct (decide (k = t)); [tauto | apply IH; tauto].
Qed.

(** With distinct keys, the sum for a key is its one value. *)
Lemma sum_for_unique (t : str) (n : Z) (c : list (str * Z)) :
  List.NoDup (List.map fst c) -> In (t, n) c -> sum_for t c = n.
Proof.
  unfold sum_for. induction c as [|[k m] c IH]; simpl; [tauto|].
  intros Hnd Hin. inversion Hnd as [|? ? Hk Hnd']; subst.
  rewrite filter_cons. simpl. destruct Hin as [[= -> ->]|Hin].
  - rewrite decide_True by reflexivity. simpl.
    rewrite (filter_absent t c Hk). simpl. lia.
  - destruct (decide (k = t)) as [->|Hne].
    + exfalso. apply Hk. apply in_map_iff. exists (t, n). auto.
    + apply IH; assumption.
Qed.

(** The examples kept for a text are as many as its mentions, up to
    three. *)
Lemma count_step_examples (es : list ent)
    (st : list (str * Z) * list (str * list example)) :
  (forall k, length (pydict.item k st.2)
             = Nat.min 3 (Z.to_nat (sum_for k st.1))) ->
  (forall k, 0 <= sum_for k st.1) ->
  forall k, length (pydict.item k (foldl count_step st es).2)
            = Nat.min 3 (Z.to_nat (sum_for k (foldl count_step st es).1)).
Proof.
  revert st. induction es as [|e es IH]; intros st Hlen Hpos; [exact Hlen|].
  simpl. apply IH.
  - intros k. unfold count_step. cbn [fst snd].
    rewrite bump_sum. specialize (Hlen k). specialize (Hpos k).
    destruct (length (pydict.item (text e) (pydict.touch (text e) st.2)) <? 3)%nat
      eqn:E.
    + rewrite item_append_to, length_app, item_touch.
      rewrite item_touch in E. apply Nat.ltb_lt in E.
      destruct (decide (text e = k)) as [<-|Hne]; cbn [length]; lia.
    + rewrite item_touch. rewrite item_touch in E. apply Nat.ltb_ge in E.
      destruct (decide (text e = k)) as [<-|Hne]; lia.
  - intros k. unfold count_step. cbn [fst]. rewrite bump_sum.
    specialize (Hpos k). destruct (decide (text e = k)); lia.
Qed.

Lemma sum_for_nil (k : str) : sum_for k [] = 0.
Proof. reflexivity. Qed.

Lemma sum_for_perm (tx : str) (c1 c2 : list (str * Z)) :
  c1 ≡ₚ c2 -> sum_for tx c1 = sum_for tx c2.
Proof.
  intros Hp. unfold sum_for. apply merge_spec.sum_counts_perm.
  rewrite Hp. reflexivity.
Qed.

Lemma counts_in_entries (tx : str) (ex : list (str * list example))
    (l : list (str * Z)) :
  merge_defs.counts_in tx
    (List.map read_entry
       (List.map (fun tc => {| entity := tc.1; count := tc.2;
                               examples := pydict.item tc.1 ex |}) l))
  = List.map snd (filter (fun kn => kn.1 = tx) l).
Proof.
  unfold merge_defs.counts_in. induction l as [|[k n] l IH]; [reflexivity|].
  simpl. rewrite !filter_cons. simpl.
  destruct (decide (k = tx)); simpl; rewrite IH; reflexivity.
Qed.

(** The counts the pipeline reads for a text under one label: their sum
    is the number of mentions, and each is at least 1. *)
Lemma entries_counts (tx : str) (es : list ent) :
  merge_defs.sum_counts
    (merge_defs.counts_in tx (List.map read_entry (entries_of es)))
  = Z.of_nat (length (filter (fun e => text e = tx) es)) /\
  Forall (fun n => 1 <= n)
    (merge_defs.counts_in tx (List.map read_entry (entries_of es))).
Proof.
  unfold entries_of. rewrite counts_in_entries. split.
  - change (merge_defs.sum_counts (List.map snd (filter _ ?l)))
      with (sum_for tx l).
    rewrite (sum_for_perm tx _ _ (sorted_desc_perm _)).
    rewrite count_step_counts, counts_sum. reflexivity.
  - destruct (counts_wf es [] (List.NoDup_nil _) (List.Forall_nil _))
      as [_ Hpos].
    change (@nil (str * Z)) with (([], []) : list (str * Z) * list (str * list example)).1 in Hpos.
    rewrite <- count_step_counts in Hpos.
    apply List.Forall_forall. intros n Hn.
    apply in_map_iff in Hn. destruct Hn as ([k m] & <- & Hin).
    apply list_elem_of_In, list_elem_of_filter in Hin. destruct Hin as [_ Hin].
    rewrite sorted_desc_perm in Hin. apply list_elem_of_In in Hin.
    rewrite List.Forall_forall in Hpos. apply (Hpos _ Hin).
Qed.

(** *** All labels *)

Lemma groups_grouped (ty tx : str) (doc_ents : list ent)
    (g : list (str * list ent)) :
  grouped ty tx (foldl (fun g e => pydict.append_to (label_ e) e g) g doc_ents)
  = (grouped ty tx g + mentions_of ty tx doc_ents)%nat.
Proof.
  unfold mentions_of. revert g.
  induction doc_ents as [|e es IH]; intros g; simpl; [lia|].
  rewrite IH, append_to_grouped, filter_cons.
  destruct (decide (label_ e = ty /\ text e = tx)); simpl; lia.
Qed.

Lemma groups_NoDup (doc_ents : list ent) (g : list (str * list ent)) :
  List.NoDup (List.map fst g) ->
  List.NoDup
    (List.map fst
       (foldl (fun g e => pydict.append_to (label_ e) e g) g doc_ents)).
Proof.
  revert g. induction doc_ents as [|e es IH]; intros g Hnd; [exact Hnd|].
  simpl. apply IH, append_to_NoDup, Hnd.
Qed.

(** The counts the pipeline reads for a label and a text, over the
    groups of a result. *)
Lemma type_counts_groups (ty tx : str) (g : list (str * list ent)) :
  merge_defs.sum_counts
    (merge_defs.type_counts ty tx
       (List.map (fun item => (item.1, List.map read_entry item.2))
          (List.map (fun item => (item.1, entries_of item.2)) g)))
  = Z.of_nat (grouped ty tx g) /\
  Forall (fun n => 1 <= n)
    (merge_defs.type_counts ty tx
       (List.map (fun item => (item.1, List.map read_entry item.2))
          (List.map (fun item => (item.1, entries_of item.2)) g))).
Proof.
  unfold grouped, merge_defs.type_counts.
  induction g as [|[l es] g [IH1 IH2]]; simpl; [split; [reflexivity|constructor]|].
  destruct (entries_counts tx es) as [Hsum Hpos].
  rewrite merge_spec.sum_counts_app, IH1.
  destruct (decide (l = ty)); simpl.
  - rewrite Hsum. split; [lia|]. apply Forall_app. auto.
  - split; [lia | exact IH2].
Qed.

Lemma positive_sum (l : list Z) :
  Forall (fun n => 1 <= n) l ->
  match l with [] => false | _ => true end
  = (0 <? merge_defs.sum_counts l).
Proof.
  intros Hpos. destruct Hpos as [|n l Hn Hl]; [reflexivity|].
  assert (Hs : 0 <= merge_defs.sum_counts l)
    by (clear -Hl; induction Hl; simpl; lia).
  simpl. symmetry. apply Z.ltb_lt. lia.
Qed.

(** The counts read from one result. *)
Lemma counts_are_mentions_aux (doc_ents : list ent) (label txt : str) :
  let d := as_pipeline_input (unified_ner.extract_and_format doc_ents) in
  merge_defs.chunk_count label txt d
    = Z.of_nat (mentions_of label txt doc_ents) /\
  merge_defs.mentions label txt d = (0 <? mentions_of label txt doc_ents)%nat.
Proof.
  cbv zeta.
  destruct (type_counts_groups label txt
              (foldl (fun g e => pydict.append_to (label_ e) e g) [] doc_ents))
    as [Hsum Hpos].
  rewrite groups_grouped in Hsum. simpl in Hsum.
  assert (Hitems :
    merge_defs.items_of
      (as_pipeline_input (unified_ner.extract_and_format doc_ents))
    = List.map (fun item => (item.1, List.map read_entry item.2))
        (List.map (fun item => (item.1, entries_of item.2))
           (foldl (fun g e => pydict.append_to (label_ e) e g) [] doc_ents)))
    by reflexivity.
  unfold merge_defs.chunk_count, merge_defs.mentions. rewrite Hitems.
  split; [exact Hsum|].
  rewrite (positive_sum _ Hpos), Hsum.
  destruct (mentions_of label txt doc_ents); reflexivity.
Qed.

(** X18. With the spaCy backend, the count the pipeline reads for an
    entity type and text from the result of [extract_and_format] is the
    number of entities of that type and text the model found in the
    chunk, and the pair is listed exactly when there is at least one. *)
Theorem counts_are_mentions (doc_ents : list ent) (label txt : str) :
  let d := as_pipeline_input (unified_ner.extract_and_format doc_ents) in
  merge_defs.chunk_count label txt d
    = Z.of_nat (mentions_of label txt doc_ents) /\
  merge_defs.mentions label txt d = (0 <? mentions_of label txt doc_ents)%nat.
Proof. apply counts_are_mentions_aux. Qed.

(** X19. Entity extraction and merging together: after the pipeline has
    merged the spaCy results of a series of chunks into an empty table,
    the count stored for an entity type and text is the number of
    entities of that type and text found in all the chunks, and there
    is no entry when none was found. *)
Theorem merged_counts_are_mentions (docs : list (list ent)) (label txt : str) :
  let results :=
    List.map (fun doc_ents =>
                as_pipeline_input (unified_ner.extract_and_format doc_ents))
             docs in
  let total := foldr Nat.add 0%nat (List.map (mentions_of label txt) docs) in
  merge_defs.lookup2 (foldl realtime_pipeline._merge_entities ∅ results)
                     label txt
  = if (0 <? total)%nat then Some (Z.of_nat total) else None.
Proof.
  cbv zeta. rewrite merge_spec.merged_totals.
  assert (Hsum : merge_defs.sum_counts
                   (List.map (merge_defs.chunk_count label txt)
                      (List.map (fun doc_ents =>
                         as_pipeline_input
                           (unified_ner.extract_and_format doc_ents)) docs))
                 = Z.of_nat (foldr Nat.add 0%nat
                               (List.map (mentions_of label txt) docs))).
  { induction docs as [|d docs IH]; [reflexivity|].
    simpl. rewrite IH.
    destruct (counts_are_mentions_aux d label txt) as [-> _]. lia. }
  assert (Hex : existsb (merge_defs.mentions label txt)
                  (List.map (fun doc_ents =>
                     as_pipeline_input
                       (unified_ner.extract_and_format doc_ents)) docs)
                = (0 <? foldr Nat.add 0%nat
                          (List.map (mentions_of label txt) docs))%nat).
  { clear Hsum. induction docs as [|d docs IH]; [reflexivity|].
    simpl. rewrite IH.
    destruct (counts_are_mentions_aux d label txt) as [_ ->].
    destruct (mentions_of label txt d); reflexivity. }
  rewrite Hex, Hsum. reflexivity.
Qed.

Lemma entries_of_listing (es : list ent) :
  List.NoDup (List.map entity (entries_of es)) /\
  descending (List.map count (entries_of es)) /\
  Forall (fun e => 1 <= count e /\
                   length (examples e) = Nat.min 3 (Z.to_nat (count e)))
         (entries_of es).
Proof.
  unfold entries_of.
  set (st := foldl count_step ([], []) es).
  destruct (counts_wf es [] (List.NoDup_nil _) (List.Forall_nil _))
    as [Hnd Hpos].
  change (@nil (str * Z))
    with (([], []) : list (str * Z) * list (str * list example)).1
    in Hnd, Hpos.
  rewrite <- count_step_counts in Hnd, Hpos. fold st in Hnd, Hpos.
  assert (Hex : forall k, length (pydict.item k st.2)
                          = Nat.min 3 (Z.to_nat (sum_for k st.1))).
  { subst st. apply count_step_examples; intros k.
    - reflexivity.
    - cbn [fst]. rewrite sum_for_nil. lia. }
  rewrite !List.map_map. simpl.
  split; [|split].
  - apply NoDup_ListNoDup.
    assert (Hp : List.map (fun x : str * Z => x.1) (sorted_desc st.1)
                 ≡ₚ List.map fst st.1)
      by (rewrite sorted_desc_perm; reflexivity).
    rewrite Hp. apply NoDup_ListNoDup. exact Hnd.
  - apply sorted_desc_descending.
  - apply List.Forall_forall. intros e He.
    apply in_map_iff in He. destruct He as ([t n] & <- & Hin). simpl.
    assert (Hin' : In (t, n) st.1).
    { apply list_elem_of_In. rewrite <- sorted_desc_perm.
      apply list_elem_of_In. exact Hin. }
    rewrite List.Forall_forall in Hpos.
    split; [apply (Hpos _ Hin')|].
    rewrite Hex, (sum_for_unique t n st.1 Hnd Hin'). reflexivity.
Qed.

(** X20. In the result of [extract_entities] every label occurs once;
    under a label every entity text occurs once, with a count of at
    least 1, and the entries are listed by count, largest first. *)
Theorem entities_listed_by_count (doc_ents : list ent) :
  List.NoDup (List.map fst (extract_entities doc_ents)) /\
  Forall (fun item =>
            List.NoDup (List.map entity item.2) /\
            descending (List.map count item.2) /\
            Forall (fun e => 1 <= count e) item.2)
         (extract_entities doc_ents).
Proof.
  unfold extract_entities. split.
  - rewrite List.map_map. simpl.
    apply (groups_NoDup doc_ents []). constructor.
  - apply List.Forall_forall. intros item Hin.
    apply in_map_iff in Hin. destruct Hin as ([l es] & <- & _). simpl.
    destruct (entries_of_listing es) as (H1 & H2 & H3).
    split; [exact H1|]. split; [exact H2|].
    eapply Forall_impl; [exact H3|]. simpl. tauto.
Qed.

(** X21. Every entry of the result keeps at most three example
    positions of its entity: the number of examples is the smaller of 3
    and the count. *)
Theorem examples_capped_at_three (doc_ents : list ent) :
  Forall (fun item =>
            Forall (fun e => length (examples e)
                             = Nat.min 3 (Z.to_nat (count e))) item.2)
         (extract_entities doc_ents).
Proof.
  unfold extract_entities.
  apply List.Forall_forall. intros item Hin.
  apply in_map_iff in Hin. destruct Hin as ([l es] & <- & _). simpl.
  destruct (entries_of_listing es) as (_ & _ & H3).
  eapply Forall_impl; [exact H3|]. simpl. tauto.
Qed.

End ner_spec.

(** ** The Teams export *)

Module teams_spec.

Import teams.
Import teams_defs.

Section with_iso.

Context `{IsoLib}.

Lemma line_of_returns (m : message) :
  iso_only_value_errors -> exists l, line_of m = Ok l.
Proof.
  intros Hv. unfold line_of.
  destruct (pystr.truthy _); [|eauto].
  destruct (fromisoformat _) as [dt|e] eqn:E; [eauto|].
  apply Hv in E. subst e. rewrite decide_True by reflexivity. eauto.
Qed.

Lemma lines_of_returns (ms : list message) :
  iso_only_value_errors ->
  exists ls, lines_of ms = Ok ls /\ length ls = length ms.
Proof.
  intros Hv. induction ms as [|m ms (ls & IH & Hlen)]; simpl; [eauto|].
  destruct (line_of_returns m Hv) as [l ->]. rewrite IH.
  exists (l :: ls). simpl. auto.
Qed.

(** X22. [parse_teams_format] raises [ValueError] when the export has no
    ["messages"] key and, as long as [fromisoformat] fails with
    [ValueError] only, in no other case: a timestamp that is not ISO is
    kept as it is, never an error. An export with an empty message list
    gives the empty transcript. *)
Theorem parse_teams_format_errors (d : teams_data) :
  iso_only_value_errors ->
  (messages d = None -> parse_teams_format d = Raise (PyExc "ValueError")) /\
  (forall ms, messages d = Some ms ->
              exists ls, lines_of ms = Ok ls /\ length ls = length ms /\
                         parse_teams_format d
                         = Ok (pystr.join [10%N; 10%N] ls)) /\
  (messages d = Some [] -> parse_teams_format d = Ok []).
Proof.
  intros Hv. unfold parse_teams_format. split; [|split].
  - intros ->. reflexivity.
  - intros ms ->. destruct (lines_of_returns ms Hv) as (ls & Hl & Hlen).
    exists ls. rewrite Hl. auto.
  - intros ->. reflexivity.
Qed.

End with_iso.

Lemma parse_teams_format_errors_witness :
  @parse_teams_format no_iso {| messages := None |}
  = Raise (PyExc "ValueError").
Proof.
  apply (@parse_teams_format_errors no_iso {| messages := None |}).
  - intros s e [= <-]. reflexivity.
  - reflexivity.
Defined.

End teams_spec.

(** ** The summary of the entities found *)

Module summary_spec.

Import spacy_ner.
Import ner_defs.
Import summary_defs.

(** [first_seen] lists what the list holds, each element once. *)
Lemma first_seen_from (l seen : list str) :
  List.NoDup seen ->
  List.NoDup (foldl add_new seen l) /\
  forall x, x ∈ foldl add_new seen l <-> x ∈ seen \/ x ∈ l.
Proof.
  revert seen. induction l as [|a l IH]; intros seen Hnd; simpl.
  - split; [exact Hnd|]. intros x. rewrite elem_of_nil. tauto.
  - unfold add_new at 2 4. destruct (decide (a ∈ seen)) as [Hin|Hin].
    + destruct (IH seen Hnd) as [H1 H2]. split; [exact H1|].
      intros x. rewrite H2, elem_of_cons.
      split; [tauto|]. intros [?|[->|?]]; auto.
    + assert (Hnd' : List.NoDup (seen ++ [a])).
      { apply NoDup_ListNoDup. apply NoDup_app. split; [|split].
        - apply NoDup_ListNoDup. exact Hnd.
        - intros x Hx Hx'. apply list_elem_of_singleton in Hx'. congruence.
        - apply NoDup_singleton. }
      destruct (IH _ Hnd') as [H1 H2]. split; [exact H1|].
      intros x. rewrite H2, elem_of_app, list_elem_of_singleton, elem_of_cons.
      tauto.
Qed.

(** The keys of the two dictionaries are filled in the order of first
    appearance. *)
Lemma bump_all_keys (es : list ent) (c : list (str * Z)) :
  List.map fst (foldl (fun c e => pydict.bump (text e) c) c es)
  = foldl add_new (List.map fst c) (List.map text es).
Proof.
  revert c. induction es as [|e es IH]; intros c; [reflexivity|].
  simpl. rewrite IH, ner_spec.bump_keys. reflexivity.
Qed.

Lemma group_keys (es : list ent) (g : list (str * list ent)) :
  List.map fst (foldl (fun g e => pydict.append_to (label_ e) e g) g es)
  = foldl add_new (List.map fst g) (List.map label_ es).
Proof.
  revert g. induction es as [|e es IH]; intros g; [reflexivity|].
  simpl. rewrite IH, ner_spec.append_to_keys. reflexivity.
Qed.

(** A group holds the entities of its label, in order. *)
Lemma group_items (ty : str) (es : list ent) (g : list (str * list ent)) :
  pydict.item ty (foldl (fun g e => pydict.append_to (label_ e) e g) g es)
  = pydict.item ty g ++ with_label ty es.
Proof.
  unfold with_label. revert g.
  induction es as [|e es IH]; intros g; simpl.
  - rewrite app_nil_r. reflexivity.
  - rewrite IH, ner_spec.item_append_to, filter_cons, <- app_assoc.
    destruct (decide (label_ e = ty)); reflexivity.
Qed.

(** A dictionary is its keys with their items. *)
Lemma items_by_key {V} (d : list (str * list V)) :
  List.NoDup (List.map fst d) ->
  d = List.map (fun k => (k, pydict.item k d)) (List.map fst d).
Proof.
  induction d as [|[k vs] d IH]; intros Hnd; [reflexivity|].
  simpl in Hnd. inversion Hnd as [|? ? Hk Hnd']; subst.
  simpl. rewrite decide_True by reflexivity. f_equal.
  rewrite (IH Hnd') at 1. rewrite !map_map.
  apply map_ext_in. intros [k' vs'] Hin. simpl.
  rewrite decide_False; [reflexivity|].
  intros ->. apply Hk. apply in_map_iff. exists (k', vs'). auto.
Qed.

(** One entry per distinct text. *)
Lemma entries_of_length (es : list ent) :
  length (entries_of es) = length (first_seen (List.map text es)).
Proof.
  unfold entries_of. rewrite length_map.
  rewrite (Permutation_length (ner_spec.sorted_desc_perm _)).
  rewrite ner_spec.count_step_counts. cbn [fst].
  rewrite <- (length_map fst), bump_all_keys. reflexivity.
Qed.

(** X28.  The summary of the entities found in a text.  Each label is
    listed once, in the order in which the labels first appear among
    the entities found, with the number of distinct entity texts under
    it (not the number of mentions); [format_entities] reports those
    labels as ["entity_types"] and the sum of these numbers as
    ["total_unique_entities"].  The labels listed are exactly the labels
    of the entities found. *)
Theorem summary_counts_distinct_texts (doc_ents : list ent) :
  let labels := first_seen (List.map label_ doc_ents) in
  let f := unified_ner.extract_and_format doc_ents in
  get_entity_summary doc_ents
  = List.map (fun ty => (ty, distinct_texts ty doc_ents)) labels /\
  unified_ner.entity_types f = labels /\
  unified_ner.total_unique_entities f
  = foldr Z.add 0 (List.map (fun ty => distinct_texts ty doc_ents) labels) /\
  List.NoDup labels /\
  forall ty, ty ∈ labels <-> exists e, e ∈ doc_ents /\ label_ e = ty.
Proof.
  cbv zeta.
  destruct (first_seen_from (List.map label_ doc_ents) [])
    as [Hnd Hmem]; [constructor|].
  fold (first_seen (List.map label_ doc_ents)) in Hnd, Hmem.
  set (g := foldl (fun g e => pydict.append_to (label_ e) e g) [] doc_ents).
  assert (Hkeys : List.map fst g = first_seen (List.map label_ doc_ents)).
  { unfold g. rewrite group_keys. reflexivity. }
  assert (Hg : g = List.map (fun ty => (ty, with_label ty doc_ents))
                     (first_seen (List.map label_ doc_ents))).
  { rewrite <- Hkeys. rewrite (items_by_key g) at 1.
    - apply map_ext. intros ty. unfold g. rewrite group_items. reflexivity.
    - unfold g. apply ner_spec.groups_NoDup. constructor. }
  unfold get_entity_summary, unified_ner.extract_and_format,
    unified_ner.format_entities, extract_entities.
  cbn [unified_ner.entity_types unified_ner.total_unique_entities].
  fold g. rewrite !map_map. cbn [fst snd].
  split; [|split; [|split; [|split]]].
  - rewrite Hg at 1. rewrite map_map. apply map_ext. intros ty. cbn [fst snd].
    unfold distinct_texts. rewrite entries_of_length. reflexivity.
  - exact Hkeys.
  - rewrite Hg at 1. rewrite map_map. f_equal. apply map_ext. intros ty.
    cbn [fst snd]. unfold distinct_texts. rewrite entries_of_length.
    reflexivity.
  - exact Hnd.
  - intros ty. rewrite Hmem, elem_of_nil, list_elem_of_fmap.
    split.
    + intros [[]|(e & -> & He)]. exists e. auto.
    + intros (e & He & <-). right. exists e. auto.
Qed.

End summary_spec.

(** ** Building the pipeline *)

Module pipeline_init_spec.

Import realtime_pipeline.
Import pipeline_init_defs.



End pipeline_init_spec.

(** ** A session from the first text to the last *)

Module session_spec.

Import realtime_pipeline.
Import pipeline_defs.
Import pipeline_spec.
Import pipeline_run_defs.
Import session_defs.

Lemma summarized_app (tr tr' : list event) :
  summarized (tr ++ tr') = summarized tr ++ summarized tr'.
Proof. unfold summarized. apply omap_app. Qed.

(** With collaborators that answer, a chunk is recorded, the summarizer
    is asked once about it, and the call returns. *)
Lemma _process_chunk_answers self summ ents c w :
  answers self summ ents ->
  (_process_chunk self c w).2 = Ok tt /\
  (_process_chunk self c w).1.1 = record_chunk w.1 c (summ c) (ents c) /\
  summarized (_process_chunk self c w).1.2 = summarized w.2 ++ [c].
Proof.
  intros (Hg & He & Hc & Hx).
  split; [|split; [apply _process_chunk_records; auto|]].
  - unfold _process_chunk, bind, call, get, modify, ret.
    rewrite Hg. simpl. rewrite He. simpl.
    destruct (on_chunk_summarized self) as [f|] eqn:Ef; simpl.
    + rewrite (Hc f eq_refl). simpl.
      destruct (on_entity_extracted self) as [g|] eqn:Eg; simpl;
        [rewrite (Hx g eq_refl)|]; reflexivity.
    + destruct (on_entity_extracted self) as [g|] eqn:Eg; simpl;
        [rewrite (Hx g eq_refl)|]; reflexivity.
  - unfold _process_chunk, bind, call, get, modify, ret.
    rewrite Hg. simpl. rewrite He. simpl.
    destruct (on_chunk_summarized self) as [f|] eqn:Ef; simpl.
    + rewrite (Hc f eq_refl). simpl.
      destruct (on_entity_extracted self) as [g|] eqn:Eg; simpl;
        rewrite !summarized_app; simpl; rewrite ?app_nil_r; reflexivity.
    + destruct (on_entity_extracted self) as [g|] eqn:Eg; simpl;
        rewrite !summarized_app; simpl; rewrite ?app_nil_r; reflexivity.
Qed.

(** [if chunk: await self._process_chunk(chunk)] for a chunk that, when
    there is one, is not the empty string. *)
Lemma process_if_answers self summ ents (r : option str) w :
  answers self summ ents ->
  (forall c, r = Some c -> pystr.truthy c = true) ->
  let out := process_if self r w in
  out.2 = Ok tt /\
  buffer out.1.1 = buffer w.1 /\
  chunk_summaries out.1.1
  = results_after summ ents (chunk_summaries w.1)
      (buffer_stream_defs.emitted [r]) /\
  summarized out.1.2 = summarized w.2 ++ buffer_stream_defs.emitted [r].
Proof.
  intros Ha Ht. cbv zeta. destruct r as [c|]; cbn [process_if].
  - rewrite (Ht c eq_refl).
    destruct (_process_chunk_answers self summ ents c w Ha)
      as (Hr & Hs & Htr).
    rewrite Hr, Hs, Htr. repeat split; reflexivity.
  - cbn. rewrite app_nil_r. repeat split; reflexivity.
Qed.

(** A chunk emitted by a well-configured buffer that holds words is not
    the empty string. *)
Lemma emitted_chunk_truthy (b : transcript_buffer.TranscriptBuffer)
    (text c : str) :
  0 <= transcript_buffer.overlap b < transcript_buffer.buffer_size b ->
  Forall buffer_stream_defs.word (transcript_buffer.buffer b) ->
  (transcript_buffer.add_text b text).2 = Some c ->
  pystr.truthy c = true.
Proof.
  intros Hcfg Hw Hemit.
  destruct (Z_lt_le_dec
              (Z.of_nat (length (transcript_buffer.buffer b
                                 ++ pystr.split text)))
              (transcript_buffer.buffer_size b)) as [Hlt|Hge].
  - rewrite transcript_buffer_spec.add_text_below in Hemit by exact Hlt.
    discriminate.
  - rewrite transcript_buffer_spec.add_text_full in Hemit by lia.
    injection Hemit as <-.
    assert (Hall : Forall buffer_stream_defs.word
                     (transcript_buffer.buffer b ++ pystr.split text)).
    { apply Forall_app. split; [exact Hw|].
      apply buffer_stream_spec.split_gives_words. }
    apply pystr_facts.join_truthy.
    + intros Hnil. apply (f_equal (@length str)) in Hnil.
      rewrite length_take in Hnil. simpl in Hnil. lia.
    + apply Forall_take. eapply Forall_impl; [exact Hall|].
      intros x [Hx _]. exact Hx.
Qed.

(** What [get_remaining] hands out for a buffer that holds words. *)
Lemma get_remaining_chunk (b : transcript_buffer.TranscriptBuffer) :
  Forall buffer_stream_defs.word (transcript_buffer.buffer b) ->
  buffer_stream_defs.emitted [(transcript_buffer.get_remaining b).2]
  = remainder_chunk (transcript_buffer.buffer b) /\
  forall c, (transcript_buffer.get_remaining b).2 = Some c ->
            pystr.truthy c = true.
Proof.
  intros Hw. unfold transcript_buffer.get_remaining.
  destruct (transcript_buffer.buffer b) as [|x rest] eqn:E; simpl.
  - split; [reflexivity|]. intros c Hc. discriminate.
  - split; [reflexivity|]. intros c Hc. injection Hc as <-.
    apply (pystr_facts.join_truthy (py " ") (x :: rest)); [discriminate|].
    eapply Forall_impl; [exact Hw|]. intros y [Hy _]. exact Hy.
Qed.

(** The buffer still holds words after a call. *)
Lemma add_text_keeps_words (b : transcript_buffer.TranscriptBuffer)
    (text : str) :
  0 <= transcript_buffer.overlap b < transcript_buffer.buffer_size b ->
  Forall buffer_stream_defs.word (transcript_buffer.buffer b) ->
  Forall buffer_stream_defs.word
    (transcript_buffer.buffer (transcript_buffer.add_text b text).1).
Proof.
  intros Hcfg Hw.
  assert (Hall : Forall buffer_stream_defs.word
                   (transcript_buffer.buffer b ++ pystr.split text)).
  { apply Forall_app. split; [exact Hw|].
    apply buffer_stream_spec.split_gives_words. }
  destruct (Z_lt_le_dec
              (Z.of_nat (length (transcript_buffer.buffer b
                                 ++ pystr.split text)))
              (transcript_buffer.buffer_size b)) as [Hlt|Hge].
  - rewrite transcript_buffer_spec.add_text_below by exact Hlt. exact Hall.
  - rewrite transcript_buffer_spec.add_text_full by lia. simpl.
    apply Forall_drop. exact Hall.
Qed.

(** Recording chunks one after the other numbers them from where the list
    stood. *)
Lemma results_after_lookup summ ents (chunks : list str)
    (recorded : list chunk_data) :
  length (results_after summ ents recorded chunks)
  = (length recorded + length chunks)%nat /\
  (forall i d, recorded !! i = Some d ->
     results_after summ ents recorded chunks !! i = Some d) /\
  (forall i c, chunks !! i = Some c ->
     results_after summ ents recorded chunks !! (length recorded + i)%nat
     = Some (result_for summ ents (length recorded + i) c)).
Proof.
  revert recorded. induction chunks as [|c0 chunks IH]; intros recorded.
  - simpl. split; [lia|]. split; [auto|]. intros i c Hi. discriminate Hi.
  - change (results_after summ ents recorded (c0 :: chunks))
      with (results_after summ ents
              (recorded ++ [result_for summ ents (length recorded) c0])
              chunks).
    destruct (IH (recorded ++ [result_for summ ents (length recorded) c0]))
      as (Hlen & Hold & Hnew).
    rewrite length_app in Hlen, Hnew. simpl in Hlen, Hnew.
    split; [simpl; lia|]. split.
    + intros i d Hi. apply Hold. apply lookup_app_l_Some. exact Hi.
    + intros [|i] c Hi.
      * simpl in Hi. injection Hi as <-. rewrite Nat.add_0_r.
        apply Hold. rewrite lookup_app_r by lia.
        rewrite Nat.sub_diag. reflexivity.
      * simpl in Hi. specialize (Hnew i c Hi).
        replace (length recorded + S i)%nat
          with (length recorded + 1 + i)%nat by lia.
        exact Hnew.
Qed.

Lemma results_after_app summ ents (recorded : list chunk_data)
    (chunks more : list str) :
  results_after summ ents recorded (chunks ++ more)
  = results_after summ ents (results_after summ ents recorded chunks) more.
Proof. unfold results_after. apply foldl_app. Qed.

(** One call that is not final, with collaborators that answer and a
    well-configured buffer holding words. *)
Lemma feeding_step self summ ents text w :
  answers self summ ents ->
  0 <= transcript_buffer.overlap (buffer w.1)
    < transcript_buffer.buffer_size (buffer w.1) ->
  Forall buffer_stream_defs.word (transcript_buffer.buffer (buffer w.1)) ->
  let out := process_text_async self text false w in
  let step := transcript_buffer.add_text (buffer w.1) text in
  out.2 = Ok tt /\
  buffer out.1.1 = step.1 /\
  chunk_summaries out.1.1
  = results_after summ ents (chunk_summaries w.1)
      (buffer_stream_defs.emitted [step.2]) /\
  summarized out.1.2
  = summarized w.2 ++ buffer_stream_defs.emitted [step.2].
Proof.
  intros Ha Hcfg Hw. cbv zeta.
  rewrite process_text_async_unfold, bind_run.
  destruct (process_if_answers self summ ents
              (transcript_buffer.add_text (buffer w.1) text).2
              (fed w.1 text, w.2) Ha) as (Hr & Hb & Hc & Htr).
  { intros c Hc. exact (emitted_chunk_truthy _ text c Hcfg Hw Hc). }
  rewrite Hr. cbn [ret fst snd]. rewrite Hb, Hc, Htr.
  repeat split; reflexivity.
Qed.

(** The part under [if is_final:], with collaborators that answer and a
    buffer holding words. *)
Lemma finalize_answers self summ ents fin w :
  answers self summ ents ->
  answers_final self fin ->
  Forall buffer_stream_defs.word (transcript_buffer.buffer (buffer w.1)) ->
  let out := finalize self w in
  let rem := transcript_buffer.get_remaining (buffer w.1) in
  out.2 = Ok tt /\
  buffer out.1.1 = rem.1 /\
  chunk_summaries out.1.1
  = results_after summ ents (chunk_summaries w.1)
      (buffer_stream_defs.emitted [rem.2]) /\
  summarized out.1.2
  = summarized w.2 ++ buffer_stream_defs.emitted [rem.2].
Proof.
  intros Ha Hf Hw. cbv zeta.
  destruct (get_remaining_chunk (buffer w.1) Hw) as [_ Ht].
  destruct (transcript_buffer.get_remaining (buffer w.1)) as [b r] eqn:E.
  cbn [fst snd] in *.
  assert (Hget : buffer_get_remaining w = ((set_buffer b w.1, w.2), Ok r)).
  { unfold buffer_get_remaining. rewrite E. reflexivity. }
  destruct (process_if_answers self summ ents r (set_buffer b w.1, w.2)
              Ha Ht) as (Hr & Hb & Hc & Htr).
  cbn [fst snd] in Hb, Hc, Htr.
  unfold finalize. rewrite bind_run, Hget. cbn [fst snd].
  rewrite bind_run, Hr, bind_run.
  set (w1 := (process_if self r (set_buffer b w.1, w.2)).1) in *.
  destruct (le_lt_dec (length (chunk_summaries w1.1)) 1) as [Hn|Hn].
  - rewrite final_summary_few by exact Hn. cbn [ret fst snd].
    rewrite Hb, Hc, Htr. repeat split; reflexivity.
  - rewrite final_summary_many by exact Hn. cbn [fst snd].
    rewrite Hf. cbn [ret fst snd].
    rewrite summarized_app, Hb, Hc, Htr. cbn. rewrite app_nil_r.
    repeat split; reflexivity.
Qed.

(** The final call is a call that is not final, then the part under
    [if is_final:]. *)
Lemma final_call_splits self text w :
  process_text_async self text true w
  = bind (process_text_async self text false) (fun _ => finalize self) w.
Proof.
  rewrite (bind_run (process_text_async self text false)).
  rewrite !process_text_async_unfold, !bind_run.
  destruct (process_if self _ _) as [w1 [[]|e]]; reflexivity.
Qed.

(** A run of calls that are not final, from any state with a
    well-configured buffer that holds words. *)
Lemma feeding_run self summ ents (texts : list str) (w : world) :
  answers self summ ents ->
  0 <= transcript_buffer.overlap (buffer w.1)
    < transcript_buffer.buffer_size (buffer w.1) ->
  Forall buffer_stream_defs.word (transcript_buffer.buffer (buffer w.1)) ->
  let out := run_calls self (feeding texts) w in
  let res := transcript_buffer.add_texts (buffer w.1) texts in
  buffer out.1 = res.1 /\
  chunk_summaries out.1
  = results_after summ ents (chunk_summaries w.1)
      (buffer_stream_defs.emitted res.2) /\
  summarized out.2 = summarized w.2 ++ buffer_stream_defs.emitted res.2 /\
  Forall buffer_stream_defs.word (transcript_buffer.buffer (buffer out.1)).
Proof.
  intros Ha. revert w.
  induction texts as [|t texts IH]; intros w Hcfg Hw; cbv zeta.
  - simpl. rewrite app_nil_r. repeat split; try reflexivity. exact Hw.
  - destruct (feeding_step self summ ents t w Ha Hcfg Hw)
      as (_ & Hb & Hc & Htr).
    set (w1 := (process_text_async self t false w).1) in *.
    change (run_calls self (feeding (t :: texts)) w)
      with (run_calls self (feeding texts) w1).
    pose proof (buffer_stream_spec.add_text_config (buffer w.1) t)
      as [Hsz Hov].
    assert (Hcfg1 : 0 <= transcript_buffer.overlap (buffer w1.1)
                    < transcript_buffer.buffer_size (buffer w1.1)).
    { rewrite Hb, Hsz, Hov. exact Hcfg. }
    assert (Hw1 : Forall buffer_stream_defs.word
                    (transcript_buffer.buffer (buffer w1.1))).
    { rewrite Hb. apply add_text_keeps_words; [exact Hcfg | exact Hw]. }
    destruct (IH w1 Hcfg1 Hw1) as (Hb' & Hc' & Htr' & Hw').
    cbv zeta in Hb', Hc', Htr', Hw'.
    split; [|split; [|split; [|exact Hw']]].
    + rewrite Hb', Hb. simpl transcript_buffer.add_texts.
      destruct (transcript_buffer.add_text (buffer w.1) t) as [b1 r].
      cbn [fst snd].
      destruct (transcript_buffer.add_texts b1 texts) as [b2 rs].
      reflexivity.
    + rewrite Hc', Hb, Hc. simpl transcript_buffer.add_texts.
      destruct (transcript_buffer.add_text (buffer w.1) t) as [b1 r].
      cbn [fst snd].
      destruct (transcript_buffer.add_texts b1 texts) as [b2 rs].
      cbn [fst snd]. destruct r as [c|]; reflexivity.
    + rewrite Htr', Hb, Htr. simpl transcript_buffer.add_texts.
      destruct (transcript_buffer.add_text (buffer w.1) t) as [b1 r].
      cbn [fst snd].
      destruct (transcript_buffer.add_texts b1 texts) as [b2 rs].
      cbn [fst snd]. rewrite <- app_assoc.
      destruct r as [c|]; reflexivity.
Qed.

(** A run of [add_text] calls, taken apart at its last call. *)
Lemma add_texts_snoc (texts : list str) (t : str)
    (b : transcript_buffer.TranscriptBuffer) :
  let res := transcript_buffer.add_texts b texts in
  let step := transcript_buffer.add_text res.1 t in
  transcript_buffer.add_texts b (texts ++ [t]) = (step.1, res.2 ++ [step.2]).
Proof.
  revert b. induction texts as [|t0 texts IH]; intros b; cbv zeta.
  - simpl. destruct (transcript_buffer.add_text b t). reflexivity.
  - simpl. destruct (transcript_buffer.add_text b t0) as [b1 r].
    rewrite IH. cbv zeta.
    destruct (transcript_buffer.add_texts b1 texts) as [b2 rs].
    reflexivity.
Qed.

Lemma emitted_app (rs rs' : list (option str)) :
  buffer_stream_defs.emitted (rs ++ rs')
  = buffer_stream_defs.emitted rs ++ buffer_stream_defs.emitted rs'.
Proof. unfold buffer_stream_defs.emitted. apply omap_app. Qed.

(** A whole session, from any state with a well-configured buffer that
    holds words: the chunks are those of the [add_text] calls, then what
    [get_remaining] hands out. *)
Lemma session_run self summ ents fin (texts : list str) (last : str)
    (w : world) :
  answers self summ ents ->
  answers_final self fin ->
  0 <= transcript_buffer.overlap (buffer w.1)
    < transcript_buffer.buffer_size (buffer w.1) ->
  Forall buffer_stream_defs.word (transcript_buffer.buffer (buffer w.1)) ->
  let out := run_calls self (session texts last) w in
  let res := transcript_buffer.add_texts (buffer w.1) (texts ++ [last]) in
  let chunks := buffer_stream_defs.emitted res.2
                ++ remainder_chunk (transcript_buffer.buffer res.1) in
  transcript_buffer.buffer (buffer out.1) = [] /\
  chunk_summaries out.1
  = results_after summ ents (chunk_summaries w.1) chunks /\
  summarized out.2 = summarized w.2 ++ chunks.
Proof.
  intros Ha Hf Hcfg Hw. cbv zeta.
  unfold session, run_calls. rewrite foldl_app. cbn [foldl fst snd].
  fold (run_calls self (feeding texts) w).
  destruct (feeding_run self summ ents texts w Ha Hcfg Hw)
    as (Hb & Hc & Htr & Hw1).
  cbv zeta in Hb, Hc, Htr, Hw1.
  set (w1 := run_calls self (feeding texts) w) in *.
  pose proof (buffer_stream_spec.add_texts_config texts (buffer w.1))
    as [Hsz Hov].
  assert (Hcfg1 : 0 <= transcript_buffer.overlap (buffer w1.1)
                  < transcript_buffer.buffer_size (buffer w1.1)).
  { rewrite Hb, Hsz, Hov. exact Hcfg. }
  rewrite add_texts_snoc. cbv zeta. cbn [fst snd].
  rewrite <- Hb.
  rewrite final_call_splits, bind_run.
  destruct (feeding_step self summ ents last w1 Ha Hcfg1 Hw1)
    as (Hr2 & Hb2 & Hc2 & Htr2).
  cbv zeta in Hr2, Hb2, Hc2, Htr2. rewrite Hr2.
  set (w2 := (process_text_async self last false w1).1) in *.
  assert (Hw2 : Forall buffer_stream_defs.word
                  (transcript_buffer.buffer (buffer w2.1))).
  { rewrite Hb2. apply add_text_keeps_words; [exact Hcfg1 | exact Hw1]. }
  destruct (finalize_answers self summ ents fin w2 Ha Hf Hw2)
    as (_ & Hb3 & Hc3 & Htr3).
  cbv zeta in Hb3, Hc3, Htr3.
  destruct (get_remaining_chunk (buffer w2.1) Hw2) as [Hrem _].
  rewrite Hrem, Hb2 in Hc3, Htr3.
  split; [rewrite Hb3; apply pipeline_run_spec.get_remaining_empties|]. split.
  - rewrite Hc3, Hc2, Hc, emitted_app, !results_after_app. reflexivity.
  - rewrite Htr3, Htr2, Htr, emitted_app, <- !app_assoc. reflexivity.
Qed.

(** The chunks of a session that starts with a fresh buffer, in terms of
    the stream of words. *)
Lemma session_chunks_fresh (cap ov : Z) (texts : list str) :
  0 <= ov < cap ->
  let b := buffer_stream_defs.fresh cap ov in
  let res := transcript_buffer.add_texts b texts in
  buffer_stream_defs.emitted res.2
  ++ remainder_chunk (transcript_buffer.buffer res.1)
  = session_chunks b texts.
Proof.
  intros Hcfg b res. unfold session_chunks. fold res. f_equal.
  destruct (buffer_stream_spec.add_texts_tracks texts b [] 0 Hcfg
              (buffer_stream_spec.fresh_tracks cap ov)) as [Htr _].
  cbv zeta in Htr. fold res in Htr. simpl in Htr.
  destruct Htr as (Hbuf & _).
  pose proof (buffer_stream_spec.add_texts_config texts b) as [Hsz Hov].
  fold res in Hsz, Hov.
  rewrite Hbuf. unfold buffer_stream_defs.stride. rewrite Hsz, Hov.
  reflexivity.
Qed.

(** X23.  A whole session before the final call: texts are fed one call
    after the other to a pipeline built around a fresh buffer with
    [0 <= overlap < capacity], and the summarizer and the entity
    extractor answer.  Then the pipeline has recorded exactly one result
    per chunk the buffer emitted: result [i] is numbered [i + 1], holds
    the summary and the entities of the [i]-th sliding window of the
    words fed so far, and its word count is the buffer capacity. *)
Theorem session_records_windows self summ ents (cap ov : Z)
    (texts : list str) (tr : list event) :
  answers self summ ents ->
  0 <= ov < cap ->
  let b := buffer_stream_defs.fresh cap ov in
  let out := run_calls self (feeding texts) (pipeline_with b, tr) in
  let res := transcript_buffer.add_texts b texts in
  buffer out.1 = res.1 /\
  length (chunk_summaries out.1)
  = length (buffer_stream_defs.emitted res.2) /\
  forall i d, chunk_summaries out.1 !! i = Some d ->
    let c := pystr.join (py " ")
               (buffer_stream_defs.window b i
                  (buffer_stream_defs.all_words texts)) in
    buffer_stream_defs.emitted res.2 !! i = Some c /\
    d = {| chunk_number := Z.of_nat i + 1;
           summary := summ c;
           entities := ents c;
           word_count := cap |}.
Proof.
  intros Ha Hcfg b out res.
  destruct (feeding_run self summ ents texts (pipeline_with b, tr) Ha)
    as (Hb & Hc & _); [exact Hcfg | constructor |].
  cbv zeta in Hb, Hc. cbn [fst snd pipeline_with buffer chunk_summaries]
    in Hb, Hc.
  fold b in Hb, Hc. fold res in Hb, Hc. fold out in Hb, Hc.
  destruct (results_after_lookup summ ents
              (buffer_stream_defs.emitted res.2) [])
    as (Hlen & _ & Hnew).
  simpl in Hlen, Hnew.
  split; [exact Hb|]. split; [rewrite Hc; exact Hlen|].
  intros i d Hi c.
  assert (Hlt : (i < length (buffer_stream_defs.emitted res.2))%nat).
  { rewrite <- Hlen, <- Hc. apply lookup_lt_is_Some. eauto. }
  destruct (lookup_lt_is_Some_2 _ _ Hlt) as [c' Hc'].
  destruct (buffer_stream_spec.add_texts_tracks texts b [] 0 Hcfg
              (buffer_stream_spec.fresh_tracks cap ov)) as [_ Hwin].
  destruct (Hwin i c' Hc') as [Hw Hle]. simpl in Hw, Hle.
  fold c in Hw. subst c'.
  split; [exact Hc'|].
  rewrite Hc, (Hnew i c Hc') in Hi. injection Hi as <-.
  unfold result_for. f_equal.
  unfold c. rewrite buffer_stream_spec.split_join.
  - unfold buffer_stream_defs.window.
    rewrite length_take, length_drop.
    unfold buffer_stream_defs.capacity, buffer_stream_defs.stride in *.
    simpl in *. lia.
  - unfold buffer_stream_defs.window.
    apply Forall_take, Forall_drop, buffer_stream_spec.all_words_are_words.
Qed.

Lemma session_records_windows_witness :
  length (chunk_summaries
            (run_calls echo (feeding [py "a b"; py "c"])
               (pipeline_with (buffer_stream_defs.fresh 2 1), [])).1)
  = 2%nat.
Proof.
  assert (Ha : answers echo (fun c => c)
                 (fun _ => {| entities_by_type := Some [] |})).
  { repeat split; intros; discriminate. }
  assert (Hcfg : 0 <= 1 < 2) by lia.
  destruct (session_records_windows echo (fun c => c)
              (fun _ => {| entities_by_type := Some [] |})
              2 1 [py "a b"; py "c"] [] Ha Hcfg) as (_ & Hlen & _).
  exact Hlen.
Defined.

(** X24.  A whole session with its final call, on a pipeline built
    around a fresh buffer with [0 <= overlap < capacity] and with
    collaborators that answer.  The chunks handed to the summarizer are,
    in this order, the sliding windows the buffer emitted and then, if
    any word is left, one last chunk with all the words from the start
    of the next window on; one result is recorded per chunk, numbered
    from 1; nothing is left in the buffer; and the request for the
    consolidated summary is not among the chunk requests. *)
Theorem session_with_final_call self summ ents fin (cap ov : Z)
    (texts : list str) (last : str) :
  answers self summ ents ->
  answers_final self fin ->
  0 <= ov < cap ->
  let b := buffer_stream_defs.fresh cap ov in
  let out := run_calls self (session texts last) (pipeline_with b, []) in
  let chunks := session_chunks b (texts ++ [last]) in
  transcript_buffer.buffer (buffer out.1) = [] /\
  chunk_summaries out.1 = results_after summ ents [] chunks /\
  summarized out.2 = chunks.
Proof.
  intros Ha Hf Hcfg b out chunks.
  destruct (session_run self summ ents fin texts last (pipeline_with b, [])
              Ha Hf) as (Hb & Hc & Htr); [exact Hcfg | constructor |].
  cbv zeta in Hb, Hc, Htr.
  cbn [fst snd pipeline_with buffer chunk_summaries] in Hb, Hc, Htr.
  pose proof (session_chunks_fresh cap ov (texts ++ [last]) Hcfg) as Hs.
  cbv zeta in Hs. fold b in Hs. rewrite Hs in Hc, Htr.
  split; [exact Hb|]. split; [exact Hc | exact Htr].
Qed.

Lemma session_with_final_call_witness :
  summarized
    (run_calls echo (session [py "a b"] (py "c d"))
       (pipeline_with (buffer_stream_defs.fresh 2 1), [])).2
  = [py "a b"; py "b c"; py "c d"].
Proof.
  assert (Ha : answers echo (fun c => c)
                 (fun _ => {| entities_by_type := Some [] |})).
  { repeat split; intros; discriminate. }
  assert (Hf : answers_final echo (fun c => c)).
  { intros c. reflexivity. }
  assert (Hcfg : 0 <= 1 < 2) by lia.
  destruct (session_with_final_call echo (fun c => c)
              (fun _ => {| entities_by_type := Some [] |}) (fun c => c)
              2 1 [py "a b"] (py "c d") Ha Hf Hcfg) as (_ & _ & Htr).
  exact Htr.
Defined.

(** Every word of the stream lies in one of the chunks of a session. *)
Lemma session_chunks_cover (cap ov : Z) (texts : list str) :
  0 <= ov < cap ->
  forall j x, buffer_stream_defs.all_words texts !! j = Some x ->
    exists c, c ∈ session_chunks (buffer_stream_defs.fresh cap ov) texts /\
              x ∈ pystr.split c.
Proof.
  intros Hcfg j x Hj.
  set (b := buffer_stream_defs.fresh cap ov).
  set (W := buffer_stream_defs.all_words texts) in *.
  destruct (buffer_stream_spec.add_texts_tracks texts b [] 0 Hcfg
              (buffer_stream_spec.fresh_tracks cap ov)) as [_ Hwin].
  cbv zeta in Hwin. simpl in Hwin. fold W in Hwin.
  unfold session_chunks. fold b. fold W.
  set (chunks := buffer_stream_defs.emitted
                   (transcript_buffer.add_texts b texts).2) in *.
  set (s := buffer_stream_defs.stride b) in *.
  assert (Hs : (0 < s)%nat).
  { unfold s, buffer_stream_defs.stride, b. simpl. lia. }
  assert (Hsc : (s <= buffer_stream_defs.capacity b)%nat).
  { unfold s, buffer_stream_defs.stride, buffer_stream_defs.capacity, b.
    simpl. lia. }
  assert (HW : Forall buffer_stream_defs.word W)
    by apply buffer_stream_spec.all_words_are_words.
  destruct (le_lt_dec (length chunks * s) j) as [Hrest|Hin].
  - assert (Hx : drop (length chunks * s) W !! (j - length chunks * s)%nat
                 = Some x).
    { rewrite lookup_drop. rewrite <- Hj. f_equal. lia. }
    exists (pystr.join (py " ") (drop (length chunks * s) W)). split.
    + apply elem_of_app. right.
      destruct (drop (length chunks * s) W) as [|y rest] eqn:E;
        [discriminate Hx|].
      apply list_elem_of_singleton. reflexivity.
    + rewrite buffer_stream_spec.split_join by (apply Forall_drop; exact HW).
      exact (list_elem_of_lookup_2 _ _ _ Hx).
  - set (i := (j / s)%nat).
    assert (Hi : (i < length chunks)%nat).
    { apply Nat.Div0.div_lt_upper_bound. lia. }
    assert (Hlo : (i * s <= j)%nat).
    { pose proof (Nat.Div0.mul_div_le j s). unfold i. lia. }
    assert (Hhi : (j < i * s + s)%nat).
    { pose proof (Nat.mul_succ_div_gt j s). unfold i. lia. }
    destruct (lookup_lt_is_Some_2 _ _ Hi) as [c Hc].
    destruct (Hwin i c Hc) as [Hcw _].
    exists c. split.
    + apply elem_of_app. left. exact (list_elem_of_lookup_2 _ _ _ Hc).
    + rewrite Hcw, buffer_stream_spec.split_join
        by (unfold buffer_stream_defs.window;
            apply Forall_take, Forall_drop; exact HW).
      apply (list_elem_of_lookup_2 _ (j - i * s)).
      unfold buffer_stream_defs.window. fold s.
      rewrite lookup_take_lt by lia.
      rewrite lookup_drop, <- Hj. f_equal. lia.
Qed.

(** X25.  No word is lost in a session with a final call: on a pipeline
    built around a fresh buffer with [0 <= overlap < capacity] and with
    collaborators that answer, every word of every text fed, the final
    one included, is a word of some chunk that was handed to the
    summarizer. *)
Theorem no_word_lost self summ ents fin (cap ov : Z)
    (texts : list str) (last : str) :
  answers self summ ents ->
  answers_final self fin ->
  0 <= ov < cap ->
  let out := run_calls self (session texts last)
               (pipeline_with (buffer_stream_defs.fresh cap ov), []) in
  forall t x, t ∈ texts ++ [last] -> x ∈ pystr.split t ->
    exists c, c ∈ summarized out.2 /\ x ∈ pystr.split c.
Proof.
  intros Ha Hf Hcfg out t x Ht Hx.
  destruct (session_run self summ ents fin texts last
              (pipeline_with (buffer_stream_defs.fresh cap ov), [])
              Ha Hf) as (_ & _ & Htr); [exact Hcfg | constructor |].
  cbv zeta in Htr. cbn [fst snd pipeline_with buffer] in Htr.
  pose proof (session_chunks_fresh cap ov (texts ++ [last]) Hcfg) as Hs.
  cbv zeta in Hs. rewrite Hs in Htr. fold out in Htr.
  assert (Hin : x ∈ buffer_stream_defs.all_words (texts ++ [last])).
  { unfold buffer_stream_defs.all_words.
    apply list_elem_of_In, in_concat. exists (pystr.split t). split.
    - apply in_map, list_elem_of_In. exact Ht.
    - apply list_elem_of_In. exact Hx. }
  apply list_elem_of_lookup_1 in Hin. destruct Hin as [j Hj].
  destruct (session_chunks_cover cap ov (texts ++ [last]) Hcfg j x Hj)
    as (c & Hc & Hxc).
  exists c. split; [rewrite Htr; exact Hc | exact Hxc].
Qed.

Lemma no_word_lost_witness :
  exists c,
    c ∈ summarized
          (run_calls echo (session [py "a b"] (py "c d"))
             (pipeline_with (buffer_stream_defs.fresh 2 1), [])).2 /\
    py "d" ∈ pystr.split c.
Proof.
  assert (Ha : answers echo (fun c => c)
                 (fun _ => {| entities_by_type := Some [] |})).
  { repeat split; intros; discriminate. }
  assert (Hf : answers_final echo (fun c => c)).
  { intros c. reflexivity. }
  assert (Hcfg : 0 <= 1 < 2) by lia.
  apply (no_word_lost echo (fun c => c)
           (fun _ => {| entities_by_type := Some [] |}) (fun c => c)
           2 1 [py "a b"] (py "c d") Ha Hf Hcfg (py "c d") (py "d")).
  - apply elem_of_app. right. apply list_elem_of_singleton. reflexivity.
  - vm_compute. apply list_elem_of_In. right. left. reflexivity.
Defined.

End session_spec.


(** ** A transcript written line by line is read back line by line *)

Module transcript_spec.

Import re.
Import transcript_defs.

(** *** Characters *)

Lemma upper_facts (a : N) :
  segmenter.upper a = true ->
  a <> 91%N /\ a <> 10%N /\ pystr.isspace a = false.
Proof.
  unfold segmenter.upper. intros Ha.
  apply andb_true_iff in Ha. destruct Ha as [H1 H2].
  apply N.leb_le in H1, H2.
  split; [lia|]. split; [lia|].
  unfold pystr.isspace.
  repeat match goal with
         | |- (_ || _)%bool = false => apply orb_false_iff; split
         | |- (_ && _)%bool = false => apply andb_false_iff
         end;
    try (apply N.eqb_neq; lia);
    try (left; apply N.leb_gt; lia);
    try (right; apply N.leb_gt; lia).
Qed.

Lemma name_char_not_colon (c : N) :
  segmenter.name_char c = true -> c <> 58%N.
Proof. intros Hc ->. vm_compute in Hc. discriminate. Qed.

(** *** Stripping *)

Lemma lstrip_length (s : str) : (length (pystr.lstrip s) <= length s)%nat.
Proof.
  induction s as [|a s IH]; simpl; [lia|].
  destruct (pystr.isspace a); simpl; lia.
Qed.

Lemma lstrip_same (s : str) :
  length (pystr.lstrip s) = length s -> pystr.lstrip s = s.
Proof.
  destruct s as [|a s]; simpl; [reflexivity|].
  destruct (pystr.isspace a); [|reflexivity].
  pose proof (lstrip_length s). lia.
Qed.

Lemma stripped_ends (t : str) :
  pystr.strip t = t ->
  pystr.lstrip t = t /\ pystr.lstrip (rev t) = rev t.
Proof.
  intros Ht. apply (f_equal (@length N)) in Ht.
  unfold pystr.strip in Ht. rewrite length_rev in Ht.
  pose proof (lstrip_length (rev (pystr.lstrip t))) as H1.
  pose proof (lstrip_length t) as H2.
  rewrite length_rev in H1.
  assert (Hl : pystr.lstrip t = t) by (apply lstrip_same; lia).
  split; [exact Hl|]. apply lstrip_same.
  rewrite Hl in Ht. rewrite length_rev. exact Ht.
Qed.

Lemma stripped_head (a : N) (t : str) :
  pystr.strip (a :: t) = a :: t -> pystr.isspace a = false.
Proof.
  intros Ht. destruct (stripped_ends _ Ht) as [Hl _].
  simpl in Hl. destruct (pystr.isspace a); [|reflexivity].
  pose proof (lstrip_length t) as Hlen. rewrite Hl in Hlen.
  simpl in Hlen. lia.
Qed.

(** A newline after a stripped text is stripped away. *)
Lemma strip_padded (t pad : str) :
  t <> [] -> pystr.strip t = t ->
  pad = [] \/ pad = [10%N] ->
  pystr.strip (t ++ pad) = t.
Proof.
  intros Hne Ht [-> | ->]; [rewrite app_nil_r; exact Ht|].
  destruct (stripped_ends _ Ht) as [Hl Hr].
  destruct t as [|a t]; [congruence|].
  pose proof (stripped_head a t Ht) as Ha.
  unfold pystr.strip.
  assert (H1 : pystr.lstrip ((a :: t) ++ [10%N]) = (a :: t) ++ [10%N]).
  { simpl. rewrite Ha. reflexivity. }
  rewrite H1, rev_app_distr.
  change (rev [10%N] ++ rev (a :: t)) with (10%N :: rev (a :: t)).
  change (pystr.lstrip (10%N :: rev (a :: t)))
    with (pystr.lstrip (rev (a :: t))).
  rewrite Hr. apply rev_involutive.
Qed.

(** *** Repetitions *)

(** A lazy repetition passes over characters of its class at which what
    follows it fails. *)
Lemma lazy_star_skip {R} (p : N -> bool) (k : str -> option R)
    (pre s : str) :
  forallb p pre = true ->
  (forall i, (i < length pre)%nat -> k (drop i pre ++ s) = None) ->
  lazy_star p k (pre ++ s) = lazy_star p k s.
Proof.
  induction pre as [|a pre IH]; intros Hp Hk; [reflexivity|].
  simpl in Hp. apply andb_true_iff in Hp. destruct Hp as [Ha Hp].
  pose proof (Hk 0%nat ltac:(simpl; lia)) as H0. simpl in H0.
  simpl. rewrite H0, Ha.
  apply IH; [exact Hp|]. intros i Hi.
  apply (Hk (S i)). simpl. lia.
Qed.

Lemma lazy_star_here {R} (p : N -> bool) (k : str -> option R)
    (s : str) (x : R) :
  k s = Some x -> lazy_star p k s = Some x.
Proof. intros Hk. destruct s; simpl; rewrite Hk; reflexivity. Qed.

(** It stops in front of a character that is not of its class. *)
Lemma lazy_star_stop {R} (p : N -> bool) (k : str -> option R)
    (a : N) (s : str) :
  p a = false -> lazy_star p k (a :: s) = k (a :: s).
Proof. intros Hp. simpl. rewrite Hp. destruct (k (a :: s)); reflexivity. Qed.

(** A greedy repetition in front of a character that is not of its
    class takes nothing. *)
Lemma greedy_star_stop {R} (p : N -> bool) (k : str -> option R)
    (a : N) (s : str) :
  p a = false -> greedy_star p k (a :: s) = k (a :: s).
Proof. intros Hp. simpl. rewrite Hp. reflexivity. Qed.

(** It takes a character of its class if what follows succeeds then,
    and none otherwise. *)
Lemma greedy_star_more {R} (p : N -> bool) (k : str -> option R)
    (a : N) (s : str) :
  p a = true ->
  greedy_star p k (a :: s)
  = match greedy_star p k s with
    | Some x => Some x
    | None => k (a :: s)
    end.
Proof. intros Hp. simpl. rewrite Hp. reflexivity. Qed.

Lemma take_front {A} (a b : list A) :
  take (length (a ++ b) - length b) (a ++ b) = a.
Proof.
  rewrite length_app.
  replace (length a + length b - length b)%nat with (length a) by lia.
  apply take_app_length.
Qed.

(** *** Lazy repetitions in the pattern *)

Lemma drop_head {A} (p : A -> bool) (l : list A) (i : nat) :
  forallb p l = true -> (i < length l)%nat ->
  exists x l', drop i l = x :: l' /\ p x = true.
Proof.
  intros Hp Hi. destruct (lookup_lt_is_Some_2 _ _ Hi) as [x Hx].
  exists x, (drop (S i) l). split; [apply drop_S; exact Hx|].
  rewrite forallb_forall in Hp. apply Hp.
  apply list_elem_of_In. exact (list_elem_of_lookup_2 _ _ _ Hx).
Qed.

(** [p+?] in front of a character [x] that is not of the class, when
    what follows fails at every character of the class: it takes all
    the characters up to [x]. *)
Lemma run_lazy_plus (p : N -> bool)
    (k : str -> captures -> option (str * captures))
    (b : N) (rest : str) (x : N) (tail : str) (c : captures) :
  p b = true -> forallb p rest = true -> p x = false ->
  (forall y s, p y = true -> k (y :: s) c = None) ->
  run (Plus true p) k (b :: rest ++ x :: tail) c = k (x :: tail) c.
Proof.
  intros Hb Hrest Hx Hk. unfold Plus. cbn [run]. rewrite Hb.
  rewrite lazy_star_skip.
  - apply lazy_star_stop. exact Hx.
  - exact Hrest.
  - intros i Hi. destruct (drop_head p rest i Hrest Hi) as (y & l' & -> & Hy).
    apply Hk. exact Hy.
Qed.

(** [.*?] passes over a prefix at which what follows fails. *)
Lemma run_lazy_any (k : str -> captures -> option (str * captures))
    (pre s : str) (c : captures) (x : str * captures) :
  (forall i, (i < length pre)%nat -> k (drop i pre ++ s) c = None) ->
  k s c = Some x ->
  run (Star true segmenter.any_char) k (pre ++ s) c = Some x.
Proof.
  intros Hpre Hs. cbn [run]. rewrite lazy_star_skip.
  - apply lazy_star_here. exact Hs.
  - clear. induction pre as [|a pre IH]; [reflexivity | exact IH].
  - exact Hpre.
Qed.

(** *** What is looked for after the text *)

Lemma is_char_neq (a c : N) : c <> a -> segmenter.is_char a c = false.
Proof. intros Hc. unfold segmenter.is_char. apply N.eqb_neq. exact Hc. Qed.

Lemma ahead_accepts (after : str) (c : captures) :
  match_end after ->
  exists s1, run ahead (fun s1 c1 => Some (s1, c1)) after c = Some (s1, c).
Proof.
  intros [-> | (r & -> & [(r' & ->) | (sp & r' & Hsp & ->)])].
  - exists []. reflexivity.
  - exists r'. reflexivity.
  - destruct Hsp as (a & rest & -> & Ha & Hne & Hrest & _).
    destruct rest as [|b rest]; [congruence|].
    simpl in Hrest. apply andb_true_iff in Hrest.
    destruct Hrest as [Hb Hrest].
    destruct (upper_facts a Ha) as (Ha1 & _ & _).
    exists r'. unfold ahead. cbn [cat foldr].
    cbn [run]. cbn [app segmenter.is_char N.eqb Pos.eqb].
    rewrite (is_char_neq 91 a Ha1), Ha.
    rewrite run_lazy_plus; [reflexivity | exact Hb | exact Hrest
                           | reflexivity |].
    intros y s Hy. rewrite is_char_neq; [reflexivity|].
    apply name_char_not_colon. exact Hy.
Qed.

Lemma ahead_rejects_char (x : N) (s : str) (c : captures) :
  x <> 10%N -> run ahead (fun s1 c1 => Some (s1, c1)) (x :: s) c = None.
Proof.
  intros Hx. unfold ahead. cbn [cat foldr]. cbn [run].
  rewrite (is_char_neq 10 x Hx). reflexivity.
Qed.

Lemma ahead_rejects_blank (after : str) (c : captures) :
  match_end after ->
  run ahead (fun s1 c1 => Some (s1, c1)) (10%N :: after) c = None.
Proof.
  intros [-> | (r & -> & _)]; reflexivity.
Qed.

(** *** The pattern from the text on *)

Lemma plain_head (t : str) :
  plain t ->
  exists a t', t = a :: t' /\ pystr.isspace a = false /\
               forallb (fun c => negb (c =? 10)%N) t = true.
Proof.
  intros (Hne & Hnl & Hst). destruct t as [|a t']; [congruence|].
  exists a, t'. split; [reflexivity|]. split; [|exact Hnl].
  exact (stripped_head a t' Hst).
Qed.

(** The text group takes the text and the newline of a blank line, and
    stops where a line or the end follows. *)
Lemma run_text (t pad after : str) (c : captures) :
  plain t -> pad = [] \/ pad = [10%N] -> match_end after ->
  run (Seq (Group 3 (Plus true segmenter.any_char))
           (Seq (Lookahead ahead) Empty))
      (fun s1 c1 => Some (s1, c1)) (t ++ pad ++ after) c
  = Some (after, (3%nat, t ++ pad) :: c).
Proof.
  intros Ht Hpad Hafter.
  destruct (plain_head t Ht) as (a & t' & -> & Ha & Hnl).
  unfold Plus. cbn [run app]. cbv beta.
  cbn [segmenter.any_char].
  rewrite (app_assoc t' pad after).
  rewrite lazy_star_skip.
  - apply lazy_star_here.
    destruct (ahead_accepts after
                ((3%nat,
                  take (length (a :: (t' ++ pad) ++ after) - length after)
                       (a :: (t' ++ pad) ++ after)) :: c) Hafter)
      as [s1 Hs1].
    rewrite Hs1. do 4 f_equal.
    exact (take_front (a :: t' ++ pad) after).
  - clear. induction (t' ++ pad) as [|x l IH]; [reflexivity | exact IH].
  - intros i Hi.
    assert (Hrej : forall c',
              run ahead (fun s0 c1 => Some (s0, c1))
                (drop i (t' ++ pad) ++ after) c' = None).
    { intros c'. rewrite length_app in Hi.
      destruct (le_lt_dec (length t') i) as [Hge|Hlt].
      - destruct Hpad as [-> | ->]; simpl in Hi; [lia|].
        rewrite drop_app_ge by exact Hge.
        replace (i - length t')%nat with 0%nat by lia.
        apply ahead_rejects_blank. exact Hafter.
      - simpl in Hnl. apply andb_true_iff in Hnl. destruct Hnl as [_ Hnl].
        rewrite drop_app_le by lia.
        destruct (drop_head _ t' i Hnl Hlt) as (x & l' & -> & Hx).
        apply ahead_rejects_char.
        apply negb_true_iff, N.eqb_neq in Hx. exact Hx. }
    rewrite Hrej. reflexivity.
Qed.

(** From the colon on: the colon, the space after it, the text. *)
Lemma run_from_colon (t pad after : str) (c : captures) :
  plain t -> pad = [] \/ pad = [10%N] -> match_end after ->
  run from_colon (fun s1 c1 => Some (s1, c1))
      (58%N :: 32%N :: t ++ pad ++ after) c
  = Some (after, (3%nat, t ++ pad) :: c).
Proof.
  intros Ht Hpad Hafter.
  pose proof (run_text t pad after c Ht Hpad Hafter) as Htext.
  destruct (plain_head t Ht) as (a & t' & -> & Ha & _).
  unfold from_colon. cbn [cat foldr].
  change (run (Seq (Chr (segmenter.is_char 58))
                 (Seq (Star false pystr.isspace)
                    (Seq (Group 3 (Plus true segmenter.any_char))
                       (Seq (Lookahead ahead) Empty))))
            (fun s1 c1 => Some (s1, c1))
            (58%N :: 32%N :: (a :: t') ++ pad ++ after) c)
    with (greedy_star pystr.isspace
            (fun s1 =>
               run (Seq (Group 3 (Plus true segmenter.any_char))
                      (Seq (Lookahead ahead) Empty))
                   (fun s1 c1 => Some (s1, c1)) s1 c)
            (32%N :: (a :: t') ++ pad ++ after)).
  rewrite greedy_star_more by reflexivity.
  cbn [app]. rewrite greedy_star_stop by exact Ha.
  cbn [app] in Htext. rewrite Htext. reflexivity.
Qed.

(** *** The speaker and the time *)

Lemma from_colon_needs_colon (y : N) (s : str) (c : captures) :
  segmenter.name_char y = true ->
  run from_colon (fun s1 c1 => Some (s1, c1)) (y :: s) c = None.
Proof.
  intros Hy. unfold from_colon. cbn [cat foldr]. cbn [run].
  rewrite is_char_neq; [reflexivity|].
  apply name_char_not_colon. exact Hy.
Qed.

(** The speaker group takes the name up to the colon. *)
Lemma run_speaker (sp tail : str) (c : captures) :
  name sp ->
  run (Seq speaker_group from_colon) (fun s1 c1 => Some (s1, c1))
      (sp ++ 58%N :: tail) c
  = run from_colon (fun s1 c1 => Some (s1, c1)) (58%N :: tail)
        ((2%nat, sp) :: c).
Proof.
  intros (a & rest & -> & Ha & Hne & Hrest & _).
  destruct rest as [|b rest]; [congruence|].
  simpl in Hrest. apply andb_true_iff in Hrest. destruct Hrest as [Hb Hrest].
  unfold speaker_group. cbn [cat foldr].
  cbn [run app]. rewrite Ha.
  rewrite run_lazy_plus; [| exact Hb | exact Hrest | reflexivity |].
  - cbn [run]. do 3 f_equal.
    exact (take_front (a :: b :: rest) (58%N :: tail)).
  - intros y s Hy. cbn [run]. apply from_colon_needs_colon. exact Hy.
Qed.

Lemma pattern_parts :
  segmenter.pattern
  = Seq (Opt time_part) (Seq speaker_group from_colon).
Proof. reflexivity. Qed.

(** The optional time in brackets, in front of a character that is not
    whitespace. *)
Lemma run_time_part (k : str -> captures -> option (str * captures))
    (t : str) (a : N) (tail : str) (c : captures) (x : str * captures) :
  bracketed t -> pystr.isspace a = false ->
  k (a :: tail) ((1%nat, t) :: c) = Some x ->
  run time_part k (91%N :: t ++ 93%N :: 32%N :: a :: tail) c = Some x.
Proof.
  intros Ht Ha Hk. unfold time_part. cbn [cat foldr]. unfold Plus.
  cbn [run]. cbn [segmenter.is_char N.eqb Pos.eqb].
  rewrite lazy_star_skip.
  - apply lazy_star_here. cbn [segmenter.is_char N.eqb Pos.eqb].
    change (pystr.isspace 32) with true. cbv iota.
    rewrite greedy_star_stop by exact Ha.
    rewrite <- Hk. do 3 f_equal.
    exact (take_front t (93%N :: 32%N :: a :: tail)).
  - clear. induction t as [|y t IH]; [reflexivity | exact IH].
  - intros i Hi.
    destruct (drop_head _ t i Ht Hi) as (y & l' & -> & Hy).
    apply negb_true_iff, N.eqb_neq in Hy.
    cbn [app]. rewrite is_char_neq by exact Hy. reflexivity.
Qed.

(** *** One line *)

Lemma line_start_line (e : entry) (rest : str) :
  readable e -> line_start (line e ++ rest).
Proof.
  intros (Hname & _ & _). unfold line.
  destruct (shown e) as [t|].
  - left. eexists. reflexivity.
  - right. exists (who e), (32%N :: said e ++ rest). split; [exact Hname|].
    rewrite <- app_assoc. reflexivity.
Qed.

(** The match of a line: it ends at the end of the text or in front of
    the newline before the next line, and its groups are the time, the
    speaker, and the text with the newline of a blank line after it. *)
Lemma match_line (e : entry) (pad after : str) :
  readable e -> pad = [] \/ pad = [10%N] -> match_end after ->
  match_at segmenter.pattern (line e ++ pad ++ after)
  = Some (after, groups_of e (said e ++ pad)).
Proof.
  intros (Hname & Hplain & Htime) Hpad Hafter.
  unfold match_at. rewrite pattern_parts.
  assert (Hrest : forall c,
            run (Seq speaker_group from_colon) (fun s1 c1 => Some (s1, c1))
                (who e ++ 58%N :: 32%N :: said e ++ pad ++ after) c
            = Some (after, (3%nat, said e ++ pad) :: (2%nat, who e) :: c)).
  { intros c. rewrite run_speaker by exact Hname.
    apply run_from_colon; assumption. }
  unfold line, groups_of. destruct (shown e) as [t|].
  - change ((py "[" ++ t ++ py "] " ++ who e ++ py ": " ++ said e)
            ++ pad ++ after)
      with (91%N :: (t ++ 93%N :: 32%N :: who e ++ py ": " ++ said e)
                    ++ pad ++ after).
    rewrite <- !app_assoc. cbn [app].
    rewrite <- !app_assoc.
    change (py ": " ++ said e ++ pad ++ after)
      with (58%N :: 32%N :: said e ++ pad ++ after).
    change (run (Seq (Opt time_part) (Seq speaker_group from_colon))
              (fun s1 c1 => Some (s1, c1)) ?s [])
      with (match run time_part
                    (run (Seq speaker_group from_colon)
                       (fun s1 c1 => Some (s1, c1))) s [] with
            | Some x => Some x
            | None => run (Seq speaker_group from_colon)
                        (fun s1 c1 => Some (s1, c1)) s []
            end).
    destruct Hname as (a & rest & Hwho & Ha & Hname).
    destruct (upper_facts a Ha) as (_ & _ & Hsp).
    rewrite Hwho. cbn [app].
    rewrite (run_time_part _ t a _ []
               (after, [(3%nat, said e ++ pad); (2%nat, a :: rest);
                        (1%nat, t)]) Htime Hsp); [reflexivity|].
    specialize (Hrest [(1%nat, t)]). rewrite Hwho in Hrest.
    exact Hrest.
  - change ((who e ++ py ": " ++ said e) ++ pad ++ after)
      with ((who e ++ 58%N :: 32%N :: said e) ++ pad ++ after).
    rewrite <- app_assoc. cbn [app].
    change (run (Seq (Opt time_part) (Seq speaker_group from_colon))
              (fun s1 c1 => Some (s1, c1)) ?s [])
      with (match run time_part
                    (run (Seq speaker_group from_colon)
                       (fun s1 c1 => Some (s1, c1))) s [] with
            | Some x => Some x
            | None => run (Seq speaker_group from_colon)
                        (fun s1 c1 => Some (s1, c1)) s []
            end).
    rewrite Hrest.
    destruct Hname as (a & rest & Hwho & Ha & Hname).
    destruct (upper_facts a Ha) as (Ha1 & _ & _).
    rewrite Hwho. unfold time_part. cbn [cat foldr app]. cbn [run].
    rewrite (is_char_neq 91 a Ha1). reflexivity.
Qed.

(** *** All lines *)

Lemma finditer_step (fuel : nat) (s after : str) (c : captures) :
  match_at segmenter.pattern s = Some (after, c) ->
  (length after < length s)%nat ->
  finditer_from (S fuel) segmenter.pattern s
  = c :: finditer_from fuel segmenter.pattern after.
Proof.
  intros Hm Hlen. cbn [finditer_from]. rewrite Hm.
  apply Nat.ltb_lt in Hlen. rewrite Hlen. reflexivity.
Qed.

(** No match begins at a newline. *)
Lemma finditer_newline (fuel : nat) (s : str) :
  finditer_from (S fuel) segmenter.pattern (10%N :: s)
  = finditer_from fuel segmenter.pattern s.
Proof. reflexivity. Qed.

Lemma finditer_nothing (fuel : nat) :
  finditer_from fuel segmenter.pattern [] = [].
Proof. destruct fuel; reflexivity. Qed.

Lemma line_not_empty (e : entry) : readable e -> (0 < length (line e))%nat.
Proof.
  intros ((a & rest & Hwho & _) & _ & _). unfold line.
  destruct (shown e); rewrite ?length_app, Hwho; simpl; lia.
Qed.

(** The segment built from the match of a line. *)
Lemma segment_of_groups (e : entry) (pad : str) (n : nat)
    (rest : list captures) :
  readable e -> pad = [] \/ pad = [10%N] ->
  segmenter.segments_of (Z.of_nat n)
    (groups_of e (said e ++ pad) :: rest)
  = segment_of n e :: segmenter.segments_of (Z.of_nat (S n)) rest.
Proof.
  intros (Hname & (Hne & _ & Hst) & _) Hpad.
  destruct Hname as (a & r & _ & _ & _ & _ & Hwho).
  cbn [segmenter.segments_of]. rewrite Nat2Z.inj_succ.
  unfold Z.succ. f_equal. unfold segment_of, groups_of.
  simpl. rewrite Hwho.
  rewrite (strip_padded (said e) pad Hne Hst Hpad).
  f_equal. destruct (shown e); reflexivity.
Qed.

Lemma transcript_more (blank : bool) (e e' : entry) (es : list entry) :
  transcript blank (e :: e' :: es)
  = line e ++ (if blank then [10%N] else [])
    ++ 10%N :: transcript blank (e' :: es).
Proof.
  unfold transcript. cbn [List.map pystr.join].
  destruct blank; reflexivity.
Qed.

(** The segments read from a transcript, counted from [n]. *)
Lemma segments_of_transcript (blank : bool) (es : list entry)
    (n fuel : nat) :
  Forall readable es ->
  (length (transcript blank es) < fuel)%nat ->
  segmenter.segments_of (Z.of_nat n)
    (finditer_from fuel segmenter.pattern (transcript blank es))
  = imap (fun i => segment_of (n + i)) es.
Proof.
  revert n fuel. induction es as [|e es IH]; intros n fuel Hes Hfuel.
  - cbn [transcript List.map pystr.join]. rewrite finditer_nothing.
    reflexivity.
  - apply Forall_cons in Hes. destruct Hes as [He Hes].
    pose proof (line_not_empty e He) as Hline.
    destruct fuel as [|fuel]; [lia|].
    destruct es as [|e' es].
    + cbn [transcript List.map pystr.join] in *.
      pose proof (match_line e [] [] He (or_introl eq_refl)
                    (or_introl eq_refl)) as Hm.
      rewrite !app_nil_r in Hm.
      rewrite (finditer_step fuel _ _ _ Hm) by (simpl; lia).
      rewrite <- (app_nil_r (said e)).
      rewrite segment_of_groups by (auto; left; reflexivity).
      rewrite finditer_nothing. cbn [imap segmenter.segments_of].
      rewrite Nat.add_0_r. reflexivity.
    + rewrite transcript_more in *.
      set (pad := if blank then [10%N] else []) in *.
      assert (Hpad : pad = [] \/ pad = [10%N])
        by (unfold pad; destruct blank; auto).
      set (T := transcript blank (e' :: es)) in *.
      assert (Hend : match_end (10%N :: T)).
      { right. exists T. split; [reflexivity|].
        apply Forall_cons in Hes. destruct Hes as [He' _].
        unfold T. destruct es as [|e'' es].
        - cbn [transcript List.map pystr.join].
          rewrite <- (app_nil_r (line e')).
          apply line_start_line. exact He'.
        - rewrite transcript_more. apply line_start_line. exact He'. }
      rewrite !length_app in Hfuel. cbn [length] in Hfuel.
      rewrite (finditer_step fuel _ _ _ (match_line e pad _ He Hpad Hend))
        by (rewrite !length_app; cbn [length]; lia).
      destruct fuel as [|fuel]; [lia|].
      rewrite finditer_newline.
      rewrite segment_of_groups by assumption.
      rewrite (IH (S n) fuel Hes) by lia.
      rewrite (imap_cons _ e (e' :: es)), Nat.add_0_r.
      apply (f_equal (cons (segment_of n e))).
      apply imap_ext. intros i x _. cbn. f_equal. lia.
Qed.

(** X26.  A transcript in the format the docstring of
    [segment_by_speaker] gives is read back line by line.  The lines
    are [[time] Name: text] or [Name: text], separated by a newline or
    by a blank line; a name is a capital, then at least one more letter,
    space or period, and ends without whitespace; a text is on one
    line, not empty, and has no whitespace around it; a time has no
    closing bracket.  Then [segment_by_speaker] returns one segment per
    line, in order, with that speaker, that text, that time ([None]
    without brackets) and the line's number from 0. *)
Theorem transcript_reads_back (blank : bool) (es : list entry) :
  Forall readable es ->
  segmenter.segment_by_speaker (transcript blank es) = imap segment_of es.
Proof.
  intros Hes. unfold segmenter.segment_by_speaker, finditer.
  change 0 with (Z.of_nat 0).
  rewrite (segments_of_transcript blank es 0) by (exact Hes || lia).
  apply imap_ext. intros i e _. reflexivity.
Qed.

Lemma transcript_reads_back_witness :
  segmenter.segment_by_speaker
    (py "[10:00 AM] Al: hi" ++ [10%N] ++ py "Bo B.: yes")
  = [ {| segmenter.speaker := py "Al"; segmenter.text := py "hi";
         segmenter.timestamp := Some (py "10:00 AM");
         segmenter.start_line := Some 0 |};
      {| segmenter.speaker := py "Bo B."; segmenter.text := py "yes";
         segmenter.timestamp := None;
         segmenter.start_line := Some 1 |} ].
Proof.
  apply (transcript_reads_back false
           [ {| shown := Some (py "10:00 AM"); who := py "Al";
                said := py "hi" |};
             {| shown := None; who := py "Bo B."; said := py "yes" |} ]).
  repeat constructor; try discriminate;
    try (do 2 eexists; repeat split; try discriminate; reflexivity).
Defined.

Section with_iso.

Context `{IsoLib}.

Lemma line_of_entry (m : teams.message) :
  teams_defs.iso_only_value_errors ->
  teams.line_of m = Ok (line (entry_of m)).
Proof.
  intros Hv. unfold teams.line_of, line, entry_of, shown_time.
  cbn [shown who said].
  destruct (pystr.truthy _); [|reflexivity].
  destruct (fromisoformat _) as [dt|e] eqn:E; [reflexivity|].
  apply Hv in E. subst e. rewrite decide_True by reflexivity. reflexivity.
Qed.

Lemma lines_of_entries (ms : list teams.message) :
  teams_defs.iso_only_value_errors ->
  teams.lines_of ms = Ok (List.map line (List.map entry_of ms)).
Proof.
  intros Hv. induction ms as [|m ms IH]; [reflexivity|].
  cbn [teams.lines_of List.map]. rewrite (line_of_entry m Hv), IH.
  reflexivity.
Qed.

(** X27.  What [parse_teams_format] writes, [segment_by_speaker] reads
    back.  If [fromisoformat] fails with [ValueError] only and every
    message has a speaker that is a name (or none: the default is
    [Unknown]), a text on one line that is not empty and has no
    whitespace around it, and no closing bracket in the time shown for
    it, then [parse_teams_format] returns a transcript from which
    [segment_by_speaker] gets one segment per message, in order, with
    the message's speaker and text and the time shown ([None] for a
    message without timestamp). *)
Theorem teams_export_reads_back (ms : list teams.message) :
  teams_defs.iso_only_value_errors ->
  Forall (fun m => readable (entry_of m)) ms ->
  exists out,
    teams.parse_teams_format {| teams.messages := Some ms |} = Ok out /\
    segmenter.segment_by_speaker out
    = imap (fun i m => segment_of i (entry_of m)) ms.
Proof.
  intros Hv Hms.
  exists (transcript true (List.map entry_of ms)). split.
  - unfold teams.parse_teams_format. cbn [teams.messages].
    rewrite (lines_of_entries ms Hv). reflexivity.
  - unfold segmenter.segment_by_speaker, finditer.
    change 0 with (Z.of_nat 0).
    rewrite (segments_of_transcript true _ 0);
      [| apply Forall_map; exact Hms | lia].
    rewrite imap_fmap. apply imap_ext. intros i e _. reflexivity.
Qed.

End with_iso.

Lemma teams_export_reads_back_witness :
  exists out,
    @teams.parse_teams_format teams_defs.no_iso
      {| teams.messages :=
           Some [ {| teams.speaker := Some (py "Al");
                     teams.text := Some (py "hi");
                     teams.timestamp := Some (py "10:00") |};
                  {| teams.speaker := None;
                     teams.text := Some (py "yes");
                     teams.timestamp := None |} ] |}
    = Ok out /\
    segmenter.segment_by_speaker out
    = [ {| segmenter.speaker := py "Al"; segmenter.text := py "hi";
           segmenter.timestamp := Some (py "10:00");
           segmenter.start_line := Some 0 |};
        {| segmenter.speaker := py "Unknown"; segmenter.text := py "yes";
           segmenter.timestamp := None;
           segmenter.start_line := Some 1 |} ].
Proof.
  apply (@teams_export_reads_back teams_defs.no_iso).
  - intros s e [= <-]. reflexivity.
  - repeat constructor; try discriminate;
      try (do 2 eexists; repeat split; try discriminate; reflexivity).
Defined.

End transcript_spec.
